(** * Memorier: a shallow embedding of [memorier.py]

    The program is one Python class, [Memorier], whose methods are run in a
    fixed order over a list of file paths, [founded_paths].  Every method
    reads the file system and most delete or write files.  The embedding
    threads one [State] value (the object's attributes together with the
    part of the outside world the methods touch) through a state monad with
    exceptions: a raised exception keeps every effect done before it, as in
    Python.

    Scope.  The methods [collectFiles], [removeLargeFiles], [convertTypes],
    [checkQuality], [getImageHashes], [removeDuplicateImages] and
    [createFolders] are embedded, each under its own name, and
    [organizeMemories] (which copies the files into the folders) in the
    part on further models.  [validateFiles] (which runs before
    [founded_paths] is filled) is not.

    Conventions.
    - Python [str] is [string]; the model is exact on ASCII paths.
    - Python [int] is [Z]; the similarity score, a Python [float], is an
      exact rational [Q] (for the 8 x 8 fingerprints that [imagehash.phash]
      returns every intermediate value [d/64], [1 - d/64], [(1 - d/64)*100]
      is a dyadic rational that binary floating point represents exactly).
    - [os.path] is [ntpath]: the program is written for Windows paths.
    - A [dict] is an association list in insertion order, a local [set] a
      [gset], the file system a [gmap] from paths to files.
    - What an external tool answers for a file (PIL, ffprobe, ffmpeg, the
      file system) is recorded in the [File] value stored for its path.
    - [os.makedirs(..., exist_ok=True)] is taken to succeed; the directories
      it is asked for are recorded in [made_dirs].
    - The [tqdm] progress bars have no effect on the state and are left
      out, as are the [reason] strings kept with [removed_files] (only the
      length of that list is read) and the attributes [memories_dir],
      [photos_dir], [videos_dir] and [months] that [createFolders] sets
      for [organizeMemories], which are functions of the directory both
      are given. *)

From Stdlib Require Import QArith.
From Stdlib Require Import Ascii String.
From stdpp Require Import gmap strings list fin_maps pretty sorting.

Close Scope Q_scope.
Open Scope string_scope.
Open Scope list_scope.
Open Scope Z_scope.

Set Default Proof Using "Type".
Set Warnings "-register-all,-clear-no-such-hyp".

(** ** Python strings *)

Module Py.

Definition is_upper (c : ascii) : bool :=
  let n := nat_of_ascii c in (65 <=? n)%nat && (n <=? 90)%nat.

Definition lower_char (c : ascii) : ascii :=
  if is_upper c then ascii_of_nat (nat_of_ascii c + 32) else c.

(** [str.lower] *)
Fixpoint lower (s : string) : string :=
  match s with
  | EmptyString => EmptyString
  | String c s' => String (lower_char c) (lower s')
  end.

Fixpoint rfind_from (c : ascii) (s : string) (i last : Z) : Z :=
  match s with
  | EmptyString => last
  | String a s' => rfind_from c s' (i + 1) (if Ascii.eqb a c then i else last)
  end.

(** [s.rfind(c)]: the highest index of [c] in [s], or [-1]. *)
Definition rfind (c : ascii) (s : string) : Z := rfind_from c s 0 (-1).

(** [s[:n]] and [s[n:]] for [0 <= n]. *)
Fixpoint slice_to (n : nat) (s : string) : string :=
  match n, s with
  | S k, String a s' => String a (slice_to k s')
  | _, _ => EmptyString
  end.

Fixpoint slice_from (n : nat) (s : string) : string :=
  match n, s with
  | S k, String _ s' => slice_from k s'
  | _, _ => s
  end.

(** The [while filenameIndex < dotIndex] loop of [genericpath._splitext]:
    [true] when one of the [steps] characters from [filenameIndex] on is not
    a dot. *)
Fixpoint splitext_scan (p : string) (filenameIndex steps : nat) : bool :=
  match steps with
  | O => false
  | S k =>
      match String.get filenameIndex p with
      | Some "."%char => splitext_scan p (S filenameIndex) k
      | _ => true
      end
  end.

(** [os.path.splitext] of [ntpath]: [sep] is a backslash, [altsep] a slash. *)
Definition splitext (p : string) : string * string :=
  let sepIndex := Z.max (rfind "\"%char p) (rfind "/"%char p) in
  let dotIndex := rfind "."%char p in
  if (sepIndex <? dotIndex)
     && splitext_scan p (Z.to_nat (sepIndex + 1))
          (Z.to_nat (dotIndex - (sepIndex + 1)))
  then (slice_to (Z.to_nat dotIndex) p, slice_from (Z.to_nat dotIndex) p)
  else (p, "").

Fixpoint ends_with_sep (s : string) : bool :=
  match s with
  | EmptyString => false
  | String a EmptyString => Ascii.eqb a "\"%char || Ascii.eqb a "/"%char
  | String _ s' => ends_with_sep s'
  end.

(** [os.path.join a b] of [ntpath] for a second component [b] that is a plain
    name (no drive, not absolute), the only way the program calls it, and a
    first component [a] that is not a bare drive: a backslash is added
    unless [a] is empty or already ends with a separator.  After a bare
    drive [ntpath] adds no separator ([C:] and [a.jpg] give [C:a.jpg]),
    where this definition gives [C:\a.jpg].  Of the calls of the program
    only the one of [collectFiles] can have a bare drive for [a], when the
    folder it walks is given as one; the other first components are the
    directory of the script and paths joined to it. *)
Definition path_join (a b : string) : string :=
  match a with
  | EmptyString => b
  | _ => if ends_with_sep a then a +:+ b else a +:+ "\" +:+ b
  end.

(** [str(n)] for an [int]. *)
Definition str (n : Z) : string := pretty n.

(** [l[i]] with Python's negative indices; [None] stands for [IndexError]. *)
Definition index {A} (l : list A) (i : Z) : option A :=
  if 0 <=? i then l !! Z.to_nat i
  else if - Z.of_nat (length l) <=? i then l !! Z.to_nat (Z.of_nat (length l) + i)
  else None.

(** A [dict] keeps its keys in the order of their first insertion:
    an association list in which an assignment to a present key replaces
    the value in place. *)
Fixpoint dict_set {V} (d : list (string * V)) (k : string) (v : V)
  : list (string * V) :=
  match d with
  | [] => [(k, v)]
  | (k', v') :: d' =>
      if String.eqb k' k then (k', v) :: d' else (k', v') :: dict_set d' k v
  end.

Fixpoint dict_get {V} (d : list (string * V)) (k : string) : option V :=
  match d with
  | [] => None
  | (k', v') :: d' => if String.eqb k' k then Some v' else dict_get d' k
  end.

Definition dict_keys {V} (d : list (string * V)) : list string := d.*1.

(** [list.remove(x)]: drops the first element equal to [x]; [None] stands
    for [ValueError]. *)
Fixpoint list_remove (x : string) (l : list string) : option (list string) :=
  match l with
  | [] => None
  | y :: l' =>
      if String.eqb y x then Some l' else cons y <$> list_remove x l'
  end.

End Py.


(** ** The outside world *)

(** The exceptions the methods can meet. *)
Inductive Exn :=
  | FileNotFoundError | PermissionError | OSError | UnidentifiedImageError
  | TimeoutExpired | JSONDecodeError | ImportError
  | ValueError | TypeError | ZeroDivisionError | KeyError | IndexError.

(** [datetime.fromtimestamp(os.stat(p).st_mtime)]: the two fields read. *)
Record Date := { year : Z; month : Z }.

(** The range [datetime] guarantees. *)
Definition valid_date (d : Date) : Prop :=
  1 <= year d <= 9999 /\ 1 <= month d <= 12.

(** [imagehash.ImageHash]: its [hash] attribute is a two-dimensional boolean
    array, here the list of its rows.  [len(h.hash)] is the number of rows. *)
Record ImageHash := { hash : list (list bool) }.

(** What [Image.open] returns: the [size] attribute, and the 64 bits
    [dctlowfreq > med] that [imagehash.phash] computes from the pixels, bit
    [8*r + c] for row [r] and column [c]; [None] when the pixel data cannot
    be decoded. *)
Record Image := { img_size : Z * Z; img_bits : option Z }.

(** One entry of the [streams] array that ffprobe prints. *)
Record Stream := {
  codec_type : string;
  width : option Z;
  height : option Z }.

(** [subprocess.run(['ffprobe', ...], timeout=10)]: it raises, or returns a
    return code and a standard output that [json.loads] parses into its
    [streams] ([None] when it is not JSON). *)
Inductive Probe :=
  | ProbeRaises (e : Exn)
  | ProbeExit (returncode : Z) (streams : option (list Stream)).

(** [subprocess.run(['ffmpeg', ...], timeout=600)]. *)
Inductive Ffmpeg :=
  | FfmpegRaises (e : Exn)
  | FfmpegExit (returncode : Z) (stderr : string).

(** A file on disk, with what each external call answers for it. *)
Inductive File : Type := mkFile {
  f_size : option Z;          (* os.path.getsize; None: it raises *)
  f_removable : bool;         (* os.remove succeeds *)
  f_date : Date;              (* modification time *)
  f_image : option Image;     (* Image.open; None: it raises *)
  f_probe : Probe;            (* ffprobe on the file *)
  f_png : option File;        (* what img.save(_, 'PNG') writes; None: it raises *)
  f_ffmpeg : Ffmpeg;          (* ffmpeg on the file *)
  f_mp4 : option File         (* what that ffmpeg run leaves at its output path *)
}.

(** What the program prints. *)
Inductive Msg :=
  | MsgCollected (n : nat)
  | MsgFailedRemoveLarge (p : string) (e : Exn)
  | MsgLargeRemoved (n : nat)
  | MsgSkipHeic (p : string)
  | MsgFfmpegTimeout (p : string)
  | MsgFfmpegFailed (p stderr : string)
  | MsgFailedConvert (p : string) (e : Exn)
  | MsgConverted (n : nat)
  | MsgLowQualityRemoved (n : nat)
  | MsgDuplicatesRemoved (n : nat)
  | MsgFoldersCreated.

(** The attributes of the [Memorier] object ([founded_paths], [file_dates])
    and the world around it. *)
Record State := mkState {
  founded_paths : list string;
  file_dates : list (string * Date);
  disk : gmap string File;
  made_dirs : list string;      (* the arguments of os.makedirs, in order *)
  heif_decoder : bool;          (* import pillow_heif succeeds *)
  stdout : list Msg }.

Definition set_founded_paths (l : list string) (st : State) : State :=
  mkState l (file_dates st) (disk st) (made_dirs st) (heif_decoder st) (stdout st).
Definition set_file_dates (d : list (string * Date)) (st : State) : State :=
  mkState (founded_paths st) d (disk st) (made_dirs st) (heif_decoder st) (stdout st).
Definition set_disk (d : gmap string File) (st : State) : State :=
  mkState (founded_paths st) (file_dates st) d (made_dirs st) (heif_decoder st) (stdout st).
Definition add_dir (p : string) (st : State) : State :=
  mkState (founded_paths st) (file_dates st) (disk st) (made_dirs st ++ [p])
    (heif_decoder st) (stdout st).
Definition add_msg (m : Msg) (st : State) : State :=
  mkState (founded_paths st) (file_dates st) (disk st) (made_dirs st)
    (heif_decoder st) (stdout st ++ [m]).

(** ** The monad: state with exceptions *)

Inductive Result (A : Type) :=
  | Ok (a : A)
  | Raise (e : Exn).
Arguments Ok {A} a.
Arguments Raise {A} e.

Definition M (A : Type) : Type := State → Result A * State.

Definition ret {A} (a : A) : M A := λ st, (Ok a, st).
Definition raise {A} (e : Exn) : M A := λ st, (Raise e, st).
Definition bind {A B} (m : M A) (k : A → M B) : M B :=
  λ st, match m st with
        | (Ok a, st') => k a st'
        | (Raise e, st') => (Raise e, st')
        end.

(** [try: m  except Exception as e: handler e] *)
Definition try_except {A} (m : M A) (handler : Exn → M A) : M A :=
  λ st, match m st with
        | (Ok a, st') => (Ok a, st')
        | (Raise e, st') => handler e st'
        end.

Declare Scope py_scope.
Delimit Scope py_scope with py.
Notation "x <- m ;; k" := (bind m (λ x, k))
  (at level 100, m at next level, right associativity,
   format "'[v' x  <-  m  ;;  '/' k ']'") : py_scope.
Notation "m ;; k" := (bind m (λ _, k))
  (at level 100, right associativity,
   format "'[v' m  ;;  '/' k ']'") : py_scope.
Open Scope py_scope.

Definition get {A} (f : State → A) : M A := λ st, (Ok (f st), st).
Definition modify (f : State → State) : M unit := λ st, (Ok tt, f st).
Definition print (m : Msg) : M unit := modify (add_msg m).
Definition of_result {A} (r : Result A) : M A := λ st, (r, st).
Definition of_option {A} (o : option A) (e : Exn) : M A :=
  match o with Some a => ret a | None => raise e end.

(** [for x in l: acc = body acc x] *)
Fixpoint for_each {A B} (l : list A) (body : B → A → M B) (acc : B) : M B :=
  match l with
  | [] => ret acc
  | x :: l' => acc' <- body acc x ;; for_each l' body acc'
  end.

(** *** File-system and tool calls *)

Definition stat_file (p : string) : M File :=
  f <- get (λ st, disk st !! p) ;; of_option f FileNotFoundError.

Definition os_path_getsize (p : string) : M Z :=
  f <- stat_file p ;; of_option (f_size f) OSError.

Definition os_remove (p : string) : M unit :=
  f <- stat_file p ;;
  if f_removable f then modify (λ st, set_disk (delete p (disk st)) st)
  else raise PermissionError.

Definition os_path_exists (p : string) : M bool :=
  get (λ st, bool_decide (is_Some (disk st !! p))).

Definition write_file (p : string) (f : File) : M unit :=
  modify (λ st, set_disk (<[p := f]> (disk st)) st).

Definition os_makedirs (p : string) : M unit := modify (add_dir p).

Definition Image_open (p : string) : M Image :=
  f <- stat_file p ;; of_option (f_image f) UnidentifiedImageError.

(** [img.save(new_path, 'PNG')] for the image opened from [p]. *)
Definition Image_save_png (p new_path : string) : M unit :=
  f <- stat_file p ;;
  out <- of_option (f_png f) OSError ;;
  write_file new_path out.

(** [self.founded_paths.remove(p)] *)
Definition founded_paths_remove (p : string) : M unit :=
  l <- get founded_paths ;;
  l' <- of_option (Py.list_remove p l) ValueError ;;
  modify (set_founded_paths l').

(** ** The class attributes *)

Definition image_exts : gset string := {[ ".jpg"; ".jpeg"; ".png"; ".heic"; ".webp" ]}.
Definition video_exts : gset string := {[ ".mp4"; ".avi"; ".mkv"; ".mov"; ".webm" ]}.
Definition valid_exts : gset string := image_exts ∪ video_exts.

Definition ext_of (p : string) : string := Py.lower (Py.splitext p).2.
Definition is_image (p : string) : bool := bool_decide (ext_of p ∈ image_exts).
Definition is_video (p : string) : bool := bool_decide (ext_of p ∈ video_exts).

(** ** [collectFiles] *)

(** [walk] is what [os.walk(self.folder)] yields: every directory of the
    tree with the names of the files in it. *)
Definition collect_file (root : string) (_ : unit) (file : string) : M unit :=
  let ext := Py.lower (Py.splitext file).2 in
  if bool_decide (ext ∈ valid_exts) then
    let full_path := Py.path_join root file in
    modify (λ st, set_founded_paths (founded_paths st ++ [full_path]) st)
  else ret tt.

Definition collect_dir (_ : unit) (entry : string * list string) : M unit :=
  let '(root, files) := entry in
  for_each files (collect_file root) tt.

Definition collectFiles (walk : list (string * list string)) : M unit :=
  for_each walk collect_dir tt ;;
  n <- get (λ st, length (founded_paths st)) ;;
  print (MsgCollected n).

(** ** [removeLargeFiles] *)

Definition default_max_image_bytes : Z := 20 * 1024 * 1024.
Definition default_max_video_bytes : Z := 1024 * 1024 * 1024.

(** The [if size is None / elif / elif] chain that sets [should_remove]. *)
Definition too_large (max_image_bytes max_video_bytes : Z)
    (ext : string) (size : option Z) : bool :=
  match size with
  | None => true
  | Some size =>
      if bool_decide (ext ∈ image_exts) && (max_image_bytes <? size) then true
      else if bool_decide (ext ∈ video_exts) && (max_video_bytes <? size) then true
      else false
  end.

(** One iteration.  The [try] block is [os.remove; removed_files.append;
    founded_paths.remove]: when [os.remove] raises nothing else of the block
    runs; the append cannot raise, so an exception of [list.remove] leaves
    the appended list. *)
Definition removeLargeFiles_step (max_image_bytes max_video_bytes : Z)
    (removed_files : list string) (file_path : string) : M (list string) :=
  let ext := ext_of file_path in
  size <- try_except (s <- os_path_getsize file_path ;; ret (Some s))
                     (λ _, ret None) ;;
  if too_large max_image_bytes max_video_bytes ext size then
    removed <- try_except (os_remove file_path ;; ret true)
                 (λ e, print (MsgFailedRemoveLarge file_path e) ;; ret false) ;;
    if removed : bool then
      try_except (founded_paths_remove file_path)
                 (λ e, print (MsgFailedRemoveLarge file_path e)) ;;
      ret (removed_files ++ [file_path])
    else ret removed_files
  else ret removed_files.

Definition removeLargeFiles (max_image_bytes max_video_bytes : Z) : M unit :=
  snapshot <- get founded_paths ;;
  removed_files <- for_each snapshot
    (removeLargeFiles_step max_image_bytes max_video_bytes) [] ;;
  print (MsgLargeRemoved (length removed_files)).

(** ** [convertTypes] *)

Definition stem (p : string) : string := (Py.splitext p).1.

(** The body shared by the [.heic] and [.webp] branches. *)
Definition convert_image (file_path : string) : M (string * bool) :=
  Image_open file_path ;;
  let new_path := stem file_path +:+ ".png" in
  Image_save_png file_path new_path ;;
  os_remove file_path ;;
  ret (new_path, true).

(** ffmpeg launched on [p] with output [new_path] ([-y]: it overwrites).
    On a missing input ffmpeg exits with a non-zero code. *)
Definition run_ffmpeg (p new_path : string) : M (Z * string) :=
  f <- get (λ st, disk st !! p) ;;
  match f with
  | None => ret (1, "No such file or directory")
  | Some f =>
      match f_mp4 f with Some out => write_file new_path out | None => ret tt end ;;
      match f_ffmpeg f with
      | FfmpegRaises e => raise e
      | FfmpegExit returncode stderr => ret (returncode, stderr)
      end
  end.

Definition convert_video (file_path : string) : M (string * bool) :=
  let new_path := stem file_path +:+ ".mp4" in
  result <- try_except (r <- run_ffmpeg file_path new_path ;; ret (Some r))
              (λ e, match e with
                    | TimeoutExpired => print (MsgFfmpegTimeout file_path) ;; ret None
                    | _ => raise e
                    end) ;;
  match result with
  | Some (returncode, stderr) =>
      present <- os_path_exists new_path ;;
      if (returncode =? 0) && present then
        os_remove file_path ;; ret (new_path, true)
      else
        (if bool_decide (stderr ≠ "") then print (MsgFfmpegFailed file_path stderr)
         else ret tt) ;;
        ret (file_path, false)
  | None => ret (file_path, false)
  end.

(** The [try] part of one iteration: the new path and whether
    [converted_count] is incremented. *)
Definition convert_one (file_path : string) : M (string * bool) :=
  let ext := ext_of file_path in
  try_except
    (if bool_decide (ext ∈ [".heic"; ".webp"]) then
       if bool_decide (ext = ".heic") then
         heif_supported <- get heif_decoder ;;
         if heif_supported : bool then convert_image file_path
         else print (MsgSkipHeic file_path) ;; ret (file_path, false)
       else convert_image file_path
     else if bool_decide (ext ∈ [".avi"; ".mkv"; ".mov"; ".webm"]) then
       convert_video file_path
     else ret (file_path, false))
    (λ e, print (MsgFailedConvert file_path e) ;; ret (file_path, false)).

Definition convertTypes_step (acc : list string * nat) (file_path : string)
  : M (list string * nat) :=
  r <- convert_one file_path ;;
  let '(new_path, converted) := r in
  ret (acc.1 ++ [new_path], if converted : bool then S acc.2 else acc.2).

Definition convertTypes_loop (paths : list string) : M (list string * nat) :=
  for_each paths convertTypes_step ([], O).

Definition convertTypes : M unit :=
  paths <- get founded_paths ;;
  r <- convertTypes_loop paths ;;
  let '(converted_paths, converted_count) := r in
  modify (set_founded_paths converted_paths) ;;
  print (MsgConverted converted_count).

(** ** [checkQuality] *)

Definition default_min_size : Z * Z := (600, 400).

Definition run_ffprobe (p : string) : M (Z * option (list Stream)) :=
  f <- get (λ st, disk st !! p) ;;
  match f with
  | None => ret (1, None)
  | Some f =>
      match f_probe f with
      | ProbeRaises e => raise e
      | ProbeExit returncode out => ret (returncode, out)
      end
  end.

(** The video branch: [should_remove] from the result of ffprobe. *)
Definition low_quality_video (min_video_size : Z * Z)
    (result : Z * option (list Stream)) : M bool :=
  if result.1 =? 0 then
    streams <- of_option result.2 JSONDecodeError ;;
    match List.find (λ s, String.eqb (codec_type s) "video") streams with
    | Some video_stream =>
        let width := default 0 (width video_stream) in
        let height := default 0 (height video_stream) in
        ret ((width <? min_video_size.1) || (height <? min_video_size.2))
    | None => ret true
    end
  else ret true.

Definition checkQuality_step (min_image_size min_video_size : Z * Z)
    (removed_files : list string) (file_path : string) : M (list string) :=
  let ext := ext_of file_path in
  should_remove <-
    (if bool_decide (ext ∈ image_exts) then
       img <- Image_open file_path ;;
       let '(width, height) := img_size img in
       ret ((width <? min_image_size.1) || (height <? min_image_size.2))
     else if bool_decide (ext ∈ video_exts) then
       result <- run_ffprobe file_path ;;
       low_quality_video min_video_size result
     else ret false) ;;
  if should_remove : bool then
    os_remove file_path ;;
    founded_paths_remove file_path ;;
    ret (removed_files ++ [file_path])
  else ret removed_files.

Definition checkQuality (min_image_size min_video_size : Z * Z) : M unit :=
  snapshot <- get founded_paths ;;
  removed_files <- for_each snapshot
    (checkQuality_step min_image_size min_video_size) [] ;;
  print (MsgLowQualityRemoved (length removed_files)).

(** ** [imagehash] *)

(** The array [phash] wraps: [hash_size = 8] rows of 8 bits. *)
Definition hash_of_bits (bits : Z) : ImageHash :=
  {| hash := (λ r, (λ c, Z.testbit bits (8 * r + c)) <$> seqZ 0 8) <$> seqZ 0 8 |}.

(** [imagehash.phash(img)] *)
Definition phash (img : Image) : Result ImageHash :=
  match img_bits img with
  | Some bits => Ok (hash_of_bits bits)
  | None => Raise OSError
  end.

(** [h.hash.flatten()] *)
Definition flatten (h : ImageHash) : list bool := concat (hash h).

(** [h.hash.size]: the number of bits of the fingerprint. *)
Definition bit_length (h : ImageHash) : nat := length (flatten h).

(** [len(h.hash)]: the number of rows. *)
Definition hash_rows (h : ImageHash) : nat := length (hash h).

(** The number of positions at which two bit lists differ. *)
Definition hamming (a b : list bool) : nat :=
  length (filter (λ xy, xy.1 ≠ xy.2) (zip a b)).

(** [ImageHash.__sub__] *)
Definition hash_sub (a b : ImageHash) : Result Z :=
  if bool_decide (bit_length a = bit_length b)
  then Ok (Z.of_nat (hamming (flatten a) (flatten b)))
  else Raise TypeError.

(** The two lines
    [distance = hashes[paths[i]] - hashes[paths[j]]] and
    [similarity = (1 - distance / len(hashes[paths[i]].hash) ** 2) * 100]. *)
Definition similarity (hi hj : ImageHash) : Result Q :=
  match hash_sub hi hj with
  | Raise e => Raise e
  | Ok distance =>
      let denominator := Z.of_nat (hash_rows hi) ^ 2 in
      if denominator =? 0 then Raise ZeroDivisionError
      else Ok ((1 - inject_Z distance / inject_Z denominator) * 100)%Q
  end.

(** ** [getImageHashes] *)

Definition getImageHashes_step (hashes : list (string * ImageHash))
    (path : string) : M (list (string * ImageHash)) :=
  if bool_decide (ext_of path ∈ image_exts) then
    img <- Image_open path ;;
    h <- of_result (phash img) ;;
    ret (Py.dict_set hashes path h)
  else ret hashes.

Definition getImageHashes : M (list (string * ImageHash)) :=
  paths <- get founded_paths ;;
  for_each paths getImageHashes_step [].

(** ** [removeDuplicateImages] *)

Definition default_threshold : Q := 95%Q.

(** The local sets [seen] and [deleted]. *)
Record Marks := { seen : gset string; deleted : gset string }.

(** The body of [for j in range(i + 1, len(paths))]. *)
Definition compare_pair (hashes : list (string * ImageHash)) (paths : list string)
    (threshold : Q) (i : nat) (marks : Marks) (j : nat) : M Marks :=
  pj <- of_option (paths !! j) IndexError ;;
  if bool_decide (pj ∈ seen marks) then ret marks
  else
    pi <- of_option (paths !! i) IndexError ;;
    hi <- of_option (Py.dict_get hashes pi) KeyError ;;
    hj <- of_option (Py.dict_get hashes pj) KeyError ;;
    similarity <- of_result (similarity hi hj) ;;
    if Qle_bool threshold similarity then
      os_remove pj ;;
      ret {| seen := seen marks ∪ {[pj]}; deleted := deleted marks ∪ {[pj]} |}
    else ret marks.

(** The body of [for i in range(len(paths))]. *)
Definition scan_from (hashes : list (string * ImageHash)) (paths : list string)
    (threshold : Q) (marks : Marks) (i : nat) : M Marks :=
  pi <- of_option (paths !! i) IndexError ;;
  if bool_decide (pi ∈ seen marks) then ret marks
  else
    marks' <- for_each (seq (i + 1) (length paths - (i + 1)))
                (compare_pair hashes paths threshold i) marks ;;
    ret {| seen := seen marks' ∪ {[pi]}; deleted := deleted marks' |}.

(** The [with tqdm(...)] block: the two nested loops. *)
Definition scan_duplicates (hashes : list (string * ImageHash))
    (threshold : Q) : M Marks :=
  let paths := Py.dict_keys hashes in
  for_each (seq 0 (length paths)) (scan_from hashes paths threshold)
    {| seen := ∅; deleted := ∅ |}.

Definition removeDuplicateImages (threshold : Q) : M unit :=
  hashes <- getImageHashes ;;
  marks <- scan_duplicates hashes threshold ;;
  modify (λ st, set_founded_paths
                  (filter (λ p, p ∉ deleted marks) (founded_paths st)) st) ;;
  print (MsgDuplicatesRemoved (size (deleted marks))).

(** ** [createFolders] *)

Definition months : list string :=
  ["January"; "February"; "March"; "April"; "May"; "June";
   "July"; "August"; "September"; "October"; "November"; "December"].

(** The loop that fills [years_with_files] and [months_with_files]
    (a year absent from the dictionary starts from the empty set). *)
Definition group_dates (file_dates : list (string * Date))
  : gset Z * gmap Z (gset Z) :=
  foldl (λ acc item,
           let file_date := item.2 in
           (acc.1 ∪ {[year file_date]},
            <[year file_date :=
                default ∅ (acc.2 !! year file_date) ∪ {[month file_date]}]> acc.2))
        (∅, ∅) file_dates.

(** [sorted(s)] for a set of integers. *)
Definition sorted (s : gset Z) : list Z := merge_sort Z.le (elements s).

(** The body of the loop that fills [file_dates]. *)
Definition record_date (file_dates : list (string * Date)) (file_path : string)
  : M (list (string * Date)) :=
  f <- stat_file file_path ;;
  ret (Py.dict_set file_dates file_path (f_date f)).

(** The body of [for month_num in sorted(months_with_files[year])]. *)
Definition make_month_dirs (year_photos_dir year_videos_dir : string)
    (_ : unit) (month_num : Z) : M unit :=
  month_name <- of_option (Py.index months (month_num - 1)) IndexError ;;
  os_makedirs (Py.path_join year_photos_dir month_name) ;;
  os_makedirs (Py.path_join year_videos_dir month_name).

(** The body of [for year in sorted(years_with_files)]. *)
Definition make_year_dirs (photos_dir videos_dir : string)
    (months_with_files : gmap Z (gset Z)) (_ : unit) (year : Z) : M unit :=
  let year_photos_dir := Py.path_join photos_dir (Py.str year) in
  let year_videos_dir := Py.path_join videos_dir (Py.str year) in
  os_makedirs year_photos_dir ;;
  os_makedirs year_videos_dir ;;
  months_of_year <- of_option (months_with_files !! year) KeyError ;;
  for_each (sorted months_of_year)
    (make_month_dirs year_photos_dir year_videos_dir) tt.

(** [project_dir] is [os.path.dirname(os.path.abspath(__file__))]. *)
Definition createFolders (project_dir : string) : M unit :=
  let memories_dir := Py.path_join project_dir "Memories" in
  let photos_dir := Py.path_join memories_dir "Photos" in
  let videos_dir := Py.path_join memories_dir "Videos" in
  os_makedirs photos_dir ;;
  os_makedirs videos_dir ;;
  paths <- get founded_paths ;;
  file_dates <- for_each paths record_date [] ;;
  match file_dates with
  | [] => ret tt
  | _ =>
      let '(years_with_files, months_with_files) := group_dates file_dates in
      for_each (sorted years_with_files)
        (make_year_dirs photos_dir videos_dir months_with_files) tt ;;
      modify (set_file_dates file_dates) ;;
      print MsgFoldersCreated
  end.

(** ** Vocabulary of the statements *)

(** What [os.path.getsize] answers in a state ([None]: it raises). *)
Definition size_on_disk (st : State) (p : string) : option Z :=
  disk st !! p ≫= f_size.

(** [os.remove p] would succeed in the state. *)
Definition deletable (st : State) (p : string) : bool :=
  match disk st !! p with Some f => f_removable f | None => false end.

(** The exception [os.remove p] raises when it fails. *)
Definition remove_error (st : State) (p : string) : Exn :=
  match disk st !! p with Some _ => PermissionError | None => FileNotFoundError end.

(** SizeFilter rejects [p]: [should_remove] is set. *)
Definition rejected_by_size (max_image_bytes max_video_bytes : Z)
    (st : State) (p : string) : bool :=
  too_large max_image_bytes max_video_bytes (ext_of p) (size_on_disk st p).

(** SizeFilter rejects [p] and the deletion succeeds. *)
Definition removed_by_size (max_image_bytes max_video_bytes : Z)
    (st : State) (p : string) : bool :=
  rejected_by_size max_image_bytes max_video_bytes st p && deletable st p.

(** Every path of the tree: the [full_path] of each file [os.walk] lists. *)
Definition walk_paths (walk : list (string * list string)) : list string :=
  walk ≫= λ entry, Py.path_join entry.1 <$> entry.2.

(** The extensions [convertTypes] converts. *)
Definition convertible_image (p : string) : Prop := ext_of p ∈ [".heic"; ".webp"].
Definition convertible_video (p : string) : Prop :=
  ext_of p ∈ [".avi"; ".mkv"; ".mov"; ".webm"].

(** The path a converted record gets. *)
Definition converted_name (p : string) : option string :=
  if bool_decide (convertible_image p) then Some (stem p +:+ ".png")
  else if bool_decide (convertible_video p) then Some (stem p +:+ ".mp4")
  else None.

(** The paths [convertTypes] can give to the record at [p]. *)
Definition candidates (p : string) : list string :=
  p :: option_list (converted_name p).

(** The conversion of [p] cannot succeed in [st]: the HEIC decoder is
    missing, PIL cannot read or write the image, or ffmpeg times out, fails,
    or leaves no output. *)
Inductive conversion_fails (st : State) (p : string) : Prop :=
  | missing_decoder :
      ext_of p = ".heic" → heif_decoder st = false → conversion_fails st p
  | image_not_read :
      convertible_image p → disk st !! p ≫= f_image = None →
      conversion_fails st p
  | image_not_written :
      convertible_image p → disk st !! p ≫= f_png = None →
      conversion_fails st p
  | transcoder_raises f e :
      convertible_video p → disk st !! p = Some f →
      f_ffmpeg f = FfmpegRaises e → conversion_fails st p
  | transcoder_error f returncode stderr :
      convertible_video p → disk st !! p = Some f →
      f_ffmpeg f = FfmpegExit returncode stderr → returncode ≠ 0 →
      conversion_fails st p
  | transcoder_input_missing :
      convertible_video p → disk st !! p = None → conversion_fails st p
  | transcoder_no_output f :
      convertible_video p → disk st !! p = Some f → f_mp4 f = None →
      disk st !! (stem p +:+ ".mp4") = None → conversion_fails st p.

(** The bits [getImageHashes] obtains for [p]; [None] when the file is
    missing, PIL cannot open it, or its pixels cannot be decoded. *)
Definition phash_bits (st : State) (p : string) : option Z :=
  match disk st !! p with
  | Some f => match f_image f with Some img => img_bits img | None => None end
  | None => None
  end.

(** ** The duplicate rule in the words of the specification *)

(** How an index of the hashed list is resolved. *)
Inductive Verdict := Kept | Deleted.

(** "similarity to [i] meets or exceeds the threshold". *)
Definition similar (threshold : Q) (fingerprints : list ImageHash)
    (i j : nat) : bool :=
  match fingerprints !! i, fingerprints !! j with
  | Some hi, Some hj =>
      match similarity hi hj with
      | Ok s => Qle_bool threshold s
      | Raise _ => false
      end
  | _, _ => false
  end.

(** "for every [j > i] not yet in [resolved] ...: if similarity >= threshold,
    ... add [j] to [resolved] (deleted)". *)
Definition spec_compare (threshold : Q) (fingerprints : list ImageHash)
    (i : nat) (resolved : gmap nat Verdict) (j : nat) : gmap nat Verdict :=
  match resolved !! j with
  | Some _ => resolved
  | None =>
      if similar threshold fingerprints i j then <[j := Deleted]> resolved
      else resolved
  end.

(** "if [i] is in [resolved], skip.  Otherwise, for every [j > i] ...  After
    scanning all [j], add [i] to [resolved] (kept)". *)
Definition spec_scan (threshold : Q) (fingerprints : list ImageHash)
    (resolved : gmap nat Verdict) (i : nat) : gmap nat Verdict :=
  match resolved !! i with
  | Some _ => resolved
  | None =>
      <[i := Kept]>
        (foldl (spec_compare threshold fingerprints i) resolved
           (seq (i + 1) (length fingerprints - (i + 1))))
  end.

(** "For [i] from [0] to [n-1], in order", from the empty [resolved]. *)
Definition spec_partition (threshold : Q) (fingerprints : list ImageHash)
  : gmap nat Verdict :=
  foldl (spec_scan threshold fingerprints) ∅ (seq 0 (length fingerprints)).

(** The paths of the indices the rule deletes. *)
Definition spec_deleted (threshold : Q) (hashes : list (string * ImageHash))
    (p : string) : Prop :=
  ∃ j, Py.dict_keys hashes !! j = Some p
       ∧ spec_partition threshold hashes.*2 !! j = Some Deleted.

(** How the local sets of the scan stand for a [resolved] map over the
    indices of [paths], and what the scan has done to the disk of [st0]. *)
Definition scan_inv (paths : list string) (st0 : State)
    (marks : Marks) (resolved : gmap nat Verdict) (st : State) : Prop :=
  (∀ p, p ∈ seen marks ↔ ∃ k, paths !! k = Some p ∧ is_Some (resolved !! k))
  ∧ (∀ p, p ∈ deleted marks
          ↔ ∃ k, paths !! k = Some p ∧ resolved !! k = Some Deleted)
  ∧ (∀ p, disk st !! p
          = if bool_decide (p ∈ deleted marks) then None else disk st0 !! p).

(** ** Vocabulary for [createFolders] *)

(** No character of [s] is a path separator. *)
Fixpoint sep_free (s : string) : bool :=
  match s with
  | EmptyString => true
  | String c s' =>
      negb (Ascii.eqb c "\"%char) && negb (Ascii.eqb c "/"%char) && sep_free s'
  end.

(** [months[month_num - 1]] for a month number of [datetime]. *)
Definition month_name (month_num : Z) : string :=
  default "" (Py.index months (month_num - 1)).

Definition photos_dir_of (project_dir : string) : string :=
  Py.path_join (Py.path_join project_dir "Memories") "Photos".
Definition videos_dir_of (project_dir : string) : string :=
  Py.path_join (Py.path_join project_dir "Memories") "Videos".

(** [<kind_dir>/<year>/<MonthName>] *)
Definition month_dir (kind_dir : string) (y m : Z) : string :=
  Py.path_join (Py.path_join kind_dir (Py.str y)) (month_name m).

(** Some record of [founded_paths] was last modified in month [m] of year
    [y]. *)
Definition has_record_in (st : State) (y m : Z) : Prop :=
  ∃ p f, p ∈ founded_paths st ∧ disk st !! p = Some f
         ∧ year (f_date f) = y ∧ month (f_date f) = m.

(** The same, for a record of the given kind. *)
Definition has_record_of_kind_in (kind : string → bool) (st : State)
    (y m : Z) : Prop :=
  ∃ p f, p ∈ founded_paths st ∧ kind p = true ∧ disk st !! p = Some f
         ∧ year (f_date f) = y ∧ month (f_date f) = m.

(** ** Example worlds *)

Definition january_2024 : Date := {| year := 2024; month := 1 |}.

Definition march_2023 : Date := {| year := 2023; month := 3 |}.

(** A file of the given size about which nothing else is known: no tool can
    read it, the file system can delete it. *)
Definition opaque_file (size : Z) : File :=
  mkFile (Some size) true january_2024 None (ProbeExit 1 None) None
    (FfmpegExit 1 "Invalid data found when processing input") None.

(** The same file with the read-only attribute: [os.remove] raises
    [PermissionError]. *)
Definition read_only (f : File) : File :=
  mkFile (f_size f) false (f_date f) (f_image f) (f_probe f) (f_png f)
    (f_ffmpeg f) (f_mp4 f).

(** A picture PIL can open, of the given dimensions and fingerprint bits,
    that cannot be written back as PNG. *)
Definition still (dims : Z * Z) (bits : Z) (d : Date) : File :=
  mkFile (Some 1000) true d (Some {| img_size := dims; img_bits := Some bits |})
    (ProbeExit 1 None) None
    (FfmpegExit 1 "Invalid data found when processing input") None.

(** A picture PIL can open and save as PNG. *)
Definition picture (dims : Z * Z) (bits : Z) (d : Date) : File :=
  mkFile (Some 1000) true d (Some {| img_size := dims; img_bits := Some bits |})
    (ProbeExit 1 None) (Some (still dims bits d))
    (FfmpegExit 1 "Invalid data found when processing input") None.

(** A video with one 1920 x 1080 video stream, and what ffmpeg does on it. *)
Definition clip (d : Date) (run : Ffmpeg) (out : option File) : File :=
  mkFile (Some 5000) true d None
    (ProbeExit 0 (Some [{| codec_type := "video"; width := Some 1920;
                           height := Some 1080 |}]))
    None run out.

(** A fresh [Memorier] whose [founded_paths] is [paths], over the given
    files. *)
Definition world (paths : list string) (files : list (string * File)) : State :=
  mkState paths [] (list_to_map files) [] false [].

(** What [os.walk] yields for a folder with one sub-folder. *)
Definition walk_example : list (string * list string) :=
  [("C:\in", ["a.JPG"; "notes.txt"; "b.mov"]); ("C:\in\sub", ["a.JPG"])].

(** A collected path whose file has disappeared since. *)
Definition world_gone : State := world ["C:\pics\gone.jpg"] [].

(** An image one byte over the default ceiling that cannot be deleted. *)
Definition world_big_read_only : State :=
  world ["C:\pics\big.jpg"]
        [("C:\pics\big.jpg", read_only (opaque_file (default_max_image_bytes + 1)))].

(** An image at the ceiling, one over it, and one whose file is gone. *)
Definition world_sizes : State :=
  world ["C:\pics\exact.jpg"; "C:\pics\over.jpg"; "C:\pics\unreadable.png"]
        [("C:\pics\exact.jpg", opaque_file default_max_image_bytes);
         ("C:\pics\over.jpg", opaque_file (default_max_image_bytes + 1));
         ("C:\pics\unreadable.png",
          mkFile None true january_2024 None (ProbeExit 1 None) None
            (FfmpegExit 1 "") None)].

(** A WEBP picture that converts, then an AVI clip on which ffmpeg times
    out. *)
Definition world_timeout : State :=
  world ["C:\in\a.webp"; "C:\in\clip.avi"]
        [("C:\in\a.webp", picture (800, 600) 0 march_2023);
         ("C:\in\clip.avi", clip march_2023 (FfmpegRaises TimeoutExpired) None)].

(** A HEIC picture, a MOV clip ffmpeg converts, and a JPEG picture. *)
Definition world_mixed : State :=
  world ["C:\in\a.heic"; "C:\in\b.mov"; "C:\in\c.jpg"]
        [("C:\in\a.heic", picture (800, 600) 0 march_2023);
         ("C:\in\b.mov",
          clip march_2023 (FfmpegExit 0 "")
            (Some (clip march_2023 (FfmpegExit 0 "") None)));
         ("C:\in\c.jpg", picture (800, 600) 1 march_2023)].

(** A PNG picture and a WEBP picture with the same stem. *)
Definition world_same_stem : State :=
  world ["C:\in\a.png"; "C:\in\a.webp"]
        [("C:\in\a.png", picture (800, 600) 0 march_2023);
         ("C:\in\a.webp", picture (1024, 768) 255 march_2023)].

(** A picture below the minimum dimensions whose file is read-only. *)
Definition world_tiny_locked : State :=
  world ["C:\in\tiny.png"; "C:\in\a.png"]
        [("C:\in\tiny.png", read_only (picture (100, 100) 0 march_2023));
         ("C:\in\a.png", picture (800, 600) 1 march_2023)].

(** Two pictures whose fingerprints differ in four bits, and a clip. *)
Definition world_near : State :=
  world ["C:\in\a.png"; "C:\in\clip.mp4"; "C:\in\b.png"]
        [("C:\in\a.png", picture (800, 600) 0 march_2023);
         ("C:\in\clip.mp4", clip march_2023 (FfmpegExit 0 "") None);
         ("C:\in\b.png", picture (800, 600) 15 march_2023)].

(** [world_near] in another world: same paths and fingerprints, other
    dimensions and dates, the first picture read-only, one more file on
    disk. *)
Definition world_near_other : State :=
  world ["C:\in\a.png"; "C:\in\clip.mp4"; "C:\in\b.png"]
        [("C:\in\a.png", read_only (picture (4000, 3000) 0 january_2024));
         ("C:\in\clip.mp4", clip january_2024 (FfmpegExit 1 "") None);
         ("C:\in\b.png", picture (640, 480) 15 january_2024);
         ("C:\in\notes.txt", opaque_file 12)].

(** Three pictures [A], [B], [C]: [A] and [B] differ in 3 bits, [B] and [C]
    in 3 bits, [A] and [C] in 6 bits. *)
Definition world_chain : State :=
  world ["C:\in\A.jpg"; "C:\in\B.jpg"; "C:\in\C.jpg"]
        [("C:\in\A.jpg", picture (800, 600) 0 march_2023);
         ("C:\in\B.jpg", picture (800, 600) 7 march_2023);
         ("C:\in\C.jpg", picture (800, 600) 63 march_2023)].

(** [world_chain] with the file of [B] read-only. *)
Definition world_chain_locked : State :=
  world ["C:\in\A.jpg"; "C:\in\B.jpg"; "C:\in\C.jpg"]
        [("C:\in\A.jpg", picture (800, 600) 0 march_2023);
         ("C:\in\B.jpg", read_only (picture (800, 600) 7 march_2023));
         ("C:\in\C.jpg", picture (800, 600) 63 march_2023)].


(** A picture, an exact copy of it, and an image file PIL cannot open. *)
Definition world_broken : State :=
  world ["C:\in\a.png"; "C:\in\copy.png"; "C:\in\broken.jpg"]
        [("C:\in\a.png", picture (800, 600) 0 march_2023);
         ("C:\in\copy.png", picture (800, 600) 0 march_2023);
         ("C:\in\broken.jpg", opaque_file 1000)].

(** A photo of March 2023 and a clip of January 2024. *)
Definition world_two_months : State :=
  world ["C:\in\a.jpg"; "C:\in\clip.mp4"]
        [("C:\in\a.jpg", picture (800, 600) 0 march_2023);
         ("C:\in\clip.mp4", clip january_2024 (FfmpegExit 0 "") None)].

(** * Further models *)

(** ** [organizeMemories] *)

(** [os.path.splitdrive(p)[1]] of [ntpath] for a path with or without a
    drive letter (a UNC share is not told apart). *)
Definition drop_drive (p : string) : string :=
  match p with
  | String _ (String ":" rest) => rest
  | _ => p
  end.

(** [os.path.basename] of [ntpath]: what follows the last separator of the
    path behind its drive. *)
Definition os_path_basename (p : string) : string :=
  let rest := drop_drive p in
  let i := Z.max (Py.rfind "\"%char rest) (Py.rfind "/"%char rest) + 1 in
  Py.slice_from (Z.to_nat i) rest.

(** [p] starts with two separators: a UNC or device path, whose drive
    [drop_drive] does not tell apart. *)
Definition unc_root (p : string) : bool :=
  match p with
  | String a (String b _) =>
      (Ascii.eqb a "\"%char || Ascii.eqb a "/"%char)
      && (Ascii.eqb b "\"%char || Ascii.eqb b "/"%char)
  | _ => false
  end.

(** [p] is a drive and nothing more, as [C:]. *)
Definition bare_drive (p : string) : bool :=
  match p with
  | String _ (String ":" EmptyString) => true
  | _ => false
  end.

(** [shutil.copy2(src, dst)] for a [dst] in the directory [dst_dir]: the
    copy has the content and the metadata of the source.  It raises when
    the source is missing, and when the directory is none of those
    [os.makedirs] was asked for. *)
Definition shutil_copy2 (src dst dst_dir : string) : M unit :=
  f <- stat_file src ;;
  dirs <- get made_dirs ;;
  if bool_decide (dst_dir ∈ dirs) then write_file dst f
  else raise FileNotFoundError.

(** The loop [while os.path.exists(target_path)], which tries
    [name_1.ext], [name_2.ext], ... until a path is free.  [fuel] bounds
    the number of names tried; [None] when it runs out. *)
Fixpoint find_target (fuel : nat) (target_dir filename target_path : string)
    (counter : Z) : M (option string) :=
  present <- os_path_exists target_path ;;
  if present : bool then
    match fuel with
    | O => ret None
    | S fuel' =>
        let '(name, ext) := Py.splitext filename in
        let target_path :=
          Py.path_join target_dir (name +:+ "_" +:+ Py.str counter +:+ ext) in
        find_target fuel' target_dir filename target_path (counter + 1)
    end
  else ret (Some target_path).

(** One iteration for a record.  [project_dir] is the directory
    [createFolders] was given: the attributes [photos_dir] and [videos_dir]
    it set are [photos_dir_of project_dir] and [videos_dir_of project_dir],
    and [months] is the list of month names.  Before [createFolders] has
    set [file_dates] the attribute is missing and Python raises on reading
    it; here the dictionary is empty and the lookup raises, also at the
    first record.  The result is the new [moved_count], or [None] when the
    fuel ran out. *)
Definition organize_one (fuel : nat) (project_dir : string)
    (moved_count : nat) (file_path : string) : M (option nat) :=
  dates <- get file_dates ;;
  file_date <- of_option (Py.dict_get dates file_path) KeyError ;;
  let year := year file_date in
  month <- of_option (Py.index months (month file_date - 1)) IndexError ;;
  let ext := ext_of file_path in
  let copy_into (kind_dir : string) : M (option nat) :=
    let target_dir := Py.path_join (Py.path_join kind_dir (Py.str year)) month in
    let filename := os_path_basename file_path in
    let target_path := Py.path_join target_dir filename in
    target <- find_target fuel target_dir filename target_path 1 ;;
    match target with
    | Some target_path =>
        shutil_copy2 file_path target_path target_dir ;;
        ret (Some (S moved_count))
    | None => ret None
    end in
  if bool_decide (ext ∈ image_exts) then copy_into (photos_dir_of project_dir)
  else if bool_decide (ext ∈ video_exts) then copy_into (videos_dir_of project_dir)
  else ret (Some moved_count).

Definition organize_step (fuel : nat) (project_dir : string)
    (moved_count : option nat) (file_path : string) : M (option nat) :=
  match moved_count with
  | Some moved_count => organize_one fuel project_dir moved_count file_path
  | None => ret None
  end.

(** The method, after the key press it waits for.  The result is the
    number of copies that the last line prints. *)
Definition organizeMemories (fuel : nat) (project_dir : string) : M (option nat) :=
  paths <- get founded_paths ;;
  for_each paths (organize_step fuel project_dir) (Some O).

(** ** Vocabulary of the further properties *)

(** The state of the rule after the indices below [m]: a kept index is
    below [m]; a deleted index is alike to a kept one before it; an index
    after a kept one is deleted or not alike to it. *)
Definition rule_inv (threshold : Q) (fingerprints : list ImageHash)
    (m : nat) (R : gmap nat Verdict) : Prop :=
  (∀ k, R !! k = Some Kept → (k < m)%nat)
  ∧ (∀ k, is_Some (R !! k) → (k < length fingerprints)%nat)
  ∧ (∀ j, R !! j = Some Deleted →
          ∃ i, (i < j)%nat ∧ R !! i = Some Kept
               ∧ similar threshold fingerprints i j = true)
  ∧ (∀ i j, R !! i = Some Kept → (i < j < length fingerprints)%nat →
            R !! j = Some Deleted ∨ similar threshold fingerprints i j = false).

(** The score of two fingerprints of [phash] that differ in [d] bits. *)
Definition score (d : nat) : Q :=
  ((1 - inject_Z (Z.of_nat d) / inject_Z 64) * 100)%Q.

(** ** Further example worlds *)

(** Two pictures with the same fingerprint around a video. *)
Definition world_twins : State :=
  world ["C:\in\a.jpg"; "C:\in\v.mp4"; "C:\in\b.jpg"]
        [("C:\in\a.jpg", picture (800, 600) 5 march_2023);
         ("C:\in\v.mp4", clip march_2023 (FfmpegExit 0 "") None);
         ("C:\in\b.jpg", picture (800, 600) 5 january_2024)].

(** The character [c] does not occur in [s]. *)
Fixpoint char_free (c : ascii) (s : string) : bool :=
  match s with
  | EmptyString => true
  | String a s' => negb (Ascii.eqb a c) && char_free c s'
  end.

(** What a conversion of the record at [p] with output path [np] leaves of
    a state: the records; every file but those at [p] and [np]; no file but
    the one at [p] disappears, and the file at [p] is as it was or gone. *)
Definition conversion_frame (p np : string) (st st' : State) : Prop :=
  founded_paths st' = founded_paths st
  ∧ (∀ x, x ≠ p → x ≠ np → disk st' !! x = disk st !! x)
  ∧ (∀ x, x ≠ p → is_Some (disk st !! x) → is_Some (disk st' !! x))
  ∧ (np ≠ p → disk st' !! p = None ∨ disk st' !! p = disk st !! p).

(** The number of records whose path [convertTypes] changed. *)
Definition changed (old new : list string) : nat :=
  length (filter (λ pn, pn.1 ≠ pn.2) (zip old new)).

(** The part of one iteration of [checkQuality] that sets [should_remove]. *)
Definition quality_test (min_image_size min_video_size : Z * Z)
    (file_path : string) : M bool :=
  let ext := ext_of file_path in
  if bool_decide (ext ∈ image_exts) then
    img <- Image_open file_path ;;
    let '(width, height) := img_size img in
    ret ((width <? min_image_size.1) || (height <? min_image_size.2))
  else if bool_decide (ext ∈ video_exts) then
    result <- run_ffprobe file_path ;;
    low_quality_video min_video_size result
  else ret false.

(** What that test answers for [p] in a state: [should_remove], or the
    exception it raises. *)
Definition low_quality (min_image_size min_video_size : Z * Z)
    (st : State) (p : string) : Result bool :=
  (quality_test min_image_size min_video_size p st).1.

(** [checkQuality] rejects [p] and can delete its file. *)
Definition removed_by_quality (min_image_size min_video_size : Z * Z)
    (st : State) (p : string) : bool :=
  match low_quality min_image_size min_video_size st p with
  | Ok true => deletable st p
  | _ => false
  end.

(** The first video stream ffprobe reports for [p], if it exits with 0. *)
Definition probed_stream (st : State) (p : string) : option (option Stream) :=
  match disk st !! p with
  | Some f =>
      match f_probe f with
      | ProbeExit 0 (Some streams) =>
          Some (List.find (λ s, String.eqb (codec_type s) "video") streams)
      | _ => None
      end
  | None => None
  end.

(** Pictures of 800 x 600, 600 x 400 and 599 x 400, a 1920 x 1080 video,
    and a video file ffprobe cannot analyse. *)
Definition world_quality : State :=
  world ["C:\in\big.jpg"; "C:\in\edge.jpg"; "C:\in\small.jpg";
         "C:\in\v.mp4"; "C:\in\x.mp4"]
        [("C:\in\big.jpg", still (800, 600) 1 march_2023);
         ("C:\in\edge.jpg", still (600, 400) 2 march_2023);
         ("C:\in\small.jpg", still (599, 400) 3 march_2023);
         ("C:\in\v.mp4", clip march_2023 (FfmpegExit 0 "") None);
         ("C:\in\x.mp4", opaque_file 5000)].

(** The [counter]-th name the loop of [organizeMemories] tries for
    [filename] in [target_dir]. *)
Definition numbered_target (target_dir filename : string) (counter : Z) : string :=
  Py.path_join target_dir
    ((Py.splitext filename).1 +:+ "_" +:+ Py.str counter +:+ (Py.splitext filename).2).

(** What an iteration of [organizeMemories] keeps of a state: every file
    that was on disk, the records, the folders, the dates and the output;
    at most one file is added. *)
Definition grows (st st' : State) : Prop :=
  disk st ⊆ disk st' ∧ founded_paths st' = founded_paths st
  ∧ made_dirs st' = made_dirs st ∧ file_dates st' = file_dates st
  ∧ stdout st' = stdout st ∧ (size (disk st') <= S (size (disk st)))%nat.

(** The folder of the kind of [p]. *)
Definition kind_dir_of (project_dir p : string) : string :=
  if is_image p then photos_dir_of project_dir else videos_dir_of project_dir.

(** [target] is a place [organizeMemories] can give to the copy of the
    record [p] with file [f]: in the month folder of its kind and date,
    under its own name or a numbered one. *)
Definition copy_of (project_dir p : string) (f : File) (target : string) : Prop :=
  let target_dir :=
    month_dir (kind_dir_of project_dir p) (year (f_date f)) (month (f_date f)) in
  target = Py.path_join target_dir (os_path_basename p)
  ∨ ∃ k, 1 <= k ∧ target = numbered_target target_dir (os_path_basename p) k.

(** Two records, and a file beside them that is no record. *)
Definition world_bystander : State :=
  world ["C:\in\a.webp"; "C:\in\small.jpg"]
        [("C:\in\a.webp", picture (800, 600) 0 march_2023);
         ("C:\in\small.jpg", still (100, 100) 9 march_2023);
         ("C:\in\notes.txt", opaque_file 10)].

(** The same WEBP picture listed twice. *)
Definition world_listed_twice : State :=
  world ["C:\in\a.webp"; "C:\in\a.webp"]
        [("C:\in\a.webp", picture (800, 600) 0 march_2023)].

(** An AVI clip listed twice, on which ffmpeg exits with 0 and writes
    nothing, around a MOV clip with the same stem that converts. *)
Definition world_same_output : State :=
  world ["C:\in\a.avi"; "C:\in\a.mov"; "C:\in\a.avi"]
        [("C:\in\a.avi", clip march_2023 (FfmpegExit 0 "") None);
         ("C:\in\a.mov",
          clip march_2023 (FfmpegExit 0 "")
            (Some (clip march_2023 (FfmpegExit 0 "") None)))].
(** * Properties *)

(** ** Python strings and paths *)

Example splitext_photo : Py.splitext "C:\pics\IMG.01.JPG" = ("C:\pics\IMG.01", ".JPG").
Proof. reflexivity. Qed.

Example splitext_dotfile : Py.splitext "C:\pics.d\.hidden" = ("C:\pics.d\.hidden", "").
Proof. reflexivity. Qed.

Example lower_ext : Py.lower ".JPG" = ".jpg".
Proof. reflexivity. Qed.

Example join_plain : Py.path_join "C:\proj" "Memories" = "C:\proj\Memories".
Proof. reflexivity. Qed.

Example join_root : Py.path_join "C:\" "Memories" = "C:\Memories".
Proof. reflexivity. Qed.

Example str_of_2023 : Py.str 2023 = "2023".
Proof. reflexivity. Qed.

Lemma append_String c a b : String c a +:+ b = String c (a +:+ b).
Proof. reflexivity. Qed.

Lemma append_assoc a b c : (a +:+ b) +:+ c = a +:+ (b +:+ c).
Proof.
  induction a as [|x a IH]; [done|]. by rewrite !append_String, IH.
Qed.

Lemma append_nil_r s : s +:+ "" = s.
Proof. induction s as [|c s IH]; [done|]. by rewrite append_String, IH. Qed.

Lemma append_nonempty a b : b ≠ "" → a +:+ b ≠ "".
Proof. destruct a; [done|]. by rewrite append_String. Qed.

Lemma ends_with_sep_app a b :
  b ≠ "" → Py.ends_with_sep (a +:+ b) = Py.ends_with_sep b.
Proof.
  intros Hb. induction a as [|x a IH]; [done|].
  rewrite append_String. cbn [Py.ends_with_sep].
  destruct (a +:+ b) eqn:Hab; [|done].
  by apply append_nonempty in Hab.
Qed.

Lemma sep_free_ends s : sep_free s = true → Py.ends_with_sep s = false.
Proof.
  induction s as [|c s IH]; [done|]. cbn [sep_free Py.ends_with_sep].
  intros [[Hc1 Hc2]%andb_true_iff Hs]%andb_true_iff.
  destruct s; [|by apply IH].
  apply negb_true_iff in Hc1, Hc2. by rewrite Hc1, Hc2.
Qed.

Lemma path_join_plain a b :
  a ≠ "" → Py.ends_with_sep a = false → Py.path_join a b = a +:+ String "\" b.
Proof. unfold Py.path_join. destruct a; [done|]. by intros _ ->. Qed.

Lemma path_join_nonempty a b : b ≠ "" → Py.path_join a b ≠ "".
Proof.
  intros Hb. unfold Py.path_join. destruct a as [|c a]; [done|].
  by destruct (Py.ends_with_sep _).
Qed.

Lemma path_join_ends a b :
  b ≠ "" → Py.ends_with_sep (Py.path_join a b) = Py.ends_with_sep b.
Proof.
  intros Hb. unfold Py.path_join. destruct a as [|c a]; [done|].
  destruct (Py.ends_with_sep (String c a)).
  - by apply ends_with_sep_app.
  - rewrite ends_with_sep_app by done. by destruct b.
Qed.

(** Where the first backslash is decides both sides of it. *)
Lemma split_unique a a' b b' :
  sep_free a = true → sep_free a' = true →
  a +:+ String "\" b = a' +:+ String "\" b' → a = a' ∧ b = b'.
Proof.
  revert a'. induction a as [|c a IH]; intros [|c' a'] Ha Ha'.
  - by intros [= ->].
  - rewrite append_String. intros [= <- _]. by cbn in Ha'.
  - rewrite append_String. intros [= -> _]. by cbn in Ha.
  - rewrite !append_String. intros [= -> Heq].
    cbn [sep_free] in Ha, Ha'.
    apply andb_true_iff in Ha as [_ Ha]. apply andb_true_iff in Ha' as [_ Ha'].
    destruct (IH a' Ha Ha' Heq) as [-> ->]. done.
Qed.

Lemma sep_free_no_split a a' b :
  sep_free a' = true → a +:+ String "\" b ≠ a'.
Proof.
  revert a'. induction a as [|c a IH]; intros a' Ha' Heq.
  - subst a'. by cbn in Ha'.
  - destruct a' as [|c' a']; [done|]. rewrite append_String in Heq.
    injection Heq as -> Heq. cbn [sep_free] in Ha'.
    apply andb_true_iff in Ha' as [_ Ha']. by eapply IH.
Qed.

Lemma pretty_N_go_sep_free x : ∀ s,
  sep_free s = true → sep_free (pretty_N_go x s) = true.
Proof.
  induction (N.lt_wf_0 x) as [x _ IH]; intros s Hs.
  destruct (decide (x = 0)%N) as [->|Hx]; [by rewrite pretty_N_go_0|].
  rewrite pretty_N_go_step by lia. apply IH; [apply N.div_lt; lia|].
  cbn [sep_free]. rewrite Hs.
  assert (Hd : (x `mod` 10 < 10)%N) by (apply N.mod_lt; lia).
  destruct (x `mod` 10)%N as [|d]; [done|].
  do 4 (destruct d as [d|d|]; try done).
Qed.

Lemma pretty_N_go_nonempty x : ∀ s, s ≠ "" → pretty_N_go x s ≠ "".
Proof.
  induction (N.lt_wf_0 x) as [x _ IH]; intros s Hs.
  destruct (decide (x = 0)%N) as [->|Hx]; [by rewrite pretty_N_go_0|].
  rewrite pretty_N_go_step by lia. apply IH; [apply N.div_lt; lia|done].
Qed.

(** [str(y)] of a year is a non-empty run of digits. *)
Lemma str_year y :
  0 <= y → sep_free (Py.str y) = true ∧ Py.str y ≠ "".
Proof.
  intros Hy. unfold Py.str, pretty, pretty_Z.
  destruct y as [|y|y]; [done| |lia].
  unfold pretty, pretty_positive, pretty, pretty_N.
  rewrite decide_False by done. split.
  - by apply pretty_N_go_sep_free.
  - rewrite pretty_N_go_step by lia. by apply pretty_N_go_nonempty.
Qed.

Lemma str_inj y y' : Py.str y = Py.str y' → y = y'.
Proof. apply pretty_Z_inj. Qed.

(** The twelve names are non-empty, free of separators, and distinct. *)
Lemma month_name_facts m :
  1 <= m <= 12 → sep_free (month_name m) = true ∧ month_name m ≠ "".
Proof.
  intros Hm.
  assert (m = 1 ∨ m = 2 ∨ m = 3 ∨ m = 4 ∨ m = 5 ∨ m = 6 ∨ m = 7 ∨ m = 8
          ∨ m = 9 ∨ m = 10 ∨ m = 11 ∨ m = 12) as Hcases by lia.
  repeat destruct Hcases as [->|Hcases]; try subst m; by vm_compute.
Qed.

Lemma month_name_inj m m' :
  1 <= m <= 12 → 1 <= m' <= 12 → month_name m = month_name m' → m = m'.
Proof.
  intros Hm Hm'.
  assert (m = 1 ∨ m = 2 ∨ m = 3 ∨ m = 4 ∨ m = 5 ∨ m = 6 ∨ m = 7 ∨ m = 8
          ∨ m = 9 ∨ m = 10 ∨ m = 11 ∨ m = 12) as Hcases by lia.
  assert (m' = 1 ∨ m' = 2 ∨ m' = 3 ∨ m' = 4 ∨ m' = 5 ∨ m' = 6 ∨ m' = 7 ∨ m' = 8
          ∨ m' = 9 ∨ m' = 10 ∨ m' = 11 ∨ m' = 12) as Hcases' by lia.
  repeat destruct Hcases as [->|Hcases]; try subst m;
    repeat destruct Hcases' as [->|Hcases']; try subst m';
    (vm_compute; congruence).
Qed.

Lemma month_name_index m :
  1 <= m <= 12 → Py.index months (m - 1) = Some (month_name m).
Proof.
  intros Hm.
  assert (m = 1 ∨ m = 2 ∨ m = 3 ∨ m = 4 ∨ m = 5 ∨ m = 6 ∨ m = 7 ∨ m = 8
          ∨ m = 9 ∨ m = 10 ∨ m = 11 ∨ m = 12) as Hcases by lia.
  repeat destruct Hcases as [->|Hcases]; try subst m; by vm_compute.
Qed.

(** ** The monad *)

(** Unfolds the monad and the calls to the outside world. *)
Ltac run_monad :=
  cbv [bind ret raise try_except get modify print of_option of_result
       stat_file os_path_getsize os_remove os_path_exists write_file
       os_makedirs Image_open Image_save_png founded_paths_remove].

(** Closes the side condition of a [filter] rewrite from the value of the
    boolean it tests. *)
Ltac by_verdict H := cbn beta; rewrite H; cbn; first [done | tauto].

Lemma bind_ok {A B} (m : M A) (k : A → M B) st a st' :
  m st = (Ok a, st') → bind m k st = k a st'.
Proof. unfold bind. by intros ->. Qed.

Lemma bind_raise {A B} (m : M A) (k : A → M B) st e st' :
  m st = (Raise e, st') → bind m k st = (Raise e, st').
Proof. unfold bind. by intros ->. Qed.

Lemma for_each_app {A B} (body : B → A → M B) l1 l2 acc st :
  for_each (l1 ++ l2) body acc st =
  match for_each l1 body acc st with
  | (Ok acc', st') => for_each l2 body acc' st'
  | (Raise e, st') => (Raise e, st')
  end.
Proof.
  revert acc st. induction l1 as [|x l1 IH]; intros acc st; simpl; [done|].
  unfold bind. destruct (body acc x st) as [[acc'|e] st']; [apply IH|done].
Qed.

(** A property of the state that every iteration keeps, whether it returns
    or raises, holds when the loop stops. *)
Lemma for_each_invariant {A B} (I : State → Prop) (body : B → A → M B) l :
  (∀ acc x st, x ∈ l → I st → I (body acc x st).2) →
  ∀ acc st, I st → I (for_each l body acc st).2.
Proof.
  induction l as [|x l IH]; intros Hbody acc st HI; simpl; [done|].
  unfold bind.
  pose proof (Hbody acc x st ltac:(left) HI) as H1.
  destruct (body acc x st) as [[acc'|e] st']; simpl in *; [|done].
  apply IH; [|done]. intros ? ? ? ?. apply Hbody. by right.
Qed.

Lemma for_each_ok_invariant {A B} (P : B → State → Prop) (body : B → A → M B) l :
  (∀ acc x st acc' st', x ∈ l → P acc st →
     body acc x st = (Ok acc', st') → P acc' st') →
  ∀ acc st r st', P acc st → for_each l body acc st = (Ok r, st') → P r st'.
Proof.
  induction l as [|x l IH]; intros Hbody acc st r st' HP; simpl.
  { by intros [= <- <-]. }
  unfold bind. destruct (body acc x st) as [[acc1|e] st1] eqn:Hstep; [|done].
  apply IH.
  - intros ? ? ? ? ? ?. apply Hbody. by right.
  - eapply Hbody; [by left|done|done].
Qed.

(** ** Lists and dictionaries *)

Lemma list_remove_sublist x l l' : Py.list_remove x l = Some l' → l' `sublist_of` l.
Proof.
  revert l'. induction l as [|y l IH]; intros l'; simpl; [done|].
  destruct (String.eqb y x).
  - intros [= <-]. by apply sublist_cons.
  - destruct (Py.list_remove x l) as [l''|]; simpl; [|done].
    intros [= <-]. apply sublist_skip. by apply IH.
Qed.

Lemma list_remove_fresh_prefix x pre l :
  x ∉ pre → Py.list_remove x (pre ++ x :: l) = Some (pre ++ l).
Proof.
  induction pre as [|y pre IH]; intros Hx; simpl.
  - by rewrite String.eqb_refl.
  - apply not_elem_of_cons in Hx as [Hne Hx].
    destruct (String.eqb_spec y x) as [->|_]; [done|].
    by rewrite IH.
Qed.

Lemma list_remove_other x p l l' :
  Py.list_remove x l = Some l' → p ≠ x → p ∈ l → p ∈ l'.
Proof.
  revert l'. induction l as [|y l IH]; intros l'; simpl; [done|].
  destruct (String.eqb_spec y x) as [->|Hy].
  - intros [= <-] Hp Hin. apply elem_of_cons in Hin as [?|?]; [done|done].
  - destruct (Py.list_remove x l) as [l''|]; simpl; [|done].
    intros [= <-] Hp Hin. apply elem_of_cons in Hin as [->|Hin]; [by left|].
    right. by apply IH.
Qed.

Lemma filter_ext_elem {A} (P Q : A → Prop)
    `{!∀ x, Decision (P x)} `{!∀ x, Decision (Q x)} (l : list A) :
  (∀ x, x ∈ l → P x ↔ Q x) → filter P l = filter Q l.
Proof.
  induction l as [|x l IH]; intros Hl; [done|].
  rewrite !filter_cons.
  destruct (decide (P x)) as [HP|HP], (decide (Q x)) as [HQ|HQ].
  - f_equal. apply IH. intros y Hy. apply Hl. by right.
  - exfalso. apply HQ, Hl; [by left|done].
  - exfalso. apply HP, Hl; [by left|done].
  - apply IH. intros y Hy. apply Hl. by right.
Qed.

Lemma bind_sublist_pointwise {A B} (f g : A → list B) (l : list A) :
  (∀ x, f x `sublist_of` g x) → (l ≫= f) `sublist_of` (l ≫= g).
Proof.
  intros Hfg. induction l as [|x l IH]; [done|].
  simpl. by apply sublist_app.
Qed.

Lemma dict_set_keys {V} (d : list (string * V)) k v :
  Py.dict_keys (Py.dict_set d k v)
  = if bool_decide (k ∈ Py.dict_keys d) then Py.dict_keys d
    else Py.dict_keys d ++ [k].
Proof.
  unfold Py.dict_keys. induction d as [|[k' v'] d IH]; [done|].
  cbn [Py.dict_set]. destruct (String.eqb_spec k' k) as [->|Hne].
  - rewrite !fmap_cons. cbn [fst].
    by rewrite bool_decide_eq_true_2 by (by left).
  - rewrite !fmap_cons, IH. cbn [fst]. case_bool_decide as Hin.
    + by rewrite bool_decide_eq_true_2 by (by right).
    + rewrite bool_decide_eq_false_2; [done|].
      intros [?|?]%elem_of_cons; congruence.
Qed.

Lemma dict_set_NoDup {V} (d : list (string * V)) k v :
  NoDup (Py.dict_keys d) → NoDup (Py.dict_keys (Py.dict_set d k v)).
Proof.
  intros Hnd. rewrite dict_set_keys. case_bool_decide; [done|].
  apply NoDup_app. split_and!; [done| |apply NoDup_singleton].
  intros x Hx ->%list_elem_of_singleton. done.
Qed.

Lemma dict_set_values {V} (P : V → Prop) (d : list (string * V)) k v :
  Forall (λ kv, P kv.2) d → P v → Forall (λ kv, P kv.2) (Py.dict_set d k v).
Proof.
  intros Hd Hv. induction d as [|[k' v'] d IH]; simpl.
  { by repeat constructor. }
  apply Forall_cons in Hd as [Hv' Hd].
  destruct (String.eqb k' k); constructor; auto.
Qed.

Lemma dict_set_entries {V} (P : string → V → Prop) (d : list (string * V)) k v :
  Forall (λ kv, P kv.1 kv.2) d → P k v →
  Forall (λ kv, P kv.1 kv.2) (Py.dict_set d k v).
Proof.
  intros Hd Hv. induction d as [|[k' v'] d IH]; simpl.
  { by repeat constructor. }
  apply Forall_cons in Hd as [Hv' Hd].
  destruct (String.eqb_spec k' k) as [->|_]; constructor; auto.
Qed.

Lemma dict_get_lookup {V} (d : list (string * V)) j k v :
  NoDup (Py.dict_keys d) → d !! j = Some (k, v) → Py.dict_get d k = Some v.
Proof.
  unfold Py.dict_keys. revert j. induction d as [|[k' v'] d IH]; intros j Hnd Hj.
  { done. }
  simpl in Hnd. apply NoDup_cons in Hnd as [Hk' Hnd]. simpl.
  destruct j as [|j]; simpl in Hj.
  - injection Hj as -> ->. by rewrite String.eqb_refl.
  - destruct (String.eqb_spec k' k) as [->|_]; [|by eapply IH].
    exfalso. apply Hk'. apply list_elem_of_fmap. exists (k, v).
    split; [done|]. by eapply list_elem_of_lookup_2.
Qed.

Lemma elem_of_sorted (s : gset Z) x : x ∈ sorted s ↔ x ∈ s.
Proof. unfold sorted. by rewrite merge_sort_Permutation, elem_of_elements. Qed.

(** ** Calls to the file system *)

Lemma getsize_try st p :
  try_except (s <- os_path_getsize p ;; ret (Some s)) (λ _, ret None) st
  = (Ok (size_on_disk st p), st).
Proof.
  unfold size_on_disk. run_monad.
  destruct (disk st !! p) as [f|]; simpl; [|done].
  by destruct (f_size f).
Qed.

Lemma os_remove_fails st p :
  deletable st p = false → os_remove p st = (Raise (remove_error st p), st).
Proof.
  unfold deletable, remove_error. run_monad.
  destruct (disk st !! p) as [f|]; simpl; [|done]. by intros ->.
Qed.

Lemma os_remove_succeeds st p :
  deletable st p = true →
  os_remove p st = (Ok tt, set_disk (delete p (disk st)) st).
Proof.
  unfold deletable. run_monad.
  destruct (disk st !! p) as [f|]; simpl; [|done]. by intros ->.
Qed.

(** ** [collectFiles] *)

Lemma collect_dir_paths root files st :
  ∃ st',
    for_each files (collect_file root) tt st = (Ok tt, st')
    ∧ founded_paths st'
      = founded_paths st
        ++ (Py.path_join root
              <$> filter (λ file, Py.lower (Py.splitext file).2 ∈ valid_exts) files).
Proof.
  revert st. induction files as [|file files IH]; intros st.
  { exists st. by rewrite app_nil_r. }
  simpl for_each. unfold bind, collect_file at 1.
  rewrite filter_cons. case_bool_decide as Hext.
  - cbv [modify]. rewrite decide_True by done.
    destruct (IH (set_founded_paths (founded_paths st ++ [Py.path_join root file]) st))
      as (st' & -> & Hfp).
    exists st'. split; [done|]. rewrite Hfp. simpl. by rewrite <- app_assoc.
  - cbv [ret]. rewrite decide_False by done. apply IH.
Qed.

Lemma collectFiles_paths walk st :
  ∃ st',
    collectFiles walk st = (Ok tt, st')
    ∧ founded_paths st'
      = founded_paths st
        ++ (walk ≫= λ entry,
              Py.path_join entry.1
                <$> filter (λ file, Py.lower (Py.splitext file).2 ∈ valid_exts)
                      entry.2).
Proof.
  assert (Hloop : ∀ walk st, ∃ st',
    for_each walk collect_dir tt st = (Ok tt, st')
    ∧ founded_paths st'
      = founded_paths st
        ++ (walk ≫= λ entry,
              Py.path_join entry.1
                <$> filter (λ file, Py.lower (Py.splitext file).2 ∈ valid_exts)
                      entry.2)).
  { clear. induction walk as [|[root files] walk IH]; intros st.
    { exists st. by rewrite app_nil_r. }
    simpl for_each. unfold bind.
    destruct (collect_dir_paths root files st) as (st1 & -> & Hfp1).
    destruct (IH st1) as (st' & -> & Hfp).
    exists st'. split; [done|]. rewrite Hfp, Hfp1. simpl.
    by rewrite <- app_assoc. }
  destruct (Hloop walk st) as (st1 & Hrun & Hfp).
  eexists. split.
  - unfold collectFiles. cbv [bind get print modify]. rewrite Hrun. reflexivity.
  - done.
Qed.

Lemma collectFiles_NoDup walk st :
  founded_paths st = [] → NoDup (walk_paths walk) →
  NoDup (founded_paths (collectFiles walk st).2).
Proof.
  intros Hempty Hnd.
  destruct (collectFiles_paths walk st) as (st' & Hrun & Hfp).
  rewrite Hrun. simpl. rewrite Hfp, Hempty. simpl.
  eapply sublist_NoDup; [exact Hnd|].
  apply bind_sublist_pointwise. intros [root files]. simpl.
  apply fmap_sublist, sublist_filter.
Qed.

Example collectFiles_on_walk_example :
  founded_paths (collectFiles walk_example (world [] [])).2
  = ["C:\in\a.JPG"; "C:\in\b.mov"; "C:\in\sub\a.JPG"].
Proof. vm_compute. reflexivity. Qed.

(** ** [removeLargeFiles] *)

Section SizeFilter.
Variables max_image_bytes max_video_bytes : Z.

Local Abbreviation step := (removeLargeFiles_step max_image_bytes max_video_bytes).
Local Abbreviation rejected := (rejected_by_size max_image_bytes max_video_bytes).

Lemma step_keep removed p st :
  rejected st p = false → step removed p st = (Ok removed, st).
Proof.
  intros H. unfold removeLargeFiles_step.
  rewrite (bind_ok _ _ _ _ _ (getsize_try st p)).
  unfold rejected_by_size in H. by rewrite H.
Qed.

Lemma step_fail removed p st :
  rejected st p = true → deletable st p = false →
  step removed p st
  = (Ok removed, add_msg (MsgFailedRemoveLarge p (remove_error st p)) st).
Proof.
  intros H Hd. unfold removeLargeFiles_step.
  rewrite (bind_ok _ _ _ _ _ (getsize_try st p)).
  unfold rejected_by_size in H. rewrite H.
  unfold try_except at 1, bind at 1 2.
  by rewrite (os_remove_fails _ _ Hd).
Qed.

Lemma step_delete removed p st l' :
  rejected st p = true → deletable st p = true →
  Py.list_remove p (founded_paths st) = Some l' →
  step removed p st
  = (Ok (removed ++ [p]), set_founded_paths l' (set_disk (delete p (disk st)) st)).
Proof.
  intros H Hd Hl. unfold removeLargeFiles_step.
  rewrite (bind_ok _ _ _ _ _ (getsize_try st p)).
  unfold rejected_by_size in H. rewrite H.
  unfold try_except at 1, bind at 1 2.
  rewrite (os_remove_succeeds _ _ Hd). simpl.
  run_monad. simpl. by rewrite Hl.
Qed.

Local Abbreviation removed_here := (removed_by_size max_image_bytes max_video_bytes).

Lemma size_verdict_local st st' q :
  disk st' !! q = disk st !! q →
  rejected st' q = rejected st q ∧ deletable st' q = deletable st q
  ∧ remove_error st' q = remove_error st q ∧ removed_here st' q = removed_here st q.
Proof.
  intros H.
  unfold removed_by_size, rejected_by_size, size_on_disk, deletable, remove_error.
  by rewrite H.
Qed.

(** The loop of [removeLargeFiles] over the part [l] of the snapshot that is
    still to be visited; [pre] is what was visited and kept. *)
Lemma removeLargeFiles_loop l : ∀ pre removed st,
  founded_paths st = pre ++ l → NoDup (pre ++ l) →
  ∃ st',
    for_each l step removed st
      = (Ok (removed ++ filter (λ p, removed_here st p) l), st')
    ∧ founded_paths st' = pre ++ filter (λ p, negb (removed_here st p)) l
    ∧ (∀ q, disk st' !! q
            = if bool_decide (q ∈ l) && removed_here st q then None
              else disk st !! q)
    ∧ (∀ q, q ∈ l → rejected st q = true → deletable st q = false →
            MsgFailedRemoveLarge q (remove_error st q) ∈ stdout st')
    ∧ (∀ m, m ∈ stdout st → m ∈ stdout st').
Proof.
  induction l as [|p l IH]; intros pre removed st Hfp Hnd.
  { exists st. simpl. rewrite !app_nil_r. rewrite app_nil_r in Hfp.
    repeat split; try done. by intros q ?%elem_of_nil. }
  assert (Hp : (p ∉ pre) ∧ (p ∉ l)).
  { apply NoDup_app in Hnd as (_ & Hpre & Hl). apply NoDup_cons in Hl as [Hl _].
    split; [|done]. intros Hin. apply (Hpre p Hin). by left. }
  destruct Hp as [Hp_pre Hp_l].
  assert (Hother : ∀ q, q ∈ l → q ≠ p) by (intros q Hq ->; done).
  simpl for_each.
  destruct (rejected st p) eqn:Hrej; [destruct (deletable st p) eqn:Hdel|].
  - (* rejected and deleted *)
    rewrite (bind_ok _ _ _ _ _
      (step_delete removed p st (pre ++ l) Hrej Hdel
         ltac:(rewrite Hfp; by apply list_remove_fresh_prefix))).
    set (st1 := set_founded_paths (pre ++ l) (set_disk (delete p (disk st)) st)).
    assert (Hdisk1 : ∀ q, q ≠ p → disk st1 !! q = disk st !! q).
    { intros q Hq. simpl. by rewrite lookup_delete_ne. }
    destruct (IH pre (removed ++ [p]) st1) as (st' & Hrun & Hfp' & Hdisk' & Hmsg' & Hout').
    { done. }
    { apply NoDup_app in Hnd as (H1 & H2 & H3). apply NoDup_app. split_and!; [done| |].
      - intros x Hx Hxl. apply (H2 x Hx). by right.
      - by apply NoDup_cons in H3 as [_ H3]. }
    assert (Hrm : removed_here st p = true)
      by (unfold removed_by_size; by rewrite Hrej, Hdel).
    exists st'. split_and!.
    + rewrite Hrun. do 2 f_equal.
      rewrite filter_cons_True by (by_verdict Hrm).
      rewrite <- app_assoc. simpl. do 2 f_equal.
      apply filter_ext_elem. intros q Hq.
      by destruct (size_verdict_local st st1 q (Hdisk1 q (Hother q Hq))) as (_ & _ & _ & ->).
    + rewrite Hfp'. f_equal.
      rewrite filter_cons_False by (by_verdict Hrm).
      apply filter_ext_elem. intros q Hq.
      by destruct (size_verdict_local st st1 q (Hdisk1 q (Hother q Hq))) as (_ & _ & _ & ->).
    + intros q. rewrite Hdisk'. destruct (decide (q = p)) as [->|Hq].
      * rewrite (bool_decide_eq_false_2 _ Hp_l). simpl.
        rewrite lookup_delete_eq.
        rewrite bool_decide_eq_true_2 by (by left). by rewrite Hrm.
      * destruct (size_verdict_local st st1 q (Hdisk1 q Hq)) as (_ & _ & _ & ->).
        rewrite (Hdisk1 q Hq).
        replace (bool_decide (q ∈ p :: l)) with (bool_decide (q ∈ l)); [done|].
        apply bool_decide_ext. rewrite elem_of_cons. naive_solver.
    + intros q Hq Hr Hd. apply elem_of_cons in Hq as [->|Hq]; [congruence|].
      destruct (size_verdict_local st st1 q (Hdisk1 q (Hother q Hq))) as (E1 & E2 & E3 & _).
      rewrite <- E3. apply Hmsg'; [done|by rewrite E1|by rewrite E2].
    + intros m Hm. by apply Hout'.
  - (* rejected, the deletion fails *)
    rewrite (bind_ok _ _ _ _ _ (step_fail removed p st Hrej Hdel)).
    set (st1 := add_msg (MsgFailedRemoveLarge p (remove_error st p)) st).
    assert (Hdisk1 : ∀ q, disk st1 !! q = disk st !! q) by done.
    destruct (IH (pre ++ [p]) removed st1) as (st' & Hrun & Hfp' & Hdisk' & Hmsg' & Hout').
    { simpl. by rewrite Hfp, <- app_assoc. }
    { by rewrite <- app_assoc. }
    assert (Hrm : removed_here st p = false)
      by (unfold removed_by_size; by rewrite Hrej, Hdel).
    exists st'. split_and!.
    + rewrite Hrun. do 2 f_equal.
      by rewrite filter_cons_False by (by_verdict Hrm).
    + rewrite Hfp', <- app_assoc. f_equal.
      by rewrite filter_cons_True by (by_verdict Hrm).
    + intros q. rewrite Hdisk'.
      destruct (size_verdict_local st st1 q (Hdisk1 q)) as (_ & _ & _ & ->).
      rewrite (Hdisk1 q). destruct (decide (q = p)) as [->|Hq].
      * rewrite Hrm. by rewrite !andb_false_r.
      * replace (bool_decide (q ∈ p :: l)) with (bool_decide (q ∈ l)); [done|].
        apply bool_decide_ext. rewrite elem_of_cons. naive_solver.
    + intros q Hq Hr Hd. apply elem_of_cons in Hq as [->|Hq].
      * apply Hout'. simpl. set_solver.
      * destruct (size_verdict_local st st1 q (Hdisk1 q)) as (E1 & E2 & E3 & _).
        rewrite <- E3. apply Hmsg'; [done|by rewrite E1|by rewrite E2].
    + intros m Hm. apply Hout'. simpl. set_solver.
  - (* kept *)
    rewrite (bind_ok _ _ _ _ _ (step_keep removed p st Hrej)).
    destruct (IH (pre ++ [p]) removed st) as (st' & Hrun & Hfp' & Hdisk' & Hmsg' & Hout').
    { by rewrite Hfp, <- app_assoc. }
    { by rewrite <- app_assoc. }
    assert (Hrm : removed_here st p = false)
      by (unfold removed_by_size; by rewrite Hrej).
    exists st'. split_and!.
    + rewrite Hrun. do 2 f_equal. by rewrite filter_cons_False by (by_verdict Hrm).
    + rewrite Hfp', <- app_assoc. f_equal.
      by rewrite filter_cons_True by (by_verdict Hrm).
    + intros q. rewrite Hdisk'. destruct (decide (q = p)) as [->|Hq].
      * rewrite Hrm. by rewrite !andb_false_r.
      * replace (bool_decide (q ∈ p :: l)) with (bool_decide (q ∈ l)); [done|].
        apply bool_decide_ext. rewrite elem_of_cons. naive_solver.
    + intros q Hq Hr Hd. apply elem_of_cons in Hq as [->|Hq]; [congruence|].
      by apply Hmsg'.
    + done.
Qed.

(** The whole stage on a duplicate-free list: it returns, the records it
    drops are those it rejects and manages to delete, and each failed
    deletion is printed. *)
Lemma removeLargeFiles_run st :
  NoDup (founded_paths st) →
  ∃ st',
    removeLargeFiles max_image_bytes max_video_bytes st = (Ok tt, st')
    ∧ founded_paths st'
      = filter (λ p, negb (removed_here st p)) (founded_paths st)
    ∧ (∀ q, disk st' !! q
            = if bool_decide (q ∈ founded_paths st) && removed_here st q
              then None else disk st !! q)
    ∧ (∀ q, q ∈ founded_paths st → rejected st q = true →
            deletable st q = false →
            MsgFailedRemoveLarge q (remove_error st q) ∈ stdout st').
Proof.
  intros Hnd.
  destruct (removeLargeFiles_loop (founded_paths st) [] [] st eq_refl Hnd)
    as (st' & Hrun & Hfp & Hdisk & Hmsg & Hout).
  eexists. split_and!.
  - unfold removeLargeFiles. cbv [bind get]. rewrite Hrun. reflexivity.
  - done.
  - done.
  - intros q Hq Hr Hd. simpl. apply elem_of_app. left. by apply Hmsg.
Qed.

Lemma exts_disjoint e : e ∈ image_exts → e ∉ video_exts.
Proof. unfold image_exts, video_exts. set_solver. Qed.

Lemma at_ceiling_not_rejected st p s :
  size_on_disk st p = Some s →
  (is_image p = true → s <= max_image_bytes) →
  (is_video p = true → s <= max_video_bytes) →
  rejected st p = false.
Proof.
  intros Hs Hi Hv. unfold rejected_by_size, too_large. rewrite Hs.
  fold (is_image p) (is_video p).
  destruct (is_image p); [rewrite (proj2 (Z.ltb_ge _ _) (Hi eq_refl))|];
    (destruct (is_video p); [rewrite (proj2 (Z.ltb_ge _ _) (Hv eq_refl))|]); done.
Qed.

Lemma step_delete_unlisted removed p st :
  rejected st p = true → deletable st p = true →
  Py.list_remove p (founded_paths st) = None →
  step removed p st
  = (Ok (removed ++ [p]),
     add_msg (MsgFailedRemoveLarge p ValueError)
       (set_disk (delete p (disk st)) st)).
Proof.
  intros H Hd Hl. unfold removeLargeFiles_step.
  rewrite (bind_ok _ _ _ _ _ (getsize_try st p)).
  unfold rejected_by_size in H. rewrite H.
  unfold try_except at 1, bind at 1 2.
  rewrite (os_remove_succeeds _ _ Hd). simpl.
  run_monad. simpl. by rewrite Hl.
Qed.

(** One iteration never touches a record whose file cannot be deleted. *)
Lemma step_spares_undeletable removed q st p :
  deletable st p = false →
  ∃ removed' st',
    step removed q st = (Ok removed', st')
    ∧ disk st' !! p = disk st !! p
    ∧ (p ∈ founded_paths st → p ∈ founded_paths st')
    ∧ (∀ m, m ∈ stdout st → m ∈ stdout st')
    ∧ (q = p → rejected st p = true →
       MsgFailedRemoveLarge p (remove_error st p) ∈ stdout st').
Proof.
  intros Hp.
  destruct (rejected st q) eqn:Hrej; [destruct (deletable st q) eqn:Hdel|].
  - assert (Hne : p ≠ q) by congruence.
    destruct (Py.list_remove q (founded_paths st)) as [l'|] eqn:Hl.
    + rewrite (step_delete removed q st l' Hrej Hdel Hl).
      do 2 eexists. split; [done|]. simpl. split_and!.
      * by rewrite lookup_delete_ne.
      * by eapply list_remove_other.
      * done.
      * congruence.
    + rewrite (step_delete_unlisted removed q st Hrej Hdel Hl).
      do 2 eexists. split; [done|]. simpl. split_and!.
      * by rewrite lookup_delete_ne.
      * done.
      * intros m Hm. apply elem_of_app. by left.
      * congruence.
  - rewrite (step_fail removed q st Hrej Hdel).
    do 2 eexists. split; [done|]. simpl. split_and!; [done|done| |].
    + intros m Hm. apply elem_of_app. by left.
    + intros -> _. apply elem_of_app. right. by left.
  - rewrite (step_keep removed q st Hrej).
    do 2 eexists. split; [done|]. split_and!; [done|done|done|].
    intros ->. congruence.
Qed.

(** The loop returns on every list, and a record whose file cannot be
    deleted is still there at the end. *)
Lemma loop_spares_undeletable l : ∀ removed st p,
  deletable st p = false →
  ∃ removed' st',
    for_each l step removed st = (Ok removed', st')
    ∧ disk st' !! p = disk st !! p
    ∧ (p ∈ founded_paths st → p ∈ founded_paths st')
    ∧ (∀ m, m ∈ stdout st → m ∈ stdout st')
    ∧ (p ∈ l → rejected st p = true →
       MsgFailedRemoveLarge p (remove_error st p) ∈ stdout st').
Proof.
  induction l as [|q l IH]; intros removed st p Hp.
  { do 2 eexists. split; [done|]. split_and!; try done. by intros ?%elem_of_nil. }
  destruct (step_spares_undeletable removed q st p Hp)
    as (removed1 & st1 & Hstep & Hdisk1 & Hfp1 & Hout1 & Hmsg1).
  destruct (size_verdict_local st st1 p Hdisk1) as (Erej & Edel & Eerr & _).
  destruct (IH removed1 st1 p ltac:(by rewrite Edel))
    as (removed' & st' & Hrun & Hdisk' & Hfp' & Hout' & Hmsg').
  exists removed', st'. split_and!.
  - simpl for_each. by rewrite (bind_ok _ _ _ _ _ Hstep).
  - by rewrite Hdisk'.
  - auto.
  - auto.
  - intros Hin Hrej. apply elem_of_cons in Hin as [->|Hin].
    + apply Hout', Hmsg1; done.
    + rewrite <- Eerr. apply Hmsg'; [done|by rewrite Erej].
Qed.

End SizeFilter.

(** C8, as stated, fails: an image one byte over the ceiling whose file is
    read-only is rejected, [os.remove] raises, and the record stays in
    [founded_paths] with its file on disk. *)
Lemma size_filter_keeps_undeletable_oversize :
  let p := "C:\pics\big.jpg" in
  let r := removeLargeFiles default_max_image_bytes default_max_video_bytes
             world_big_read_only in
  is_image p = true
  ∧ size_on_disk world_big_read_only p = Some (default_max_image_bytes + 1)
  ∧ r.1 = Ok tt
  ∧ founded_paths r.2 = [p]
  ∧ is_Some (disk r.2 !! p).
Proof. vm_compute. repeat split; eauto. Qed.

(** C8 (amended).  On a duplicate-free [founded_paths], [removeLargeFiles]
    returns and, for every record [p]:
    - a size exactly at the ceiling of its kind keeps [p], file untouched;
    - a size strictly over the ceiling of its kind, or a size that cannot be
      read, removes [p] from disk and from [founded_paths] provided
      [os.remove] succeeds on it. *)
Theorem size_filter_boundary (max_image_bytes max_video_bytes : Z) (st : State) :
  NoDup (founded_paths st) →
  ∃ st',
    removeLargeFiles max_image_bytes max_video_bytes st = (Ok tt, st')
    ∧ ∀ p, p ∈ founded_paths st →
        (is_image p = true → size_on_disk st p = Some max_image_bytes →
           p ∈ founded_paths st' ∧ disk st' !! p = disk st !! p)
      ∧ (is_video p = true → size_on_disk st p = Some max_video_bytes →
           p ∈ founded_paths st' ∧ disk st' !! p = disk st !! p)
      ∧ (∀ s, is_image p = true → size_on_disk st p = Some s →
           max_image_bytes < s → deletable st p = true →
           (p ∉ founded_paths st') ∧ disk st' !! p = None)
      ∧ (∀ s, is_video p = true → size_on_disk st p = Some s →
           max_video_bytes < s → deletable st p = true →
           (p ∉ founded_paths st') ∧ disk st' !! p = None)
      ∧ (size_on_disk st p = None → deletable st p = true →
           (p ∉ founded_paths st') ∧ disk st' !! p = None).
Proof.
  intros Hnd.
  destruct (removeLargeFiles_run max_image_bytes max_video_bytes st Hnd)
    as (st' & Hrun & Hfp & Hdisk & _).
  exists st'. split; [done|]. intros p Hp.
  assert (Hkeep : rejected_by_size max_image_bytes max_video_bytes st p = false →
                  p ∈ founded_paths st' ∧ disk st' !! p = disk st !! p).
  { intros Hr. rewrite Hfp, Hdisk, list_elem_of_filter.
    unfold removed_by_size. rewrite Hr. simpl. by rewrite andb_false_r. }
  assert (Hdrop : rejected_by_size max_image_bytes max_video_bytes st p = true →
                  deletable st p = true →
                  (p ∉ founded_paths st') ∧ disk st' !! p = None).
  { intros Hr Hd. rewrite Hfp, Hdisk, list_elem_of_filter.
    unfold removed_by_size. rewrite Hr, Hd.
    rewrite bool_decide_eq_true_2 by done. simpl. split; [tauto|done]. }
  split_and!.
  - intros Hi Hs. apply Hkeep.
    apply (at_ceiling_not_rejected _ _ _ _ _ Hs); [lia|].
    intros Hv. exfalso. unfold is_image, is_video in *.
    apply bool_decide_eq_true_1 in Hi, Hv. by apply (exts_disjoint _ Hi).
  - intros Hv Hs. apply Hkeep.
    apply (at_ceiling_not_rejected _ _ _ _ _ Hs); [|lia].
    intros Hi. exfalso. unfold is_image, is_video in *.
    apply bool_decide_eq_true_1 in Hi, Hv. by apply (exts_disjoint _ Hi).
  - intros s Hi Hs Hlt. apply Hdrop.
    unfold rejected_by_size, too_large. rewrite Hs.
    fold (is_image p). rewrite Hi. by rewrite (proj2 (Z.ltb_lt _ _) Hlt).
  - intros s Hv Hs Hlt. apply Hdrop.
    unfold rejected_by_size, too_large. rewrite Hs.
    fold (is_image p) (is_video p). rewrite Hv.
    rewrite (proj2 (Z.ltb_lt _ _) Hlt). by destruct (_ && _).
  - intros Hs. apply Hdrop. unfold rejected_by_size, too_large. by rewrite Hs.
Qed.

Lemma size_filter_boundary_witness :
  ∃ st',
    removeLargeFiles default_max_image_bytes default_max_video_bytes world_sizes
      = (Ok tt, st')
    ∧ ∀ p, p ∈ founded_paths world_sizes →
        (is_image p = true →
         size_on_disk world_sizes p = Some default_max_image_bytes →
           p ∈ founded_paths st' ∧ disk st' !! p = disk world_sizes !! p)
      ∧ (is_video p = true →
         size_on_disk world_sizes p = Some default_max_video_bytes →
           p ∈ founded_paths st' ∧ disk st' !! p = disk world_sizes !! p)
      ∧ (∀ s, is_image p = true → size_on_disk world_sizes p = Some s →
           default_max_image_bytes < s → deletable world_sizes p = true →
           (p ∉ founded_paths st') ∧ disk st' !! p = None)
      ∧ (∀ s, is_video p = true → size_on_disk world_sizes p = Some s →
           default_max_video_bytes < s → deletable world_sizes p = true →
           (p ∉ founded_paths st') ∧ disk st' !! p = None)
      ∧ (size_on_disk world_sizes p = None → deletable world_sizes p = true →
           (p ∉ founded_paths st') ∧ disk st' !! p = None).
Proof.
  apply (size_filter_boundary default_max_image_bytes default_max_video_bytes
           world_sizes).
  apply (bool_decide_unpack _). vm_compute. exact I.
Defined.

(** What the stage does on [world_sizes]: only the image at the ceiling is
    left. *)
Example size_filter_on_world_sizes :
  let r := removeLargeFiles default_max_image_bytes default_max_video_bytes
             world_sizes in
  r.1 = Ok tt ∧ founded_paths r.2 = ["C:\pics\exact.jpg"]
  ∧ stdout r.2 = [MsgLargeRemoved 2].
Proof. vm_compute. done. Qed.

(** C4, as stated, fails: the file of a collected path is gone, its size
    cannot be read, [os.remove] raises [FileNotFoundError], the failure is
    printed, and the record is still in [founded_paths]. *)
Lemma failed_deletion_not_dropped :
  let p := "C:\pics\gone.jpg" in
  let r := removeLargeFiles default_max_image_bytes default_max_video_bytes
             world_gone in
  rejected_by_size default_max_image_bytes default_max_video_bytes world_gone p
    = true
  ∧ deletable world_gone p = false
  ∧ r.1 = Ok tt
  ∧ founded_paths r.2 = [p]
  ∧ stdout r.2 = [MsgFailedRemoveLarge p FileNotFoundError; MsgLargeRemoved 0].
Proof. vm_compute. done. Qed.

(** C4 (amended).  In [removeLargeFiles], when [os.remove] fails on a
    rejected record the stage still returns, the failure is printed, and the
    record stays in [founded_paths] with its entry on disk as it was: the
    record is dropped only when the deletion succeeds. *)
Theorem failed_deletion_keeps_record
    (max_image_bytes max_video_bytes : Z) (st : State) (p : string) :
  p ∈ founded_paths st →
  rejected_by_size max_image_bytes max_video_bytes st p = true →
  deletable st p = false →
  ∃ st',
    removeLargeFiles max_image_bytes max_video_bytes st = (Ok tt, st')
    ∧ p ∈ founded_paths st'
    ∧ MsgFailedRemoveLarge p (remove_error st p) ∈ stdout st'
    ∧ disk st' !! p = disk st !! p.
Proof.
  intros Hp Hr Hd.
  destruct (loop_spares_undeletable max_image_bytes max_video_bytes
              (founded_paths st) [] st p Hd)
    as (removed & st1 & Hrun & Hdisk & Hfp & _ & Hmsg).
  eexists. split.
  { unfold removeLargeFiles. cbv [bind get print modify]. rewrite Hrun.
    reflexivity. }
  simpl. split_and!.
  - by apply Hfp.
  - apply elem_of_app. left. by apply Hmsg.
  - done.
Qed.

Lemma failed_deletion_keeps_record_witness :
  ∃ st',
    removeLargeFiles default_max_image_bytes default_max_video_bytes world_gone
      = (Ok tt, st')
    ∧ "C:\pics\gone.jpg" ∈ founded_paths st'
    ∧ MsgFailedRemoveLarge "C:\pics\gone.jpg"
        (remove_error world_gone "C:\pics\gone.jpg") ∈ stdout st'
    ∧ disk st' !! "C:\pics\gone.jpg" = disk world_gone !! "C:\pics\gone.jpg".
Proof.
  apply (failed_deletion_keeps_record default_max_image_bytes
           default_max_video_bytes world_gone "C:\pics\gone.jpg").
  - apply (bool_decide_unpack _). vm_compute. exact I.
  - vm_compute. reflexivity.
  - vm_compute. reflexivity.
Defined.

(** ** [convertTypes] *)

Lemma convert_image_result p st r st' :
  convert_image p st = (Ok r, st') → r = (stem p +:+ ".png", true).
Proof.
  unfold convert_image. run_monad. cbn.
  repeat (case_match; simplify_eq/=); try done. all: by intros [= <- _].
Qed.

Lemma convert_video_result p st r st' :
  convert_video p st = (Ok r, st') →
  r = (p, false) ∨ r = (stem p +:+ ".mp4", true).
Proof.
  unfold convert_video, run_ffmpeg. run_monad. cbn.
  repeat (case_match; simplify_eq/=); try done.
  all: intros [= <- _]; auto.
Qed.

(** One record: the [try] never lets an exception out, and the new path is
    the old one or the converted name. *)
Lemma convert_one_returns p st :
  ∃ new_path converted st',
    convert_one p st = (Ok (new_path, converted), st')
    ∧ new_path ∈ candidates p
    ∧ (converted = false → new_path = p).
Proof.
  unfold convert_one, try_except.
  match goal with |- context [let (_, _) := ?m st in _] =>
    destruct (m st) as [[[new_path converted]|e] st1] eqn:Hrun end.
  2: { eexists p, false, _. split; [reflexivity|]. split; [by left|done]. }
  exists new_path, converted, st1. split; [done|].
  unfold candidates, converted_name, convertible_image, convertible_video.
  repeat case_bool_decide; simpl in *.
  all: try (apply convert_image_result in Hrun as [= -> ->]; split; [set_solver|done]).
  all: try (apply convert_video_result in Hrun as [[= -> ->]|[= -> ->]];
            (split; [set_solver|done])).
  all: revert Hrun; run_monad; cbn; repeat (case_match; simplify_eq/=);
    try done; intros Hrun.
  all: try apply convert_image_result in Hrun.
  all: simplify_eq; (split; [set_solver|done]).
Qed.

Lemma convertible_video_tests p :
  convertible_video p →
  bool_decide (ext_of p ∈ [".heic"; ".webp"]) = false
  ∧ bool_decide (ext_of p ∈ [".avi"; ".mkv"; ".mov"; ".webm"]) = true.
Proof.
  unfold convertible_video. intros H.
  split; [|by apply bool_decide_eq_true_2].
  apply bool_decide_eq_false_2. intros H'.
  repeat (apply elem_of_cons in H as [H|H];
          [rewrite H in H'; apply (bool_decide_pack _) in H'; by vm_compute in H'|]).
  by apply elem_of_nil in H.
Qed.

(** A conversion that fails leaves the record at its path. *)
Lemma convert_one_pass_through p st :
  conversion_fails st p → ∃ st', convert_one p st = (Ok (p, false), st').
Proof.
  intros Hfail. unfold convert_one, try_except.
  destruct Hfail as [Hext Hdec|Himg Hf|Himg Hf|f e Hv Hf He|f rc err Hv Hf He Hrc
                     |Hv Hf|f Hv Hf Hout Hnew].
  - rewrite Hext. run_monad.
    rewrite bool_decide_eq_true_2 by set_solver.
    rewrite bool_decide_eq_true_2 by done.
    cbn. rewrite Hdec. by eexists.
  - rewrite (bool_decide_eq_true_2 _ Himg).
    assert (Hraise : ∃ e, convert_image p st = (Raise e, st)).
    { unfold convert_image. run_monad. cbn. destruct (disk st !! p) as [f|]; cbn in *;
        [rewrite Hf|]; by eexists. }
    destruct Hraise as [e Hraise].
    case_bool_decide; run_monad; cbn; [destruct (heif_decoder st); cbn|];
      rewrite ?Hraise; by eexists.
  - rewrite (bool_decide_eq_true_2 _ Himg).
    assert (Hraise : ∃ e, convert_image p st = (Raise e, st)).
    { unfold convert_image. run_monad.
      destruct (disk st !! p) as [f|] eqn:Hd; cbn in Hf |- *; [|by eexists].
      destruct (f_image f); cbn; [|by eexists].
      rewrite Hd. cbn. rewrite Hf. by eexists. }
    destruct Hraise as [e Hraise].
    case_bool_decide; run_monad; cbn; [destruct (heif_decoder st); cbn|];
      rewrite ?Hraise; by eexists.
  - destruct (convertible_video_tests p Hv) as [-> ->].
    unfold convert_video, run_ffmpeg. run_monad. cbn. rewrite Hf.
    destruct (f_mp4 f); cbn; rewrite He; destruct e; by eexists.
  - destruct (convertible_video_tests p Hv) as [-> ->].
    unfold convert_video, run_ffmpeg. run_monad. cbn. rewrite Hf.
    destruct (f_mp4 f); cbn; rewrite He; cbn;
      rewrite (proj2 (Z.eqb_neq _ _) Hrc); cbn; case_bool_decide; by eexists.
  - destruct (convertible_video_tests p Hv) as [-> ->].
    unfold convert_video, run_ffmpeg. run_monad. cbn. rewrite Hf. cbn.
    case_bool_decide; by eexists.
  - destruct (convertible_video_tests p Hv) as [-> ->].
    unfold convert_video, run_ffmpeg. run_monad. cbn. rewrite Hf, Hout. cbn.
    destruct (f_ffmpeg f) as [e|rc err]; cbn.
    + destruct e; by eexists.
    + rewrite Hnew. rewrite bool_decide_eq_false_2 by (by intros [? [=]]).
      rewrite andb_false_r. case_bool_decide; by eexists.
Qed.

Lemma convertTypes_step_returns acc p st :
  ∃ new_path converted st',
    convert_one p st = (Ok (new_path, converted), st')
    ∧ convertTypes_step acc p st
      = (Ok (acc.1 ++ [new_path], if converted : bool then S acc.2 else acc.2), st').
Proof.
  destruct (convert_one_returns p st) as (np & b & st' & Hrun & _).
  exists np, b, st'. split; [done|].
  unfold convertTypes_step. by rewrite (bind_ok _ _ _ _ _ Hrun).
Qed.

(** The loop never raises; it appends one path per record, in order. *)
Lemma convertTypes_loop_returns l : ∀ acc st,
  ∃ news n st',
    for_each l convertTypes_step acc st = (Ok (acc.1 ++ news, n), st')
    ∧ Forall2 (λ p new_path, new_path ∈ candidates p) l news.
Proof.
  induction l as [|p l IH]; intros acc st.
  { exists [], acc.2, st. rewrite app_nil_r. by destruct acc. }
  destruct (convertTypes_step_returns acc p st) as (np & b & st1 & Hone & Hstep).
  destruct (IH (acc.1 ++ [np], if b then S acc.2 else acc.2) st1)
    as (news & n & st' & Hrun & Hall).
  exists (np :: news), n, st'. split.
  - simpl. rewrite (bind_ok _ _ _ _ _ Hstep), Hrun. simpl.
    by rewrite <- app_assoc.
  - constructor; [|done].
    destruct (convert_one_returns p st) as (np' & b' & st1' & Hone' & Hin & _).
    congruence.
Qed.

Lemma convertTypes_returns st :
  ∃ st',
    convertTypes st = (Ok tt, st')
    ∧ Forall2 (λ p new_path, new_path ∈ candidates p)
        (founded_paths st) (founded_paths st').
Proof.
  destruct (convertTypes_loop_returns (founded_paths st) ([], O) st)
    as (news & n & st1 & Hrun & Hall).
  eexists. split.
  - unfold convertTypes, convertTypes_loop. cbv [bind get].
    rewrite Hrun. reflexivity.
  - done.
Qed.

(** What the stage does on [world_timeout] and on [world_mixed] (no HEIC
    decoder there). *)
Example convertTypes_on_world_timeout :
  let r := convertTypes world_timeout in
  r.1 = Ok tt
  ∧ founded_paths r.2 = ["C:\in\a.png"; "C:\in\clip.avi"]
  ∧ stdout r.2 = [MsgFfmpegTimeout "C:\in\clip.avi"; MsgConverted 1].
Proof. vm_compute. done. Qed.

Example convertTypes_on_world_mixed :
  let r := convertTypes world_mixed in
  r.1 = Ok tt
  ∧ founded_paths r.2 = ["C:\in\a.heic"; "C:\in\b.mp4"; "C:\in\c.jpg"]
  ∧ stdout r.2 = [MsgSkipHeic "C:\in\a.heic"; MsgConverted 1]
  ∧ disk r.2 !! "C:\in\b.mov" = None.
Proof. vm_compute. done. Qed.

(** ** Stages that only drop records *)

Lemma checkQuality_step_sublist a b removed p st :
  founded_paths (checkQuality_step a b removed p st).2
    `sublist_of` founded_paths st.
Proof.
  unfold checkQuality_step, run_ffprobe, low_quality_video. run_monad. cbn.
  repeat (case_match; simplify_eq/=); try done.
  all: by eapply list_remove_sublist.
Qed.

Lemma checkQuality_sublist a b st :
  founded_paths (checkQuality a b st).2 `sublist_of` founded_paths st.
Proof.
  unfold checkQuality. cbv [bind get print modify].
  assert (Hinv : founded_paths
            (for_each (founded_paths st) (checkQuality_step a b) [] st).2
            `sublist_of` founded_paths st).
  { apply (for_each_invariant
             (λ st', founded_paths st' `sublist_of` founded_paths st)); [|done].
    intros acc x st1 _ H1. cbn beta.
    etrans; [apply checkQuality_step_sublist|done]. }
  by destruct (for_each _ _ _ _) as [[?|?] st'].
Qed.

Lemma getImageHashes_step_reads hashes p st :
  (getImageHashes_step hashes p st).2 = st.
Proof.
  unfold getImageHashes_step. run_monad. cbn.
  repeat (case_match; simplify_eq/=); done.
Qed.

(** Hashing only reads. *)
Lemma getImageHashes_reads st : (getImageHashes st).2 = st.
Proof.
  unfold getImageHashes. cbv [bind get].
  apply (for_each_invariant (λ st', st' = st)); [|done].
  intros acc p st1 _ ->. unfold getImageHashes_step. run_monad. cbn.
  repeat (case_match; simplify_eq/=); done.
Qed.

Lemma compare_pair_founded_paths hashes paths threshold i marks j st :
  founded_paths (compare_pair hashes paths threshold i marks j st).2
  = founded_paths st.
Proof.
  unfold compare_pair. run_monad. cbn.
  repeat (case_match; simplify_eq/=); done.
Qed.

(** The scan deletes files but leaves [founded_paths] alone. *)
Lemma scan_duplicates_founded_paths hashes threshold st :
  founded_paths (scan_duplicates hashes threshold st).2 = founded_paths st.
Proof.
  unfold scan_duplicates.
  apply (for_each_invariant (λ st', founded_paths st' = founded_paths st)); [|done].
  intros marks i st1 _ H1. unfold scan_from.
  cbv [bind of_option ret raise].
  destruct (Py.dict_keys hashes !! i) as [pi|]; [|done].
  case_bool_decide; [done|].
  assert (Hinv : founded_paths
            (for_each (seq (i + 1) (length (Py.dict_keys hashes) - (i + 1)))
               (compare_pair hashes (Py.dict_keys hashes) threshold i)
               marks st1).2 = founded_paths st).
  { apply (for_each_invariant (λ st', founded_paths st' = founded_paths st));
      [|done].
    intros ? ? ? _ ?. cbn beta. by rewrite compare_pair_founded_paths. }
  by destruct (for_each _ _ _ _) as [[?|?] st'].
Qed.

Lemma removeDuplicateImages_sublist threshold st :
  founded_paths (removeDuplicateImages threshold st).2
    `sublist_of` founded_paths st.
Proof.
  unfold removeDuplicateImages. cbv [bind modify print].
  pose proof (getImageHashes_reads st) as Hh.
  destruct (getImageHashes st) as [[hashes|e] st1]; simpl in Hh; subst st1; [|done].
  pose proof (scan_duplicates_founded_paths hashes threshold st) as Hs.
  destruct (scan_duplicates hashes threshold st) as [[marks|e] st2];
    simpl in Hs |- *; rewrite Hs; [|done].
  apply sublist_filter.
Qed.

(** ** Failed deletions outside [removeLargeFiles] *)

(** [checkQuality] does not catch the exception of [os.remove]: a rejected
    image whose file cannot be deleted ends the stage there. *)
Lemma checkQuality_failed_deletion_raises
    (min_image_size min_video_size : Z * Z) st p l f img :
  founded_paths st = p :: l →
  is_image p = true →
  disk st !! p = Some f → f_image f = Some img →
  (img_size img).1 < min_image_size.1 ∨ (img_size img).2 < min_image_size.2 →
  f_removable f = false →
  checkQuality min_image_size min_video_size st = (Raise PermissionError, st).
Proof.
  intros Hfp Himg Hf Hopen Hsmall Hlocked.
  unfold checkQuality. cbv [bind get]. rewrite Hfp. simpl for_each.
  unfold bind at 1, checkQuality_step at 1. fold (is_image p). rewrite Himg.
  run_monad. rewrite Hf. cbn. rewrite Hopen. cbn.
  destruct (img_size img) as [width height]. cbn in Hsmall |- *.
  assert (Hlow : (width <? min_image_size.1) || (height <? min_image_size.2) = true).
  { apply orb_true_iff. destruct Hsmall; [left|right]; by apply Z.ltb_lt. }
  rewrite Hlow, Hf. cbn. by rewrite Hlocked.
Qed.

Example checkQuality_on_world_tiny_locked :
  checkQuality default_min_size default_min_size world_tiny_locked
  = (Raise PermissionError, world_tiny_locked).
Proof.
  eapply (checkQuality_failed_deletion_raises _ _ _ "C:\in\tiny.png");
    first [reflexivity | by vm_compute | by left; vm_compute].
Qed.

(** Neither does [removeDuplicateImages]: [B] is a duplicate of [A], its
    file is read-only, and the stage stops with [founded_paths] as it was. *)
Example removeDuplicateImages_on_world_chain_locked :
  let r := removeDuplicateImages default_threshold world_chain_locked in
  r.1 = Raise PermissionError
  ∧ founded_paths r.2 = founded_paths world_chain_locked
  ∧ is_Some (disk r.2 !! "C:\in\B.jpg").
Proof. vm_compute. eauto. Qed.

(** ** Uniqueness of paths *)

Lemma candidates_NoDup (l out : list string) :
  NoDup (l ≫= candidates) →
  Forall2 (λ p new_path, new_path ∈ candidates p) l out →
  NoDup out.
Proof.
  intros Hnd Hall. induction Hall as [|p np l out Hnp Hall IH]; [constructor|].
  rewrite bind_cons in Hnd. apply NoDup_app in Hnd as (_ & Hdisj & Hrest).
  constructor; [|by apply IH].
  intros Hin. apply (Hdisj np Hnp).
  apply list_elem_of_lookup in Hin as [i Hi].
  destruct (Forall2_lookup_r _ _ _ _ _ Hall Hi) as (q & Hq & Hnq).
  apply list_elem_of_bind. exists q. split; [done|].
  by eapply list_elem_of_lookup_2.
Qed.

(** C5, as stated, fails: [a.png] and [a.webp] are two records with
    different paths; [convertTypes] converts the second to [a.png] (over the
    first file) and [founded_paths] then holds the same path twice. *)
Lemma normalize_duplicates_a_path :
  let r := convertTypes world_same_stem in
  NoDup (founded_paths world_same_stem)
  ∧ r.1 = Ok tt
  ∧ founded_paths r.2 = ["C:\in\a.png"; "C:\in\a.png"]
  ∧ ¬ NoDup (founded_paths r.2).
Proof.
  split_and!.
  - apply (bool_decide_unpack _). vm_compute. exact I.
  - vm_compute. reflexivity.
  - vm_compute. reflexivity.
  - intros H. apply (bool_decide_pack _) in H. vm_compute in H. exact H.
Qed.

(** C5 (amended).  [founded_paths] holds no path twice after
    [collectFiles] (started from the empty list, over a walk that lists each
    file once); [removeLargeFiles], [checkQuality] and
    [removeDuplicateImages] keep it so; [convertTypes] keeps it so when no
    converted name ([stem + ".png"], [stem + ".mp4"]) is the path or the
    converted name of another record. *)
Theorem founded_paths_unique
    (walk : list (string * list string)) (max_image_bytes max_video_bytes : Z)
    (min_image_size min_video_size : Z * Z) (threshold : Q) (st : State) :
  (founded_paths st = [] → NoDup (walk_paths walk) →
     NoDup (founded_paths (collectFiles walk st).2))
  ∧ (NoDup (founded_paths st) →
       NoDup (founded_paths (removeLargeFiles max_image_bytes max_video_bytes st).2)
     ∧ NoDup (founded_paths (checkQuality min_image_size min_video_size st).2)
     ∧ NoDup (founded_paths (removeDuplicateImages threshold st).2))
  ∧ (NoDup (founded_paths st ≫= candidates) →
       NoDup (founded_paths (convertTypes st).2)).
Proof.
  split_and!.
  - apply collectFiles_NoDup.
  - intros Hnd. split_and!.
    + destruct (removeLargeFiles_run max_image_bytes max_video_bytes st Hnd)
        as (st' & Hrun & Hfp & _).
      rewrite Hrun. simpl. rewrite Hfp. by apply NoDup_filter.
    + eapply sublist_NoDup; [exact Hnd|apply checkQuality_sublist].
    + eapply sublist_NoDup; [exact Hnd|apply removeDuplicateImages_sublist].
  - intros Hnd. destruct (convertTypes_returns st) as (st' & Hrun & Hall).
    rewrite Hrun. simpl. by eapply candidates_NoDup.
Qed.

Lemma founded_paths_unique_witness :
  NoDup (founded_paths (collectFiles walk_example (world [] [])).2)
  ∧ (NoDup (founded_paths
       (removeLargeFiles default_max_image_bytes default_max_video_bytes
          world_sizes).2)
     ∧ NoDup (founded_paths
         (checkQuality default_min_size default_min_size world_sizes).2)
     ∧ NoDup (founded_paths (removeDuplicateImages default_threshold world_sizes).2))
  ∧ NoDup (founded_paths (convertTypes world_mixed).2).
Proof.
  pose proof (founded_paths_unique walk_example 0 0 (0, 0) (0, 0) default_threshold
                (world [] [])) as (Hcollect & _ & _).
  pose proof (founded_paths_unique [] default_max_image_bytes
                default_max_video_bytes default_min_size default_min_size
                default_threshold world_sizes) as (_ & Hfilter & _).
  pose proof (founded_paths_unique [] 0 0 (0, 0) (0, 0) default_threshold
                world_mixed) as (_ & _ & Hconvert).
  split; [|split].
  - apply Hcollect; [reflexivity|].
    apply (bool_decide_unpack _). vm_compute. exact I.
  - apply Hfilter. apply (bool_decide_unpack _). vm_compute. exact I.
  - apply Hconvert. apply (bool_decide_unpack _). vm_compute. exact I.
Defined.

(** ** Fingerprints and similarity *)

Lemma phash_shape (bits : Z) :
  hash_rows (hash_of_bits bits) = 8%nat ∧ bit_length (hash_of_bits bits) = 64%nat.
Proof. split; reflexivity. Qed.

(** Between two fingerprints of [phash] the score is defined: the sizes
    agree and the divisor is 64. *)
Lemma similarity_phash (a b : Z) :
  similarity (hash_of_bits a) (hash_of_bits b)
  = Ok ((1 - inject_Z (Z.of_nat (hamming (flatten (hash_of_bits a))
                                          (flatten (hash_of_bits b))))
             / inject_Z 64) * 100)%Q.
Proof.
  unfold similarity, hash_sub.
  rewrite bool_decide_eq_true_2 by reflexivity.
  reflexivity.
Qed.

(** C2, as stated, fails.  Two [phash] fingerprints (64 bits each) that
    differ in 4 bits score [(1 - 4/64) * 100 = 93.75], below the default
    threshold; the square of the bit length as divisor would give
    [(1 - 4/4096) * 100], above it. *)
Lemma similarity_not_over_squared_bit_length :
  let hi := hash_of_bits 0 in
  let hj := hash_of_bits 15 in
  hash_sub hi hj = Ok 4
  ∧ bit_length hi = 64%nat
  ∧ ∃ s, similarity hi hj = Ok s
         ∧ ¬ (s == (1 - 4 / inject_Z (Z.of_nat (bit_length hi) ^ 2)) * 100)%Q
         ∧ (s == 375 # 4)%Q
         ∧ Qle_bool default_threshold s = false
         ∧ Qle_bool default_threshold
             ((1 - 4 / inject_Z (Z.of_nat (bit_length hi) ^ 2)) * 100)%Q = true.
Proof.
  split; [by vm_compute|]. split; [reflexivity|].
  eexists. split; [apply similarity_phash|].
  split_and!; by vm_compute.
Qed.

(** C2 (amended).  For the fingerprints of any two hashed images the score
    is [(1 - distance / rows^2) * 100], where [distance] is the Hamming
    distance and [rows = len(h.hash)] is the number of rows of the bit
    matrix.  [phash] returns an 8 x 8 matrix, so [rows^2 = 64] is the bit
    length of the fingerprint: the divisor is the bit length itself. *)
Theorem similarity_formula (a b : Z) :
  let hi := hash_of_bits a in
  let hj := hash_of_bits b in
  let distance := Z.of_nat (hamming (flatten hi) (flatten hj)) in
  hash_sub hi hj = Ok distance
  ∧ similarity hi hj
    = Ok ((1 - inject_Z distance / inject_Z (Z.of_nat (hash_rows hi) ^ 2)) * 100)%Q
  ∧ (Z.of_nat (hash_rows hi) ^ 2 = Z.of_nat (bit_length hi))
  ∧ bit_length hi = 64%nat
  ∧ 0 <= distance <= Z.of_nat (bit_length hi).
Proof.
  cbv zeta. split_and!.
  - unfold hash_sub. by rewrite bool_decide_eq_true_2 by reflexivity.
  - apply similarity_phash.
  - reflexivity.
  - reflexivity.
  - lia.
  - unfold hamming. etrans; [apply Nat2Z.inj_le, length_filter|].
    rewrite length_zip_with. apply Nat2Z.inj_le. apply Nat.le_min_l.
Qed.

(** ** [getImageHashes] *)

(** When hashing returns: the keys are image paths of [founded_paths]
    whose files exist, each once, and every value is an 8 x 8 fingerprint. *)
Lemma getImageHashes_result st hashes st' :
  getImageHashes st = (Ok hashes, st') →
  NoDup (Py.dict_keys hashes)
  ∧ Forall (λ kv, ∃ bits, kv.2 = hash_of_bits bits) hashes
  ∧ (∀ p, p ∈ Py.dict_keys hashes →
          p ∈ founded_paths st ∧ is_image p = true ∧ is_Some (disk st !! p)).
Proof.
  unfold getImageHashes. cbv [bind get]. intros Hrun.
  apply (for_each_ok_invariant
    (λ hashes s,
       s = st
       ∧ NoDup (Py.dict_keys hashes)
       ∧ Forall (λ kv, ∃ bits, kv.2 = hash_of_bits bits) hashes
       ∧ (∀ p, p ∈ Py.dict_keys hashes →
               p ∈ founded_paths st ∧ is_image p = true ∧ is_Some (disk st !! p)))
    getImageHashes_step (founded_paths st)) in Hrun; [by destruct Hrun| |].
  - intros acc p st1 acc' st1' Hp (-> & Hnd & Hshape & Hkeys).
    unfold getImageHashes_step. run_monad. unfold phash. cbn.
    fold (is_image p). destruct (is_image p) eqn:Himg; [|by intros [= <- <-]].
    repeat (case_match; simplify_eq/=); try done. intros [= <- <-].
    split_and!.
    + done.
    + by apply dict_set_NoDup.
    + apply (dict_set_values (λ h, ∃ bits, h = hash_of_bits bits));
        [done|by eexists].
    + intros q. rewrite dict_set_keys. case_bool_decide; [by apply Hkeys|].
      intros [Hq| ->%list_elem_of_singleton]%elem_of_app; [by apply Hkeys|].
      by split_and!.
  - split_and!; [done|constructor|constructor|]. by intros p ?%elem_of_nil.
Qed.

(** On a duplicate-free [founded_paths] the hashed list is the list of the
    image records, in collection order. *)
Lemma getImageHashes_order l : ∀ acc st hashes st',
  NoDup (Py.dict_keys acc ++ filter (λ p, is_image p) l) →
  for_each l getImageHashes_step acc st = (Ok hashes, st') →
  Py.dict_keys hashes = Py.dict_keys acc ++ filter (λ p, is_image p) l.
Proof.
  induction l as [|p l IH]; intros acc st hashes st' Hnd; simpl.
  { intros [= <- <-]. by rewrite app_nil_r. }
  unfold bind.
  destruct (getImageHashes_step acc p st) as [[acc1|e] st1] eqn:Hstep; [|done].
  intros Hrun. revert Hstep. unfold getImageHashes_step. fold (is_image p).
  rewrite filter_cons in Hnd |- *.
  destruct (is_image p) eqn:Himg.
  - rewrite decide_True in Hnd |- * by done.
    run_monad. cbn. repeat (case_match; simplify_eq/=); try done.
    intros [= <- <-].
    assert (Hfresh : p ∉ Py.dict_keys acc).
    { apply NoDup_app in Hnd as (_ & Hdisj & _). intros Hin.
      apply (Hdisj p Hin). by left. }
    assert (Hkeys : Py.dict_keys (Py.dict_set acc p a0) = Py.dict_keys acc ++ [p])
      by (by rewrite dict_set_keys, bool_decide_eq_false_2 by done).
    rewrite (IH _ _ _ _ ltac:(by rewrite Hkeys, <- app_assoc) Hrun).
    by rewrite Hkeys, <- app_assoc.
  - rewrite decide_False in Hnd |- * by (by intros []).
    cbv [ret]. intros [= <- <-]. by eapply IH.
Qed.

(** Hashing raises as soon as one image record cannot be opened or
    decoded, and it has changed nothing. *)
Lemma getImageHashes_raises st p :
  p ∈ founded_paths st → is_image p = true →
  phash_bits st p = None →
  ∃ e, getImageHashes st = (Raise e, st).
Proof.
  intros Hp Himg Hbad. unfold getImageHashes. cbv [bind get].
  generalize (@nil (string * ImageHash)).
  induction (founded_paths st) as [|x l IH]; intros acc.
  { by apply elem_of_nil in Hp. }
  simpl. unfold bind.
  pose proof (getImageHashes_step_reads acc x st) as Hreads.
  destruct (getImageHashes_step acc x st) as [[acc1|e] st1] eqn:Hstep;
    simpl in Hreads; subst st1; [|by eexists].
  apply elem_of_cons in Hp as [->|Hp]; [|by apply IH].
  exfalso. revert Hstep. unfold getImageHashes_step. fold (is_image x).
  rewrite Himg. run_monad. unfold phash, phash_bits in *. cbn.
  destruct (disk st !! x) as [f|]; cbn in *; [|done].
  destruct (f_image f) as [img|]; cbn in *; [|done].
  by rewrite Hbad.
Qed.

(** ** Properties of the rule *)

Section Rule.
Context (threshold : Q) (fingerprints : list ImageHash).

(** A verdict, once given, stays. *)
Lemma spec_compare_stable i R j k v :
  R !! k = Some v → spec_compare threshold fingerprints i R j !! k = Some v.
Proof.
  intros Hk. unfold spec_compare. destruct (R !! j) eqn:Hj; [done|].
  destruct (similar _ _ _ _); [|done].
  rewrite lookup_insert_ne; [done|]. intros ->. congruence.
Qed.

Lemma spec_inner_stable i js : ∀ R k v,
  R !! k = Some v →
  foldl (spec_compare threshold fingerprints i) R js !! k = Some v.
Proof.
  induction js as [|j js IH]; intros R k v Hk; simpl; [done|].
  by apply IH, spec_compare_stable.
Qed.

Lemma spec_compare_other i j k R :
  k ≠ j → spec_compare threshold fingerprints i R j !! k = R !! k.
Proof.
  intros Hne. unfold spec_compare. destruct (R !! j); [done|].
  destruct (similar _ _ _ _); [|done]. by rewrite lookup_insert_ne.
Qed.

Lemma spec_inner_other i js : ∀ R k,
  k ∉ js → foldl (spec_compare threshold fingerprints i) R js !! k = R !! k.
Proof.
  induction js as [|j js IH]; intros R k Hk; simpl; [done|].
  apply not_elem_of_cons in Hk as [Hne Hk].
  rewrite IH by done. by apply spec_compare_other.
Qed.

Lemma spec_scan_stable R i k v :
  R !! k = Some v → spec_scan threshold fingerprints R i !! k = Some v.
Proof.
  intros Hk. unfold spec_scan. destruct (R !! i) eqn:Hi; [done|].
  rewrite lookup_insert_ne by (intros ->; congruence).
  by apply spec_inner_stable.
Qed.

Lemma spec_outer_stable indices : ∀ R k v,
  R !! k = Some v →
  foldl (spec_scan threshold fingerprints) R indices !! k = Some v.
Proof.
  induction indices as [|i indices IH]; intros R k v Hk; simpl; [done|].
  by apply IH, spec_scan_stable.
Qed.

Lemma spec_scan_resolves R i :
  is_Some (spec_scan threshold fingerprints R i !! i).
Proof.
  unfold spec_scan. destruct (R !! i) eqn:Hi; [by rewrite Hi|].
  by rewrite lookup_insert_eq.
Qed.

Lemma spec_outer_resolves indices : ∀ R k,
  k ∈ indices ∨ is_Some (R !! k) →
  is_Some (foldl (spec_scan threshold fingerprints) R indices !! k).
Proof.
  induction indices as [|i indices IH]; intros R k Hk; simpl.
  { destruct Hk as [Hk|Hk]; [by apply elem_of_nil in Hk|done]. }
  apply IH. destruct Hk as [[->|Hk]%elem_of_cons|[v Hk]].
  - right. apply spec_scan_resolves.
  - by left.
  - right. exists v. by apply spec_scan_stable.
Qed.

(** Every index of the hashed list ends up kept or deleted. *)
Lemma spec_partition_total j :
  (j < length fingerprints)%nat →
  is_Some (spec_partition threshold fingerprints !! j).
Proof.
  intros Hj. apply spec_outer_resolves. left. apply elem_of_seq. lia.
Qed.

End Rule.

(** ** The scan of [removeDuplicateImages] against the rule of the
    specification *)

Section Scan.
Context (hashes : list (string * ImageHash)) (threshold : Q) (st0 : State).
Hypothesis Hnd : NoDup (Py.dict_keys hashes).
Hypothesis Hshape : Forall (λ kv, ∃ bits, kv.2 = hash_of_bits bits) hashes.

Local Abbreviation paths := (Py.dict_keys hashes).
Local Abbreviation fingerprints := (hashes.*2).
Local Abbreviation inv := (scan_inv (Py.dict_keys hashes) st0).

Lemma lookup_hash j pj :
  paths !! j = Some pj →
  ∃ bits, Py.dict_get hashes pj = Some (hash_of_bits bits)
          ∧ fingerprints !! j = Some (hash_of_bits bits).
Proof using Hnd Hshape.
  unfold Py.dict_keys. rewrite !list_lookup_fmap.
  destruct (hashes !! j) as [[k v]|] eqn:Hj; [|done]. intros [= <-].
  destruct (Forall_lookup_1 _ _ _ _ Hshape Hj) as [bits Hv]. simpl in Hv. subst v.
  exists bits. split; [|done]. by eapply dict_get_lookup.
Qed.

Lemma seen_index marks R st j pj :
  inv marks R st → paths !! j = Some pj →
  pj ∈ seen marks ↔ is_Some (R !! j).
Proof using Hnd Hshape.
  intros (Hseen & _ & _) Hj. rewrite Hseen. split.
  - intros (k & Hk & HR). by rewrite <- (NoDup_lookup _ _ _ _ Hnd Hk Hj).
  - intros HR. by exists j.
Qed.

Lemma deleted_seen marks R st p :
  inv marks R st → p ∈ deleted marks → p ∈ seen marks.
Proof.
  intros (Hseen & Hdel & _). rewrite Hseen, Hdel.
  intros (k & Hk & HR). exists k. by rewrite HR.
Qed.

Lemma inv_delete marks R st j pj :
  inv marks R st → paths !! j = Some pj → R !! j = None →
  inv {| seen := seen marks ∪ {[pj]}; deleted := deleted marks ∪ {[pj]} |}
      (<[j := Deleted]> R) (set_disk (delete pj (disk st)) st).
Proof using Hnd Hshape.
  intros (Hseen & Hdel & Hdisk) Hj HR. split_and!; simpl.
  - intros p. rewrite elem_of_union, elem_of_singleton, Hseen. split.
    + intros [(k & Hk & Hs)| ->].
      * exists k. split; [done|]. rewrite lookup_insert_is_Some'. by right.
      * exists j. by rewrite lookup_insert_eq.
    + intros (k & Hk & Hs). destruct (decide (k = j)) as [->|Hne].
      * right. congruence.
      * left. exists k. by rewrite lookup_insert_ne in Hs.
  - intros p. rewrite elem_of_union, elem_of_singleton, Hdel. split.
    + intros [(k & Hk & Hs)| ->].
      * exists k. split; [done|]. rewrite lookup_insert_ne; [done|congruence].
      * exists j. by rewrite lookup_insert_eq.
    + intros (k & Hk & Hs). destruct (decide (k = j)) as [->|Hne].
      * right. congruence.
      * left. exists k. by rewrite lookup_insert_ne in Hs.
  - intros p. destruct (decide (p = pj)) as [->|Hne].
    + rewrite lookup_delete_eq. by rewrite bool_decide_eq_true_2 by set_solver.
    + rewrite lookup_delete_ne, Hdisk by done.
      apply (f_equal (λ b : bool, if b then None else disk st0 !! p)).
      apply bool_decide_ext. set_solver.
Qed.

Lemma inv_keep marks R st i pi :
  inv marks R st → paths !! i = Some pi → R !! i = None →
  inv {| seen := seen marks ∪ {[pi]}; deleted := deleted marks |}
      (<[i := Kept]> R) st.
Proof using Hnd Hshape.
  intros (Hseen & Hdel & Hdisk) Hi HR. split_and!; simpl; [| |done].
  - intros p. rewrite elem_of_union, elem_of_singleton, Hseen. split.
    + intros [(k & Hk & Hs)| ->].
      * exists k. split; [done|]. rewrite lookup_insert_is_Some'. by right.
      * exists i. by rewrite lookup_insert_eq.
    + intros (k & Hk & Hs). destruct (decide (k = i)) as [->|Hne].
      * right. congruence.
      * left. exists k. by rewrite lookup_insert_ne in Hs.
  - intros p. rewrite Hdel. split.
    + intros (k & Hk & Hs). exists k. split; [done|].
      rewrite lookup_insert_ne; [done|congruence].
    + intros (k & Hk & Hs). destruct (decide (k = i)) as [->|Hne].
      * by rewrite lookup_insert_eq in Hs.
      * exists k. by rewrite lookup_insert_ne in Hs.
Qed.

(** One comparison: the code and the rule agree, unless [os.remove] fails. *)
Lemma compare_pair_sim marks R st i j pi pj :
  inv marks R st → paths !! i = Some pi → paths !! j = Some pj →
  match compare_pair hashes paths threshold i marks j st with
  | (Ok marks', st') => inv marks' (spec_compare threshold fingerprints i R j) st'
  | (Raise _, _) =>
      ∃ k p, paths !! k = Some p ∧ deletable st0 p = false
             ∧ spec_compare threshold fingerprints i R j !! k = Some Deleted
  end.
Proof using Hnd Hshape.
  intros Hinv Hi Hj.
  destruct (lookup_hash i pi Hi) as (bi & Hgi & Hfi).
  destruct (lookup_hash j pj Hj) as (bj & Hgj & Hfj).
  unfold compare_pair, spec_compare, similar.
  cbv [bind of_option of_result ret raise]. rewrite Hj.
  case_bool_decide as Hseen.
  { apply (seen_index _ _ _ _ _ Hinv Hj) in Hseen as [v ->]. done. }
  assert (HR : R !! j = None).
  { apply eq_None_not_Some. by rewrite <- (seen_index _ _ _ _ _ Hinv Hj). }
  rewrite HR, Hi, Hgi, Hgj, Hfi, Hfj, similarity_phash.
  destruct (Qle_bool threshold _); [|done].
  destruct (deletable st pj) eqn:Hd.
  - rewrite (os_remove_succeeds _ _ Hd). by apply inv_delete.
  - rewrite (os_remove_fails _ _ Hd). exists j, pj.
    split_and!; [done| |by rewrite lookup_insert_eq].
    pose proof Hinv as (_ & _ & Hdisk). unfold deletable in *.
    rewrite Hdisk in Hd. rewrite bool_decide_eq_false_2 in Hd; [done|].
    intros Hdel. apply Hseen. by eapply deleted_seen.
Qed.

Lemma inner_loop_sim i pi js : ∀ marks R st,
  inv marks R st → paths !! i = Some pi →
  Forall (λ j, is_Some (paths !! j)) js →
  match for_each js (compare_pair hashes paths threshold i) marks st with
  | (Ok marks', st') =>
      inv marks' (foldl (spec_compare threshold fingerprints i) R js) st'
  | (Raise _, _) =>
      ∃ k p, paths !! k = Some p ∧ deletable st0 p = false
             ∧ foldl (spec_compare threshold fingerprints i) R js !! k
               = Some Deleted
  end.
Proof using Hnd Hshape.
  induction js as [|j js IH]; intros marks R st Hinv Hi Hjs; simpl; [done|].
  apply Forall_cons in Hjs as [[pj Hj] Hjs].
  pose proof (compare_pair_sim marks R st i j pi pj Hinv Hi Hj) as Hstep.
  unfold bind.
  destruct (compare_pair hashes paths threshold i marks j st) as [[marks1|e] st1].
  - by apply IH.
  - destruct Hstep as (k & p & Hk & Hp & HR). exists k, p.
    split_and!; [done|done|]. by apply spec_inner_stable.
Qed.

Lemma seq_in_range (i len : nat) :
  Forall (λ j, is_Some (paths !! j)) (seq (i + 1) (length paths - (i + 1))).
Proof.
  apply Forall_forall. intros j Hj%elem_of_seq.
  apply lookup_lt_is_Some. lia.
Qed.

(** One turn of the outer loop. *)
Lemma scan_from_sim marks R st i :
  inv marks R st → is_Some (paths !! i) →
  match scan_from hashes paths threshold marks i st with
  | (Ok marks', st') => inv marks' (spec_scan threshold fingerprints R i) st'
  | (Raise _, _) =>
      ∃ k p, paths !! k = Some p ∧ deletable st0 p = false
             ∧ spec_scan threshold fingerprints R i !! k = Some Deleted
  end.
Proof using Hnd Hshape.
  intros Hinv [pi Hi]. unfold scan_from, spec_scan.
  cbv [bind of_option ret raise]. rewrite Hi.
  case_bool_decide as Hseen.
  { apply (seen_index _ _ _ _ _ Hinv Hi) in Hseen as [v ->]. done. }
  assert (HR : R !! i = None).
  { apply eq_None_not_Some. by rewrite <- (seen_index _ _ _ _ _ Hinv Hi). }
  rewrite HR.
  replace (length fingerprints) with (length paths)
    by (unfold Py.dict_keys; by rewrite !length_fmap).
  pose proof (inner_loop_sim i pi _ marks R st Hinv Hi (seq_in_range i O)) as Hloop.
  assert (Hi_free : foldl (spec_compare threshold fingerprints i) R
                      (seq (i + 1) (length paths - (i + 1))) !! i = None).
  { rewrite spec_inner_other; [done|]. rewrite elem_of_seq. lia. }
  destruct (for_each _ _ marks st) as [[marks1|e] st1].
  - by apply inv_keep.
  - destruct Hloop as (k & p & Hk & Hp & Hdel). exists k, p.
    split_and!; [done|done|].
    rewrite lookup_insert_ne; [done|]. intros <-. congruence.
Qed.

Lemma outer_loop_sim indices : ∀ marks R st,
  inv marks R st → Forall (λ i, is_Some (paths !! i)) indices →
  match for_each indices (scan_from hashes paths threshold) marks st with
  | (Ok marks', st') =>
      inv marks' (foldl (spec_scan threshold fingerprints) R indices) st'
  | (Raise _, _) =>
      ∃ k p, paths !! k = Some p ∧ deletable st0 p = false
             ∧ foldl (spec_scan threshold fingerprints) R indices !! k
               = Some Deleted
  end.
Proof using Hnd Hshape.
  induction indices as [|i indices IH]; intros marks R st Hinv His; simpl; [done|].
  apply Forall_cons in His as [Hi His].
  pose proof (scan_from_sim marks R st i Hinv Hi) as Hstep.
  unfold bind.
  destruct (scan_from hashes paths threshold marks i st) as [[marks1|e] st1].
  - by apply IH.
  - destruct Hstep as (k & p & Hk & Hp & HR). exists k, p.
    split_and!; [done|done|]. by apply spec_outer_stable.
Qed.

(** The two nested loops, started on the state [st0]. *)
Lemma scan_duplicates_sim :
  match scan_duplicates hashes threshold st0 with
  | (Ok marks, st') => inv marks (spec_partition threshold fingerprints) st'
  | (Raise _, _) => ∃ p, spec_deleted threshold hashes p ∧ deletable st0 p = false
  end.
Proof using Hnd Hshape.
  enough (Hsim :
    match scan_duplicates hashes threshold st0 with
    | (Ok marks, st') => inv marks (spec_partition threshold fingerprints) st'
    | (Raise _, _) =>
        ∃ k p, paths !! k = Some p ∧ deletable st0 p = false
               ∧ spec_partition threshold fingerprints !! k = Some Deleted
    end).
  { destruct (scan_duplicates hashes threshold st0) as [[marks|e] st']; [done|].
    destruct Hsim as (k & p & Hk & Hp & HR). exists p. split; [|done].
    by exists k. }
  unfold scan_duplicates, spec_partition.
  replace (length fingerprints) with (length paths)
    by (unfold Py.dict_keys; by rewrite !length_fmap).
  apply outer_loop_sim.
  - split_and!; simpl.
    + intros p. split; [set_solver|]. intros (k & _ & Hk).
      rewrite lookup_empty in Hk. by destruct Hk.
    + intros p. split; [set_solver|]. intros (k & _ & Hk).
      by rewrite lookup_empty in Hk.
    + intros p. by rewrite bool_decide_eq_false_2 by set_solver.
  - apply Forall_forall. intros j Hj%elem_of_seq.
    apply lookup_lt_is_Some. lia.
Qed.

End Scan.

(** ** Paths the scan leaves alone *)

Section Untouched.
Context (hashes : list (string * ImageHash)) (threshold : Q).
Context (q : string).
Hypothesis Hq : ∀ j, (1 <= j)%nat → Py.dict_keys hashes !! j ≠ Some q.

(** A path that is not at an index [j >= 1] of the hashed list is never
    passed to [os.remove] and never marked deleted. *)
Lemma compare_pair_untouched i marks j st :
  (1 <= j)%nat →
  let r := compare_pair hashes (Py.dict_keys hashes) threshold i marks j st in
  disk r.2 !! q = disk st !! q
  ∧ (q ∉ deleted marks → ∀ marks', r.1 = Ok marks' → q ∉ deleted marks').
Proof using Hq.
  intros Hj. pose proof (Hq j Hj) as Hne.
  unfold compare_pair. run_monad. cbn.
  repeat (case_match; simplify_eq/=); try (split; [done|]; by intros ? ? [= <-]).
  all: split; [by rewrite lookup_delete_ne by congruence|].
  all: intros Hnot ? [= <-]; simpl; set_solver.
Qed.

Lemma for_each_untouched {A} (body : Marks → A → M Marks) (l : list A) :
  (∀ marks x st, x ∈ l →
     let r := body marks x st in
     disk r.2 !! q = disk st !! q
     ∧ (q ∉ deleted marks → ∀ marks', r.1 = Ok marks' → q ∉ deleted marks')) →
  ∀ marks st,
    let r := for_each l body marks st in
    disk r.2 !! q = disk st !! q
    ∧ (q ∉ deleted marks → ∀ marks', r.1 = Ok marks' → q ∉ deleted marks').
Proof.
  induction l as [|x l IH]; intros Hbody marks st; simpl.
  { split; [done|]. by intros ? ? [= <-]. }
  destruct (Hbody marks x st ltac:(by left)) as [Hd Hm]. unfold bind.
  destruct (body marks x st) as [[marks1|e] st1]; simpl in *.
  - destruct (IH ltac:(intros ? ? ? ?; apply Hbody; by right) marks1 st1)
      as [Hd' Hm'].
    split; [congruence|]. intros Hnot. apply Hm'.
    exact (Hm Hnot marks1 eq_refl).
  - split; [done|]. by intros ? ? [=].
Qed.

Lemma scan_from_untouched marks i st :
  let r := scan_from hashes (Py.dict_keys hashes) threshold marks i st in
  disk r.2 !! q = disk st !! q
  ∧ (q ∉ deleted marks → ∀ marks', r.1 = Ok marks' → q ∉ deleted marks').
Proof using Hq.
  unfold scan_from. cbv [bind of_option ret raise].
  destruct (Py.dict_keys hashes !! i) as [pi|]; simpl;
    [|split; [done|]; by intros ? ? [=]].
  case_bool_decide; simpl; [split; [done|]; by intros ? ? [= <-]|].
  destruct (for_each_untouched
              (compare_pair hashes (Py.dict_keys hashes) threshold i)
              (seq (i + 1) (length (Py.dict_keys hashes) - (i + 1)))
              ltac:(intros ? j ? Hj%elem_of_seq;
                    apply compare_pair_untouched; lia) marks st) as [Hd Hm].
  destruct (for_each (seq _ _) _ marks st) as [[marks1|e] st1]; simpl in *.
  - split; [done|]. intros Hnot ? [= <-]. simpl.
    exact (Hm Hnot marks1 eq_refl).
  - split; [done|]. by intros ? ? [=].
Qed.

Lemma scan_duplicates_untouched st :
  let r := scan_duplicates hashes threshold st in
  disk r.2 !! q = disk st !! q
  ∧ (∀ marks, r.1 = Ok marks → q ∉ deleted marks).
Proof using Hq.
  unfold scan_duplicates.
  destruct (for_each_untouched
              (scan_from hashes (Py.dict_keys hashes) threshold)
              (seq 0 (length (Py.dict_keys hashes)))
              ltac:(intros; apply scan_from_untouched)
              {| seen := ∅; deleted := ∅ |} st) as [Hd Hm].
  split; [done|]. intros marks. apply Hm. set_solver.
Qed.

End Untouched.

(** ** [removeDuplicateImages] *)

(** When the stage returns, what it dropped is what the rule deletes. *)
Lemma removeDuplicateImages_ok threshold st hashes st' :
  (getImageHashes st).1 = Ok hashes →
  removeDuplicateImages threshold st = (Ok tt, st') →
  ∃ gone : gset string,
    (∀ p, p ∈ gone ↔ spec_deleted threshold hashes p)
    ∧ founded_paths st' = filter (λ p, p ∉ gone) (founded_paths st)
    ∧ (∀ p, disk st' !! p
            = if bool_decide (p ∈ gone) then None else disk st !! p).
Proof.
  intros Hh. pose proof (getImageHashes_reads st) as Hreads.
  destruct (getImageHashes st) as [[hashes'|e] st1] eqn:Hrun; simpl in Hh, Hreads;
    [|done].
  injection Hh as ->. subst st1.
  destruct (getImageHashes_result _ _ _ Hrun) as (Hnd & Hshape & _).
  pose proof (scan_duplicates_sim hashes threshold st Hnd Hshape) as Hsim.
  pose proof (scan_duplicates_founded_paths hashes threshold st) as Hfp.
  unfold removeDuplicateImages. cbv [bind modify print]. rewrite Hrun.
  destruct (scan_duplicates hashes threshold st) as [[marks|e] st2];
    simpl in Hfp; [|done].
  intros [= <-]. destruct Hsim as (_ & Hdel & Hdisk).
  exists (deleted marks). split_and!; [done|by simpl; rewrite Hfp|done].
Qed.

(** The stage returns when hashing does and every file the rule deletes
    can be deleted. *)
Lemma removeDuplicateImages_returns threshold st hashes :
  (getImageHashes st).1 = Ok hashes →
  (∀ p, spec_deleted threshold hashes p → deletable st p = true) →
  ∃ st', removeDuplicateImages threshold st = (Ok tt, st').
Proof.
  intros Hh Hdel. pose proof (getImageHashes_reads st) as Hreads.
  destruct (getImageHashes st) as [[hashes'|e] st1] eqn:Hrun; simpl in Hh, Hreads;
    [|done].
  injection Hh as ->. subst st1.
  destruct (getImageHashes_result _ _ _ Hrun) as (Hnd & Hshape & _).
  pose proof (scan_duplicates_sim hashes threshold st Hnd Hshape) as Hsim.
  unfold removeDuplicateImages. cbv [bind modify print]. rewrite Hrun.
  destruct (scan_duplicates hashes threshold st) as [[marks|e] st2].
  - by eexists.
  - destruct Hsim as (p & Hp & Hno). rewrite (Hdel p Hp) in Hno. done.
Qed.

(** C1.  When hashing succeeds and [os.remove] succeeds on every file the
    rule deletes, [removeDuplicateImages] returns, and:
    - the paths it drops are exactly the paths of the indices that the
      greedy single-pass rule of the specification marks deleted;
    - the new [founded_paths] is the old one without them, in the old order;
    - their files, and only theirs, are gone from the disk;
    - the rule resolves every index of the hashed list, kept or deleted;
    - on a duplicate-free [founded_paths] the hashed list is the list of the
      image records in collection order. *)
Theorem greedy_duplicate_partition
    (threshold : Q) (st : State) (hashes : list (string * ImageHash)) :
  (getImageHashes st).1 = Ok hashes →
  (∀ p, spec_deleted threshold hashes p → deletable st p = true) →
  ∃ st' (gone : gset string),
    removeDuplicateImages threshold st = (Ok tt, st')
    ∧ (∀ p, p ∈ gone ↔ spec_deleted threshold hashes p)
    ∧ founded_paths st' = filter (λ p, p ∉ gone) (founded_paths st)
    ∧ (∀ p, disk st' !! p
            = if bool_decide (p ∈ gone) then None else disk st !! p)
    ∧ (∀ j, (j < length hashes)%nat →
            is_Some (spec_partition threshold hashes.*2 !! j))
    ∧ (NoDup (founded_paths st) →
       Py.dict_keys hashes = filter (λ p, is_image p) (founded_paths st)).
Proof.
  intros Hh Hdel.
  destruct (removeDuplicateImages_returns threshold st hashes Hh Hdel)
    as (st' & Hrun).
  destruct (removeDuplicateImages_ok threshold st hashes st' Hh Hrun)
    as (gone & Hgone & Hfp & Hdisk).
  exists st', gone. split_and!; try done.
  - intros j Hj. apply spec_partition_total. by rewrite length_fmap.
  - intros Hnd. destruct (getImageHashes st) as [[hashes'|e] st1] eqn:Hrun';
      simpl in Hh; [|done].
    injection Hh as ->.
    apply (getImageHashes_order (founded_paths st) [] st hashes st1); [|done].
    simpl. by apply NoDup_filter.
Qed.

Lemma greedy_duplicate_partition_witness :
  let hashes := [("C:\in\a.png", hash_of_bits 0); ("C:\in\b.png", hash_of_bits 15)] in
  ∃ st' (gone : gset string),
    removeDuplicateImages 90%Q world_near = (Ok tt, st')
    ∧ (∀ p, p ∈ gone ↔ spec_deleted 90%Q hashes p)
    ∧ founded_paths st' = filter (λ p, p ∉ gone) (founded_paths world_near)
    ∧ (∀ p, disk st' !! p
            = if bool_decide (p ∈ gone) then None else disk world_near !! p)
    ∧ (∀ j, (j < length hashes)%nat →
            is_Some (spec_partition 90%Q hashes.*2 !! j))
    ∧ (NoDup (founded_paths world_near) →
       Py.dict_keys hashes = filter (λ p, is_image p) (founded_paths world_near)).
Proof.
  apply (greedy_duplicate_partition 90%Q world_near).
  - vm_compute. reflexivity.
  - intros p (j & Hj & _). apply list_elem_of_lookup_2 in Hj. cbn in Hj.
    apply elem_of_cons in Hj as [->|Hj]; [vm_compute; reflexivity|].
    apply elem_of_cons in Hj as [->|Hj]; [vm_compute; reflexivity|].
    by apply elem_of_nil in Hj.
Defined.

(** What the stage does on [world_near] (no pair reaches 95) and on
    [world_chain] ([B] goes with [A]; [C] is compared with [A] only). *)
Example removeDuplicateImages_on_world_near :
  let r := removeDuplicateImages default_threshold world_near in
  r.1 = Ok tt ∧ founded_paths r.2 = founded_paths world_near
  ∧ stdout r.2 = [MsgDuplicatesRemoved 0].
Proof. vm_compute. done. Qed.

Example removeDuplicateImages_on_world_chain :
  let r := removeDuplicateImages default_threshold world_chain in
  r.1 = Ok tt ∧ founded_paths r.2 = ["C:\in\A.jpg"; "C:\in\C.jpg"]
  ∧ disk r.2 !! "C:\in\B.jpg" = None
  ∧ stdout r.2 = [MsgDuplicatesRemoved 1].
Proof. vm_compute. done. Qed.

(** C9.  Two runs of [removeDuplicateImages] that start from the same
    [founded_paths], compute the same fingerprints and use the same
    threshold, whatever else differs in their worlds, leave the same
    [founded_paths] and delete the same hashed files; both follow the rule
    of the specification, which reads nothing but the fingerprints, their
    order and the threshold. *)
Theorem duplicate_partition_deterministic
    (threshold : Q) (st1 st2 st1' st2' : State)
    (hashes : list (string * ImageHash)) :
  founded_paths st1 = founded_paths st2 →
  (getImageHashes st1).1 = Ok hashes →
  (getImageHashes st2).1 = Ok hashes →
  removeDuplicateImages threshold st1 = (Ok tt, st1') →
  removeDuplicateImages threshold st2 = (Ok tt, st2') →
  founded_paths st1' = founded_paths st2'
  ∧ (∀ p, p ∈ Py.dict_keys hashes →
          (disk st1' !! p = None ↔ disk st2' !! p = None)
          ∧ (disk st1' !! p = None ↔ spec_deleted threshold hashes p)).
Proof.
  intros Hfp Hh1 Hh2 Hrun1 Hrun2.
  destruct (removeDuplicateImages_ok _ _ _ _ Hh1 Hrun1) as (gone1 & Hg1 & Hfp1 & Hd1).
  destruct (removeDuplicateImages_ok _ _ _ _ Hh2 Hrun2) as (gone2 & Hg2 & Hfp2 & Hd2).
  assert (gone1 = gone2) as <-.
  { apply set_eq. intros p. by rewrite Hg1, Hg2. }
  split; [by rewrite Hfp1, Hfp2, Hfp|].
  intros p Hp.
  assert (Hon : ∀ st, (getImageHashes st).1 = Ok hashes → is_Some (disk st !! p)).
  { intros st Hh. destruct (getImageHashes st) as [[hashes'|e] st'] eqn:Hrun;
      simpl in Hh; [|done]. injection Hh as ->.
    by destruct (getImageHashes_result _ _ _ Hrun) as (_ & _ & Hkeys);
      destruct (Hkeys p Hp) as (_ & _ & ?). }
  assert (Hiff : ∀ st st', is_Some (disk st !! p) →
            (disk st' !! p = if bool_decide (p ∈ gone1) then None else disk st !! p) →
            disk st' !! p = None ↔ p ∈ gone1).
  { intros st st' [f Hf] ->. case_bool_decide; [done|]. rewrite Hf. done. }
  rewrite (Hiff st1 st1' (Hon st1 Hh1) (Hd1 p)).
  rewrite (Hiff st2 st2' (Hon st2 Hh2) (Hd2 p)).
  by rewrite Hg1.
Qed.

Lemma duplicate_partition_deterministic_witness :
  let hashes := [("C:\in\a.png", hash_of_bits 0); ("C:\in\b.png", hash_of_bits 15)] in
  let st1' := (removeDuplicateImages 90%Q world_near).2 in
  let st2' := (removeDuplicateImages 90%Q world_near_other).2 in
  founded_paths st1' = founded_paths st2'
  ∧ (∀ p, p ∈ Py.dict_keys hashes →
          (disk st1' !! p = None ↔ disk st2' !! p = None)
          ∧ (disk st1' !! p = None ↔ spec_deleted 90%Q hashes p)).
Proof.
  apply (duplicate_partition_deterministic 90%Q world_near world_near_other).
  - reflexivity.
  - vm_compute. reflexivity.
  - vm_compute. reflexivity.
  - vm_compute. reflexivity.
  - vm_compute. reflexivity.
Defined.

(** C10.  When hashing succeeds on a non-empty hashed list, the first
    hashed path is never deleted: whatever the fingerprints and the
    threshold, and whether the stage returns or stops on an exception, its
    file is on disk as before and it is still in [founded_paths]. *)
Theorem first_hashed_image_kept
    (threshold : Q) (st : State) (hashes : list (string * ImageHash))
    (p0 : string) (rest : list string) :
  (getImageHashes st).1 = Ok hashes →
  Py.dict_keys hashes = p0 :: rest →
  let r := removeDuplicateImages threshold st in
  is_Some (disk st !! p0)
  ∧ disk r.2 !! p0 = disk st !! p0
  ∧ p0 ∈ founded_paths r.2.
Proof.
  intros Hh Hkeys. pose proof (getImageHashes_reads st) as Hreads.
  destruct (getImageHashes st) as [[hashes'|e] st1] eqn:Hrun; simpl in Hh, Hreads;
    [|done].
  injection Hh as ->. subst st1.
  destruct (getImageHashes_result _ _ _ Hrun) as (Hnd & _ & Hin).
  destruct (Hin p0 ltac:(rewrite Hkeys; by left)) as (Hfp0 & _ & Hdisk0).
  assert (Hq : ∀ j, (1 <= j)%nat → Py.dict_keys hashes !! j ≠ Some p0).
  { intros j Hj Hlook.
    assert (H0 : Py.dict_keys hashes !! 0%nat = Some p0) by (by rewrite Hkeys).
    pose proof (NoDup_lookup _ _ _ _ Hnd Hlook H0). lia. }
  destruct (scan_duplicates_untouched hashes threshold p0 Hq st) as [Hd Hm].
  pose proof (scan_duplicates_founded_paths hashes threshold st) as Hfp.
  cbv zeta. unfold removeDuplicateImages. cbv [bind modify print]. rewrite Hrun.
  destruct (scan_duplicates hashes threshold st) as [[marks|e] st2];
    simpl in Hd, Hm, Hfp |- *.
  - split_and!; [done|done|].
    rewrite Hfp. apply list_elem_of_filter. split; [|done]. by apply Hm.
  - split_and!; [done|done|]. by rewrite Hfp.
Qed.

Lemma first_hashed_image_kept_witness :
  let r := removeDuplicateImages default_threshold world_chain in
  is_Some (disk world_chain !! "C:\in\A.jpg")
  ∧ disk r.2 !! "C:\in\A.jpg" = disk world_chain !! "C:\in\A.jpg"
  ∧ "C:\in\A.jpg" ∈ founded_paths r.2.
Proof.
  apply (first_hashed_image_kept default_threshold world_chain
           [("C:\in\A.jpg", hash_of_bits 0); ("C:\in\B.jpg", hash_of_bits 7);
            ("C:\in\C.jpg", hash_of_bits 63)]
           "C:\in\A.jpg" ["C:\in\B.jpg"; "C:\in\C.jpg"]).
  - vm_compute. reflexivity.
  - reflexivity.
Defined.

(** C3, as stated, fails: one image that PIL cannot open makes the whole
    stage raise; nothing is compared, and the exact copy of the first
    picture is neither deleted nor dropped. *)
Lemma unopenable_image_aborts_deduplication :
  let p := "C:\in\broken.jpg" in
  let r := removeDuplicateImages default_threshold world_broken in
  p ∈ founded_paths world_broken
  ∧ is_image p = true
  ∧ (Image_open p world_broken).1 = Raise UnidentifiedImageError
  ∧ r.1 = Raise UnidentifiedImageError
  ∧ founded_paths r.2 = founded_paths world_broken
  ∧ is_Some (disk r.2 !! "C:\in\copy.png").
Proof.
  split_and!; try (vm_compute; reflexivity).
  - apply (bool_decide_unpack _). vm_compute. exact I.
  - vm_compute. eauto.
Qed.

(** C3 (amended).  If an image record of [founded_paths] cannot be opened
    or decoded for hashing, [removeDuplicateImages] raises before any
    comparison or deletion: the state it leaves is the state it found, so
    the record (like every other) is still in [founded_paths] and on disk,
    but the stage does not complete. *)
Theorem unhashable_image_stops_stage (threshold : Q) (st : State) (p : string) :
  p ∈ founded_paths st →
  is_image p = true →
  phash_bits st p = None →
  ∃ e, removeDuplicateImages threshold st = (Raise e, st).
Proof.
  intros Hp Himg Hbad.
  destruct (getImageHashes_raises st p Hp Himg Hbad) as [e He].
  exists e. unfold removeDuplicateImages. cbv [bind]. by rewrite He.
Qed.

Lemma unhashable_image_stops_stage_witness :
  ∃ e, removeDuplicateImages default_threshold world_broken
       = (Raise e, world_broken).
Proof.
  apply (unhashable_image_stops_stage default_threshold world_broken
           "C:\in\broken.jpg").
  - apply (bool_decide_unpack _). vm_compute. exact I.
  - vm_compute. reflexivity.
  - vm_compute. reflexivity.
Defined.

(** A record that is not an image is never hashed, compared or deleted:
    it passes through the stage in every outcome. *)
Lemma non_image_passes_through threshold st q :
  q ∈ founded_paths st → is_image q = false →
  let r := removeDuplicateImages threshold st in
  q ∈ founded_paths r.2 ∧ disk r.2 !! q = disk st !! q.
Proof.
  intros Hq Himg. pose proof (getImageHashes_reads st) as Hreads.
  cbv zeta. unfold removeDuplicateImages. cbv [bind modify print].
  destruct (getImageHashes st) as [[hashes|e] st1] eqn:Hrun; simpl in Hreads;
    subst st1; [|done].
  destruct (getImageHashes_result _ _ _ Hrun) as (_ & _ & Hin).
  assert (Hnot : ∀ j, (1 <= j)%nat → Py.dict_keys hashes !! j ≠ Some q).
  { intros j _ Hj. apply list_elem_of_lookup_2 in Hj.
    destruct (Hin q Hj) as (_ & ? & _). congruence. }
  destruct (scan_duplicates_untouched hashes threshold q Hnot st) as [Hd Hm].
  pose proof (scan_duplicates_founded_paths hashes threshold st) as Hfp.
  destruct (scan_duplicates hashes threshold st) as [[marks|e] st2];
    simpl in Hd, Hm, Hfp |- *.
  - split; [|done]. rewrite Hfp. apply list_elem_of_filter. split; [|done].
    by apply Hm.
  - split; [|done]. by rewrite Hfp.
Qed.

(** ** [createFolders] *)

(** The loop over [founded_paths]: when every file is there, [file_dates]
    maps each path to the date of its file. *)
Lemma record_dates_loop st l : ∀ acc,
  (∀ p, p ∈ l → is_Some (disk st !! p)) →
  Forall (λ kv, ∃ f, disk st !! kv.1 = Some f ∧ kv.2 = f_date f) acc →
  ∃ file_dates,
    for_each l record_date acc st = (Ok file_dates, st)
    ∧ Forall (λ kv, ∃ f, disk st !! kv.1 = Some f ∧ kv.2 = f_date f) file_dates
    ∧ (∀ k, k ∈ Py.dict_keys file_dates ↔ k ∈ Py.dict_keys acc ∨ k ∈ l).
Proof.
  induction l as [|p l IH]; intros acc Hl Hacc.
  { exists acc. split_and!; [done|done|]. intros k. rewrite elem_of_nil. tauto. }
  destruct (Hl p ltac:(by left)) as [f Hf].
  destruct (IH (Py.dict_set acc p (f_date f))) as (fd & Hrun & Hfd & Hkeys).
  { intros q Hq. apply Hl. by right. }
  { apply (dict_set_entries (λ k v, ∃ f, disk st !! k = Some f ∧ v = f_date f));
      [done|by exists f]. }
  exists fd. split_and!; [|done|].
  - simpl. unfold bind, record_date at 1. run_monad. rewrite Hf. cbn. apply Hrun.
  - intros k. rewrite Hkeys, dict_set_keys, elem_of_cons.
    case_bool_decide as Hin; [|rewrite elem_of_app, list_elem_of_singleton].
    + split; [tauto|]. intros [?|[->|?]]; auto.
    + tauto.
Qed.

Lemma group_dates_snoc file_dates item :
  group_dates (file_dates ++ [item])
  = ((group_dates file_dates).1 ∪ {[year item.2]},
     <[year item.2 :=
         default ∅ ((group_dates file_dates).2 !! year item.2) ∪ {[month item.2]}]>
       (group_dates file_dates).2).
Proof. unfold group_dates. by rewrite foldl_app. Qed.

(** What the two collections hold after the grouping loop. *)
Lemma group_dates_spec file_dates :
  (∀ y, y ∈ (group_dates file_dates).1
        ↔ ∃ item, item ∈ file_dates ∧ year item.2 = y)
  ∧ (∀ y, y ∈ (group_dates file_dates).1
          ↔ is_Some ((group_dates file_dates).2 !! y))
  ∧ (∀ y m, m ∈ default ∅ ((group_dates file_dates).2 !! y)
            ↔ ∃ item, item ∈ file_dates ∧ year item.2 = y ∧ month item.2 = m).
Proof.
  induction file_dates as [|item l (IH1 & IH2 & IH3)] using rev_ind.
  { split_and!.
    - intros y. split; [set_solver|]. by intros (? & ?%elem_of_nil & _).
    - intros y. cbn. rewrite lookup_empty. split; [set_solver|by intros []].
    - intros y m. cbn. rewrite lookup_empty. cbn.
      split; [set_solver|]. by intros (? & ?%elem_of_nil & _). }
  rewrite group_dates_snoc. cbn [fst snd]. split_and!.
  - intros y. rewrite elem_of_union, elem_of_singleton, IH1. split.
    + intros [(it & Hit & Hy)| ->].
      * exists it. rewrite elem_of_app. auto.
      * exists item. rewrite elem_of_app, list_elem_of_singleton. auto.
    + intros (it & [Hit| ->%list_elem_of_singleton]%elem_of_app & Hy); eauto.
  - intros y. rewrite elem_of_union, elem_of_singleton, IH2.
    rewrite lookup_insert_is_Some'. split; intros [?|?]; auto.
  - intros y m. destruct (decide (year item.2 = y)) as [<-|Hne].
    + rewrite lookup_insert_eq. cbn [from_option id].
      rewrite elem_of_union, elem_of_singleton, IH3. split.
      * intros [(it & Hit & Hy & Hm)| ->].
        -- exists it. rewrite elem_of_app. auto.
        -- exists item. rewrite elem_of_app, list_elem_of_singleton. auto.
      * intros (it & [Hit| ->%list_elem_of_singleton]%elem_of_app & Hy & Hm);
          eauto.
    + rewrite lookup_insert_ne by done. rewrite IH3. split.
      * intros (it & Hit & Hy & Hm). exists it. rewrite elem_of_app. auto.
      * intros (it & [Hit| ->%list_elem_of_singleton]%elem_of_app & Hy & Hm);
          [eauto|done].
Qed.

Lemma make_month_dirs_loop yp yv ms : ∀ st,
  Forall (λ m, 1 <= m <= 12) ms →
  ∃ st',
    for_each ms (make_month_dirs yp yv) tt st = (Ok tt, st')
    ∧ made_dirs st'
      = made_dirs st
        ++ (ms ≫= λ m, [Py.path_join yp (month_name m);
                        Py.path_join yv (month_name m)]).
Proof.
  induction ms as [|m ms IH]; intros st Hms.
  { exists st. by rewrite app_nil_r. }
  apply Forall_cons in Hms as [Hm Hms].
  destruct (IH (add_dir (Py.path_join yv (month_name m))
                  (add_dir (Py.path_join yp (month_name m)) st)) Hms)
    as (st' & Hrun & Hdirs).
  exists st'. split.
  - simpl. unfold bind, make_month_dirs at 1. run_monad.
    rewrite (month_name_index m Hm). cbn. apply Hrun.
  - rewrite Hdirs. simpl. by rewrite <- !app_assoc.
Qed.

Lemma make_year_dirs_loop pd vd (mwf : gmap Z (gset Z)) ys : ∀ st,
  Forall (λ y, is_Some (mwf !! y)
               ∧ ∀ m, m ∈ default ∅ (mwf !! y) → 1 <= m <= 12) ys →
  ∃ st',
    for_each ys (make_year_dirs pd vd mwf) tt st = (Ok tt, st')
    ∧ made_dirs st'
      = made_dirs st
        ++ (ys ≫= λ y,
              [Py.path_join pd (Py.str y); Py.path_join vd (Py.str y)]
              ++ (sorted (default ∅ (mwf !! y)) ≫= λ m,
                    [Py.path_join (Py.path_join pd (Py.str y)) (month_name m);
                     Py.path_join (Py.path_join vd (Py.str y)) (month_name m)])).
Proof.
  induction ys as [|y ys IH]; intros st Hys.
  { exists st. by rewrite app_nil_r. }
  apply Forall_cons in Hys as [[[ms Hms] Hvalid] Hys].
  rewrite Hms in Hvalid. cbn [from_option id] in Hvalid.
  destruct (make_month_dirs_loop (Py.path_join pd (Py.str y))
              (Py.path_join vd (Py.str y)) (sorted ms)
              (add_dir (Py.path_join vd (Py.str y))
                 (add_dir (Py.path_join pd (Py.str y)) st)))
    as (st1 & Hrun1 & Hdirs1).
  { apply Forall_forall. intros m Hm%elem_of_sorted. by apply Hvalid. }
  destruct (IH st1 Hys) as (st' & Hrun & Hdirs).
  exists st'. split.
  - simpl. unfold bind, make_year_dirs at 1. run_monad.
    rewrite Hms. cbn. rewrite Hrun1. apply Hrun.
  - rewrite Hdirs, Hdirs1. rewrite bind_cons, Hms. simpl.
    by rewrite <- !app_assoc.
Qed.

Section Dirs.
Context (project_dir : string).

Local Abbreviation memories_dir := (Py.path_join project_dir "Memories").

Lemma photos_dir_form : photos_dir_of project_dir = memories_dir +:+ "\Photos".
Proof.
  unfold photos_dir_of. apply path_join_plain.
  - by apply path_join_nonempty.
  - by rewrite path_join_ends.
Qed.

Lemma videos_dir_form : videos_dir_of project_dir = memories_dir +:+ "\Videos".
Proof.
  unfold videos_dir_of. apply path_join_plain.
  - by apply path_join_nonempty.
  - by rewrite path_join_ends.
Qed.

(** The year and month folders under a root that does not end with a
    separator: the root, a backslash, the year, a backslash, the month. *)
Lemma year_dir_form root y :
  root ≠ "" → Py.ends_with_sep root = false →
  Py.path_join root (Py.str y) = root +:+ String "\" (Py.str y).
Proof. intros. by apply path_join_plain. Qed.

Lemma month_dir_form root y m :
  root ≠ "" → Py.ends_with_sep root = false → 0 <= y → 1 <= m <= 12 →
  month_dir root y m
  = root +:+ String "\" (Py.str y +:+ String "\" (month_name m)).
Proof.
  intros Hroot Hsep Hy Hm. unfold month_dir.
  destruct (str_year y Hy) as [Hfree Hne].
  rewrite (year_dir_form root y Hroot Hsep).
  rewrite path_join_plain.
  - by rewrite append_assoc, append_String.
  - by apply append_nonempty.
  - rewrite ends_with_sep_app by done.
    change (Py.ends_with_sep (String "\" (Py.str y))) with
      (match Py.str y with
       | EmptyString => true
       | String _ _ => Py.ends_with_sep (Py.str y)
       end).
    destruct (Py.str y) eqn:Hs; [done|]. by apply sep_free_ends.
Qed.

Lemma kind_roots root :
  root = photos_dir_of project_dir ∨ root = videos_dir_of project_dir →
  root ≠ "" ∧ Py.ends_with_sep root = false.
Proof.
  intros [->| ->]; rewrite ?photos_dir_form, ?videos_dir_form;
    (split; [by apply append_nonempty|by rewrite ends_with_sep_app]).
Qed.

(** A month folder is no kind folder, no year folder, and no month folder
    of another year, month or kind. *)
Lemma month_dir_distinct root y m :
  root = photos_dir_of project_dir ∨ root = videos_dir_of project_dir →
  0 <= y → 1 <= m <= 12 →
  ∀ root' y' m',
    root' = photos_dir_of project_dir ∨ root' = videos_dir_of project_dir →
    0 <= y' → 1 <= m' <= 12 →
    month_dir root y m ≠ root'
    ∧ month_dir root y m ≠ Py.path_join root' (Py.str y')
    ∧ (month_dir root y m = month_dir root' y' m' →
       root = root' ∧ y = y' ∧ m = m').
Proof.
  intros Hroot Hy Hm root' y' m' Hroot' Hy' Hm'.
  destruct (kind_roots root Hroot) as [Hne Hsep].
  destruct (kind_roots root' Hroot') as [Hne' Hsep'].
  destruct (str_year y Hy) as [Hfree _].
  destruct (str_year y' Hy') as [Hfree' _].
  destruct (month_name_facts m Hm) as [Hmf _].
  destruct (month_name_facts m' Hm') as [Hmf' _].
  rewrite (month_dir_form root y m), (month_dir_form root' y' m'),
    (year_dir_form root' y') by done.
  assert (Hsame : ∀ s s', root +:+ s = root' +:+ s' → root = root' ∧ s = s'
                         ∨ False).
  { intros s s'.
    destruct Hroot as [->| ->], Hroot' as [->| ->];
      rewrite ?photos_dir_form, ?videos_dir_form, !append_assoc;
      intros Heq%(inj (String.append _)).
    - left. split; [done|]. by apply (inj (String.append "\Photos")).
    - right. discriminate Heq.
    - right. discriminate Heq.
    - left. split; [done|]. by apply (inj (String.append "\Videos")). }
  split_and!.
  - intros Heq. rewrite <- (append_nil_r root') in Heq.
    by destruct (Hsame _ _ Heq) as [[_ ?]|?].
  - intros Heq. destruct (Hsame _ _ Heq) as [[_ [= Hs]]|[]].
    by apply sep_free_no_split in Hs.
  - intros Heq. destruct (Hsame _ _ Heq) as [[-> [= Hs]]|[]].
    destruct (split_unique _ _ _ _ Hfree Hfree' Hs) as [Hstr Hmonth].
    split_and!; [done|by apply str_inj|by apply month_name_inj].
Qed.

End Dirs.

(** The folders [createFolders] asks for when every record has its file,
    with a date in the range of [datetime]. *)
Lemma createFolders_dirs project_dir st :
  (∀ p, p ∈ founded_paths st →
        ∃ f, disk st !! p = Some f ∧ valid_date (f_date f)) →
  ∃ st' file_dates,
    createFolders project_dir st = (Ok tt, st')
    ∧ Forall (λ kv, ∃ f, disk st !! kv.1 = Some f ∧ kv.2 = f_date f) file_dates
    ∧ (∀ k, k ∈ Py.dict_keys file_dates ↔ k ∈ founded_paths st)
    ∧ made_dirs st'
      = made_dirs st
        ++ [photos_dir_of project_dir; videos_dir_of project_dir]
        ++ (sorted (group_dates file_dates).1 ≫= λ y,
              [Py.path_join (photos_dir_of project_dir) (Py.str y);
               Py.path_join (videos_dir_of project_dir) (Py.str y)]
              ++ (sorted (default ∅ ((group_dates file_dates).2 !! y)) ≫= λ m,
                    [month_dir (photos_dir_of project_dir) y m;
                     month_dir (videos_dir_of project_dir) y m])).
Proof.
  intros Hfiles.
  set (st2 := add_dir (videos_dir_of project_dir)
                (add_dir (photos_dir_of project_dir) st)).
  destruct (record_dates_loop st2 (founded_paths st) [])
    as (fd & Hrun & Hfd & Hkeys).
  { intros p Hp. destruct (Hfiles p Hp) as (f & Hf & _). by exists f. }
  { constructor. }
  assert (Hkeys' : ∀ k, k ∈ Py.dict_keys fd ↔ k ∈ founded_paths st).
  { intros k. rewrite Hkeys. cbn. rewrite elem_of_nil. tauto. }
  destruct (group_dates_spec fd) as (Hyears & Hdom & Hmonths).
  unfold createFolders. fold (photos_dir_of project_dir) (videos_dir_of project_dir).
  cbv [bind os_makedirs modify get]. fold st2.
  change (founded_paths st2) with (founded_paths st). rewrite Hrun.
  destruct fd as [|item fd'] eqn:Hfd_eq.
  { exists st2, []. split_and!; [done|done|done|].
    simpl. by rewrite <- app_assoc. }
  rewrite <- Hfd_eq in *. clear Hfd_eq.
  destruct (group_dates fd) as [years mwf] eqn:Hgroup. cbn [fst snd] in *.
  destruct (make_year_dirs_loop (photos_dir_of project_dir)
              (videos_dir_of project_dir) mwf (sorted years) st2)
    as (st3 & Hrun3 & Hdirs3).
  { apply Forall_forall. intros y Hy%elem_of_sorted. split; [by apply Hdom|].
    intros m (it & Hit & _ & <-)%Hmonths.
    rewrite Forall_forall in Hfd. destruct (Hfd it Hit) as (f & Hf & ->).
    assert (Hin : it.1 ∈ founded_paths st).
    { apply Hkeys'. apply list_elem_of_fmap. by exists it. }
    destruct (Hfiles _ Hin) as (f' & Hf' & Hvalid).
    change (disk st2) with (disk st) in Hf. rewrite Hf in Hf'.
    injection Hf' as <-. apply Hvalid. }
  eexists _, fd. split_and!.
  - cbv [ret print modify]. rewrite Hrun3. reflexivity.
  - done.
  - done.
  - simpl. rewrite Hdirs3, Hgroup. simpl. by rewrite <- !app_assoc.
Qed.

(** C6, as stated, fails: the only record of March 2023 is a photo and the
    only record of January 2024 is a clip, yet [createFolders] also makes
    [Videos\2023\March] and [Photos\2024\January]. *)
Lemma month_folder_without_record_of_kind :
  let r := createFolders "C:\proj" world_two_months in
  r.1 = Ok tt
  ∧ month_dir (videos_dir_of "C:\proj") 2023 3 = "C:\proj\Memories\Videos\2023\March"
  ∧ "C:\proj\Memories\Videos\2023\March" ∈ made_dirs r.2
  ∧ ¬ has_record_of_kind_in is_video world_two_months 2023 3
  ∧ "C:\proj\Memories\Photos\2024\January" ∈ made_dirs r.2
  ∧ ¬ has_record_of_kind_in is_image world_two_months 2024 1.
Proof.
  assert (Hpaths : ∀ p, p ∈ founded_paths world_two_months →
                        p = "C:\in\a.jpg" ∨ p = "C:\in\clip.mp4").
  { intros p Hp. cbn in Hp. rewrite !elem_of_cons, elem_of_nil in Hp. tauto. }
  split_and!.
  - vm_compute. reflexivity.
  - vm_compute. reflexivity.
  - apply (bool_decide_unpack _). vm_compute. exact I.
  - intros (p & f & Hp & Hkind & Hf & Hy & Hm).
    destruct (Hpaths p Hp) as [-> | ->].
    + vm_compute in Hkind. discriminate.
    + vm_compute in Hf. injection Hf as <-. vm_compute in Hy. discriminate.
  - apply (bool_decide_unpack _). vm_compute. exact I.
  - intros (p & f & Hp & Hkind & Hf & Hy & Hm).
    destruct (Hpaths p Hp) as [-> | ->].
    + vm_compute in Hf. injection Hf as <-. vm_compute in Hy. discriminate.
    + vm_compute in Hkind. discriminate.
Qed.

Lemma has_record_in_dates st file_dates y m :
  Forall (λ kv, ∃ f, disk st !! kv.1 = Some f ∧ kv.2 = f_date f) file_dates →
  (∀ k, k ∈ Py.dict_keys file_dates ↔ k ∈ founded_paths st) →
  has_record_in st y m
  ↔ ∃ item, item ∈ file_dates ∧ year item.2 = y ∧ month item.2 = m.
Proof.
  intros Hfd Hkeys. rewrite Forall_forall in Hfd. split.
  - intros (p & f & Hp & Hf & Hy & Hm).
    apply Hkeys, list_elem_of_fmap in Hp as (item & -> & Hitem).
    exists item. destruct (Hfd item Hitem) as (f' & Hf' & ->).
    rewrite Hf in Hf'. by injection Hf' as <-.
  - intros (item & Hitem & Hy & Hm).
    destruct (Hfd item Hitem) as (f & Hf & Hd). exists item.1, f.
    split_and!; [|done|by rewrite <- Hd|by rewrite <- Hd].
    apply Hkeys. apply list_elem_of_fmap. by exists item.
Qed.

(** C6 (amended).  Started with no folder made, on records whose files
    exist with dates in the range of [datetime], [createFolders] returns,
    and a year/month folder is made under [Photos] -- and likewise under
    [Videos] -- exactly for the (year, month) pairs in which at least one
    record of [founded_paths], of either kind, was last modified. *)
Theorem month_folders_exactly (project_dir : string) (st : State) :
  made_dirs st = [] →
  (∀ p, p ∈ founded_paths st →
        ∃ f, disk st !! p = Some f ∧ valid_date (f_date f)) →
  ∃ st',
    createFolders project_dir st = (Ok tt, st')
    ∧ ∀ y m, 1 <= y <= 9999 → 1 <= m <= 12 →
        (month_dir (photos_dir_of project_dir) y m ∈ made_dirs st'
         ↔ has_record_in st y m)
        ∧ (month_dir (videos_dir_of project_dir) y m ∈ made_dirs st'
           ↔ has_record_in st y m).
Proof.
  intros Hfresh Hfiles.
  destruct (createFolders_dirs project_dir st Hfiles)
    as (st' & fd & Hrun & Hfd & Hkeys & Hdirs).
  exists st'. split; [done|]. intros y m Hy Hm.
  destruct (group_dates_spec fd) as (Hyears & Hdom & Hmonths).
  rewrite (has_record_in_dates st fd y m Hfd Hkeys), <- Hmonths.
  assert (Hvalid : ∀ item, item ∈ fd → valid_date item.2).
  { intros item Hitem. rewrite Forall_forall in Hfd.
    destruct (Hfd item Hitem) as (f & Hf & ->).
    assert (Hin : item.1 ∈ founded_paths st).
    { apply Hkeys. apply list_elem_of_fmap. by exists item. }
    destruct (Hfiles _ Hin) as (f' & Hf' & Hv). rewrite Hf in Hf'.
    by injection Hf' as <-. }
  assert (Hyear_ok : ∀ y', y' ∈ (group_dates fd).1 → 0 <= y').
  { intros y' (item & Hitem & <-)%Hyears.
    destruct (Hvalid item Hitem) as [? _]. lia. }
  assert (Hmonth_ok : ∀ y' m', m' ∈ default ∅ ((group_dates fd).2 !! y') →
                               1 <= m' <= 12).
  { intros y' m' (item & Hitem & _ & <-)%Hmonths.
    by destruct (Hvalid item Hitem) as [_ ?]. }
  assert (Hmain : ∀ root,
    root = photos_dir_of project_dir ∨ root = videos_dir_of project_dir →
    month_dir root y m ∈ made_dirs st'
    ↔ m ∈ default ∅ ((group_dates fd).2 !! y)).
  { intros root Hroot. rewrite Hdirs, Hfresh. cbn [app].
    rewrite !elem_of_cons, list_elem_of_bind. split.
    - intros [Heq|[Heq|(y' & Hin & Hy')]].
      + exfalso.
        destruct (month_dir_distinct project_dir root y m Hroot ltac:(lia) Hm
          (photos_dir_of project_dir) 0 1 ltac:(by left) ltac:(lia) ltac:(lia))
          as (Hne & _ & _). done.
      + exfalso.
        destruct (month_dir_distinct project_dir root y m Hroot ltac:(lia) Hm
          (videos_dir_of project_dir) 0 1 ltac:(by right) ltac:(lia) ltac:(lia))
          as (Hne & _ & _). done.
      + apply elem_of_sorted in Hy'. pose proof (Hyear_ok y' Hy') as Hy0.
        rewrite !elem_of_cons, list_elem_of_bind in Hin.
        destruct Hin as [Heq|[Heq|(m' & Hin & Hm')]].
        * exfalso.
          destruct (month_dir_distinct project_dir root y m Hroot ltac:(lia) Hm
            (photos_dir_of project_dir) y' 1 ltac:(by left) Hy0 ltac:(lia))
            as (_ & Hne & _). done.
        * exfalso.
          destruct (month_dir_distinct project_dir root y m Hroot ltac:(lia) Hm
            (videos_dir_of project_dir) y' 1 ltac:(by right) Hy0 ltac:(lia))
            as (_ & Hne & _). done.
        * apply elem_of_sorted in Hm'. pose proof (Hmonth_ok y' m' Hm') as Hm0.
          rewrite !elem_of_cons, elem_of_nil in Hin.
          destruct Hin as [Heq|[Heq|[]]].
          -- destruct (month_dir_distinct project_dir root y m Hroot ltac:(lia) Hm
               (photos_dir_of project_dir) y' m' ltac:(by left) Hy0 Hm0)
               as (_ & _ & Hinj).
             by destruct (Hinj Heq) as (_ & -> & ->).
          -- destruct (month_dir_distinct project_dir root y m Hroot ltac:(lia) Hm
               (videos_dir_of project_dir) y' m' ltac:(by right) Hy0 Hm0)
               as (_ & _ & Hinj).
             by destruct (Hinj Heq) as (_ & -> & ->).
    - intros Hin. right. right. exists y. split.
      + rewrite !elem_of_cons, list_elem_of_bind. right. right.
        exists m. split; [|by apply elem_of_sorted].
        rewrite !elem_of_cons. destruct Hroot as [->| ->]; auto.
      + apply elem_of_sorted. apply Hyears.
        apply Hmonths in Hin as (item & Hitem & Hy' & _). by exists item. }
  split; apply Hmain; auto.
Qed.

Lemma month_folders_exactly_witness :
  ∃ st',
    createFolders "C:\proj" world_two_months = (Ok tt, st')
    ∧ ∀ y m, 1 <= y <= 9999 → 1 <= m <= 12 →
        (month_dir (photos_dir_of "C:\proj") y m ∈ made_dirs st'
         ↔ has_record_in world_two_months y m)
        ∧ (month_dir (videos_dir_of "C:\proj") y m ∈ made_dirs st'
           ↔ has_record_in world_two_months y m).
Proof.
  apply (month_folders_exactly "C:\proj" world_two_months).
  - reflexivity.
  - intros p Hp. cbn in Hp. rewrite !elem_of_cons, elem_of_nil in Hp.
    destruct Hp as [->|[->|[]]].
    + eexists. split; [vm_compute; reflexivity|]. vm_compute. intuition discriminate.
    + eexists. split; [vm_compute; reflexivity|]. vm_compute. intuition discriminate.
Defined.

Example createFolders_on_world_two_months :
  made_dirs (createFolders "C:\proj" world_two_months).2
  = ["C:\proj\Memories\Photos"; "C:\proj\Memories\Videos";
     "C:\proj\Memories\Photos\2023"; "C:\proj\Memories\Videos\2023";
     "C:\proj\Memories\Photos\2023\March"; "C:\proj\Memories\Videos\2023\March";
     "C:\proj\Memories\Photos\2024"; "C:\proj\Memories\Videos\2024";
     "C:\proj\Memories\Photos\2024\January";
     "C:\proj\Memories\Videos\2024\January"].
Proof. vm_compute. reflexivity. Qed.

(** * Further properties *)

(** ** What the rule guarantees *)

Section RuleFacts.
Context (threshold : Q) (fingerprints : list ImageHash).

Local Abbreviation rule_compare := (spec_compare threshold fingerprints).
Local Abbreviation rule_scan := (spec_scan threshold fingerprints).
Local Abbreviation alike := (similar threshold fingerprints).

(** The inner loop, index by index. *)
Lemma spec_inner_lookup i js : ∀ R k,
  foldl (rule_compare i) R js !! k
  = match R !! k with
    | Some v => Some v
    | None => if bool_decide (k ∈ js) && alike i k then Some Deleted else None
    end.
Proof.
  induction js as [|j js IH]; intros R k; simpl.
  { by destruct (R !! k). }
  rewrite IH. unfold spec_compare.
  destruct (decide (k = j)) as [->|Hne].
  - destruct (R !! j) eqn:Hj; [by rewrite Hj|].
    rewrite (bool_decide_eq_true_2 (j ∈ j :: js)) by (by left).
    destruct (alike i j) eqn:Hs.
    + by rewrite lookup_insert_eq.
    + rewrite Hj. by rewrite !andb_false_r.
  - replace (bool_decide (k ∈ j :: js)) with (bool_decide (k ∈ js)).
    2:{ apply bool_decide_ext. rewrite elem_of_cons. naive_solver. }
    destruct (R !! j) eqn:Hj; [done|].
    destruct (alike i j); [|done]. by rewrite lookup_insert_ne.
Qed.

Local Abbreviation rule_inv := (rule_inv threshold fingerprints).

Lemma rule_inv_scan m R :
  (m < length fingerprints)%nat →
  rule_inv m R → rule_inv (S m) (rule_scan R m).
Proof.
  intros Hm (Hkept & Hdom & Hdel & Hpair). unfold spec_scan.
  destruct (R !! m) as [v|] eqn:HRm.
  { split_and!; [|done|done|done]. intros k Hk. specialize (Hkept k Hk). lia. }
  set (js := seq (m + 1) (length fingerprints - (m + 1))).
  assert (Hjs : ∀ k, k ∈ js ↔ (m < k < length fingerprints)%nat).
  { intros k. unfold js. rewrite elem_of_seq. lia. }
  assert (Hlook : ∀ k, k ≠ m →
    <[m := Kept]> (foldl (rule_compare m) R js) !! k
    = match R !! k with
      | Some v => Some v
      | None => if bool_decide (k ∈ js) && alike m k then Some Deleted else None
      end).
  { intros k Hk. rewrite lookup_insert_ne by done. apply spec_inner_lookup. }
  assert (Hself : <[m := Kept]> (foldl (rule_compare m) R js) !! m = Some Kept)
    by apply lookup_insert_eq.
  split_and!.
  - intros k Hk. destruct (decide (k = m)) as [->|Hne]; [lia|].
    rewrite Hlook in Hk by done. destruct (R !! k) eqn:HRk.
    + simplify_eq. specialize (Hkept k HRk). lia.
    + by destruct (_ && _).
  - intros k [v Hk]. destruct (decide (k = m)) as [->|Hne]; [done|].
    rewrite Hlook in Hk by done. destruct (R !! k) eqn:HRk.
    + apply Hdom. by rewrite HRk.
    + destruct (bool_decide (k ∈ js)) eqn:Hin; [|done].
      apply bool_decide_eq_true_1, Hjs in Hin. lia.
  - intros j Hj. destruct (decide (j = m)) as [->|Hne]; [congruence|].
    rewrite Hlook in Hj by done. destruct (R !! j) eqn:HRj.
    + simplify_eq. destruct (Hdel j HRj) as (i & Hij & Hi & Hs).
      exists i. split_and!; [done| |done].
      rewrite Hlook by (intros ->; congruence). by rewrite Hi.
    + destruct (bool_decide (j ∈ js)) eqn:Hin; [|done].
      destruct (alike m j) eqn:Hs; [|done].
      apply bool_decide_eq_true_1, Hjs in Hin.
      exists m. split_and!; [lia|done|done].
  - intros i j Hi Hij. destruct (decide (j = m)) as [->|Hjm].
    { destruct (decide (i = m)) as [->|Him]; [lia|].
      rewrite Hlook in Hi by done. destruct (R !! i) eqn:HRi.
      - simplify_eq. destruct (Hpair i m HRi Hij) as [?|?]; [congruence|by right].
      - by destruct (_ && _). }
    rewrite (Hlook j Hjm). destruct (decide (i = m)) as [->|Him].
    + destruct (R !! j) as [[]|] eqn:HRj.
      * specialize (Hkept j HRj). lia.
      * by left.
      * rewrite bool_decide_eq_true_2 by (apply Hjs; lia). simpl.
        destruct (alike m j); [by left|by right].
    + rewrite Hlook in Hi by done. destruct (R !! i) eqn:HRi.
      * simplify_eq. destruct (Hpair i j HRi Hij) as [->|?]; [by left|by right].
      * by destruct (_ && _).
Qed.

Lemma rule_inv_prefix m :
  (m <= length fingerprints)%nat →
  rule_inv m (foldl rule_scan ∅ (seq 0 m)).
Proof.
  induction m as [|m IH]; intros Hm.
  { simpl. split_and!; intros *; by rewrite ?lookup_empty; try intros [? ?]. }
  rewrite seq_S, foldl_app. simpl. apply rule_inv_scan; [lia|]. apply IH. lia.
Qed.

Lemma rule_inv_partition :
  rule_inv (length fingerprints) (spec_partition threshold fingerprints).
Proof. by apply rule_inv_prefix. Qed.

(** Two kept indices are never alike; a deleted one is alike to a kept
    index before it. *)
Lemma kept_apart i j :
  spec_partition threshold fingerprints !! i = Some Kept →
  spec_partition threshold fingerprints !! j = Some Kept →
  (i < j)%nat → alike i j = false.
Proof.
  intros Hi Hj Hij. destruct rule_inv_partition as (Hkept & _ & _ & Hpair).
  destruct (Hpair i j Hi) as [?|?]; [|congruence|done].
  specialize (Hkept j Hj). lia.
Qed.

Lemma deleted_has_keeper j :
  spec_partition threshold fingerprints !! j = Some Deleted →
  ∃ i, (i < j)%nat ∧ spec_partition threshold fingerprints !! i = Some Kept
       ∧ alike i j = true.
Proof. intros Hj. destruct rule_inv_partition as (_ & _ & Hdel & _). eauto. Qed.

End RuleFacts.

(** ** Dictionaries, once more *)

Lemma dict_get_set {V} (d : list (string * V)) k v k' :
  Py.dict_get (Py.dict_set d k v) k'
  = if decide (k = k') then Some v else Py.dict_get d k'.
Proof.
  induction d as [|[k0 v0] d IH]; simpl.
  - destruct (String.eqb_spec k k'); by case_decide.
  - destruct (String.eqb_spec k0 k) as [->|Hk0]; simpl.
    + destruct (String.eqb_spec k k'); by case_decide.
    + destruct (String.eqb_spec k0 k') as [->|Hk']; [|done].
      by rewrite decide_False by done.
Qed.

Lemma dict_get_index {V} (d : list (string * V)) k v :
  Py.dict_get d k = Some v → ∃ j, d !! j = Some (k, v).
Proof.
  induction d as [|[k0 v0] d IH]; simpl; [done|].
  destruct (String.eqb_spec k0 k) as [->|Hk0].
  - intros [= ->]. by exists 0%nat.
  - intros (j & Hj)%IH. by exists (S j).
Qed.

Lemma dict_keys_lookup {V} (d : list (string * V)) j k :
  Py.dict_keys d !! j = Some k ↔ ∃ v, d !! j = Some (k, v).
Proof.
  unfold Py.dict_keys. rewrite list_lookup_fmap. split.
  - destruct (d !! j) as [[k' v]|]; simpl; [|done]. intros [= ->]. by exists v.
  - by intros (v & ->).
Qed.

Lemma dict_values_lookup {V} (d : list (string * V)) j k v :
  d !! j = Some (k, v) → d.*2 !! j = Some v.
Proof. intros H. by rewrite list_lookup_fmap, H. Qed.

Lemma dict_keys_inj {V} (d : list (string * V)) i j k :
  NoDup (Py.dict_keys d) →
  Py.dict_keys d !! i = Some k → Py.dict_keys d !! j = Some k → i = j.
Proof. intros Hnd Hi Hj. by eapply NoDup_lookup. Qed.

(** ** The score between two fingerprints *)

Lemma hamming_sym (a : list bool) : ∀ b, hamming a b = hamming b a.
Proof.
  unfold hamming. induction a as [|x a IH]; intros [|y b]; simpl; try done.
  rewrite !filter_cons. simpl.
  destruct (decide (x ≠ y)), (decide (y ≠ x)); simpl; try congruence;
    by rewrite IH.
Qed.

Lemma hamming_self (a : list bool) : hamming a a = 0%nat.
Proof.
  unfold hamming. induction a as [|x a IH]; simpl; [done|].
  rewrite filter_cons. simpl. by rewrite decide_False by (by intros []).
Qed.

Lemma hamming_le (a b : list bool) : (hamming a b <= length a)%nat.
Proof.
  unfold hamming. etrans; [apply length_filter|].
  rewrite length_zip_with. apply Nat.le_min_l.
Qed.

Lemma score_range d : (d <= 64)%nat → (0 <= score d)%Q ∧ (score d <= 100)%Q.
Proof.
  intros Hd. unfold score, Qle, Qminus, Qplus, Qmult, Qdiv, Qinv, Qopp, inject_Z.
  simpl. lia.
Qed.

Lemma score_zero : (score 0 == 100)%Q.
Proof. reflexivity. Qed.

Lemma score_full d : (score d == 100)%Q → d = 0%nat.
Proof.
  unfold score, Qeq, Qminus, Qplus, Qmult, Qdiv, Qinv, Qopp, inject_Z.
  simpl. lia.
Qed.

Lemma similarity_phash_sym (a b : Z) :
  similarity (hash_of_bits a) (hash_of_bits b)
  = similarity (hash_of_bits b) (hash_of_bits a).
Proof. rewrite !similarity_phash. by rewrite hamming_sym. Qed.
(** ** What a completed run of [removeDuplicateImages] guarantees *)

Lemma similar_on_hashes threshold (hashes : list (string * ImageHash))
    i j p q hp hq :
  hashes !! i = Some (p, hp) → hashes !! j = Some (q, hq) →
  similar threshold hashes.*2 i j
  = match similarity hp hq with
    | Ok s => Qle_bool threshold s
    | Raise _ => false
    end.
Proof.
  intros Hi Hj. unfold similar.
  by rewrite (dict_values_lookup _ _ _ _ Hi), (dict_values_lookup _ _ _ _ Hj).
Qed.

Lemma Qle_bool_false (x y : Q) : Qle_bool x y = false ↔ (y < x)%Q.
Proof.
  rewrite <- not_true_iff_false, Qle_bool_iff. split.
  - apply Qnot_le_lt.
  - apply Qlt_not_le.
Qed.

Section Completed.
Context (threshold : Q) (st st' : State) (hashes : list (string * ImageHash)).
Hypothesis Hh : (getImageHashes st).1 = Ok hashes.
Hypothesis Hrun : removeDuplicateImages threshold st = (Ok tt, st').

Local Abbreviation verdicts := (spec_partition threshold hashes.*2).

Lemma hashes_facts :
  NoDup (Py.dict_keys hashes)
  ∧ Forall (λ kv, ∃ bits, kv.2 = hash_of_bits bits) hashes
  ∧ (∀ p, p ∈ Py.dict_keys hashes →
          p ∈ founded_paths st ∧ is_image p = true ∧ is_Some (disk st !! p)).
Proof using Hh.
  destruct (getImageHashes st) as [[hashes'|e] st1] eqn:Hrun'; simpl in Hh; [|done].
  injection Hh as ->. by eapply getImageHashes_result.
Qed.

Lemma survivor_iff p :
  p ∈ founded_paths st' ↔ p ∈ founded_paths st ∧ ¬ spec_deleted threshold hashes p.
Proof using Hh Hrun.
  destruct (removeDuplicateImages_ok _ _ _ _ Hh Hrun) as (gone & Hgone & Hfp & _).
  rewrite Hfp, list_elem_of_filter, Hgone. tauto.
Qed.

Lemma survivor_kept i p :
  Py.dict_keys hashes !! i = Some p → p ∈ founded_paths st' →
  verdicts !! i = Some Kept.
Proof using Hh Hrun.
  intros Hi [_ Hnot]%survivor_iff.
  destruct (spec_partition_total threshold hashes.*2 i) as [[] Hv]; [|done|].
  - rewrite length_fmap. apply lookup_lt_Some in Hi.
    unfold Py.dict_keys in Hi. by rewrite length_fmap in Hi.
  - destruct Hnot. by exists i.
Qed.

Lemma kept_survives i p :
  Py.dict_keys hashes !! i = Some p → verdicts !! i = Some Kept →
  p ∈ founded_paths st'.
Proof using Hh Hrun.
  intros Hi Hv. destruct hashes_facts as (Hnd & _ & Hkeys).
  apply survivor_iff. split.
  - apply Hkeys. by eapply list_elem_of_lookup_2.
  - intros (j & Hj & Hdel).
    rewrite (dict_keys_inj hashes i j p Hnd Hi Hj) in Hv. congruence.
Qed.

Lemma hashed_score j p hp :
  hashes !! j = Some (p, hp) → ∃ bits, hp = hash_of_bits bits.
Proof using Hh.
  intros Hj. destruct hashes_facts as (_ & Hshape & _).
  rewrite Forall_lookup in Hshape. by apply (Hshape j (p, hp)).
Qed.

(** Two records that are both left are below the threshold. *)
Lemma survivors_apart p q hp hq :
  p ∈ founded_paths st' → q ∈ founded_paths st' → p ≠ q →
  Py.dict_get hashes p = Some hp → Py.dict_get hashes q = Some hq →
  ∃ s, similarity hp hq = Ok s ∧ (s < threshold)%Q.
Proof using Hh Hrun.
  intros Hp Hq Hne (i & Hi)%dict_get_index (j & Hj)%dict_get_index.
  destruct (hashed_score i p hp Hi) as (a & ->).
  destruct (hashed_score j q hq Hj) as (b & ->).
  assert (Hki : Py.dict_keys hashes !! i = Some p)
    by (apply dict_keys_lookup; eauto).
  assert (Hkj : Py.dict_keys hashes !! j = Some q)
    by (apply dict_keys_lookup; eauto).
  pose proof (survivor_kept i p Hki Hp) as Hvi.
  pose proof (survivor_kept j q Hkj Hq) as Hvj.
  rewrite similarity_phash. eexists. split; [done|].
  apply Qle_bool_false.
  destruct (Nat.lt_total i j) as [Hlt|[->|Hlt]].
  - pose proof (kept_apart threshold hashes.*2 i j Hvi Hvj Hlt) as Hs.
    by rewrite (similar_on_hashes _ _ _ _ _ _ _ _ Hi Hj), similarity_phash in Hs.
  - congruence.
  - pose proof (kept_apart threshold hashes.*2 j i Hvj Hvi Hlt) as Hs.
    rewrite (similar_on_hashes _ _ _ _ _ _ _ _ Hj Hi), similarity_phash in Hs.
    by rewrite hamming_sym.
Qed.

(** A record that was dropped has a twin that is left, earlier in the
    hashed list. *)
Lemma dropped_twin p :
  p ∈ founded_paths st → p ∉ founded_paths st' →
  ∃ i j q hq hp s,
    (i < j)%nat ∧ hashes !! i = Some (q, hq) ∧ hashes !! j = Some (p, hp)
    ∧ q ∈ founded_paths st'
    ∧ similarity hq hp = Ok s ∧ (threshold <= s)%Q.
Proof using Hh Hrun.
  intros Hp Hgone.
  assert (Hdel : spec_deleted threshold hashes p).
  { destruct (removeDuplicateImages_ok _ _ _ _ Hh Hrun) as (gone & Hin & Hfp & _).
    apply Hin. destruct (decide (p ∈ gone)) as [?|Hn]; [done|].
    destruct Hgone. rewrite Hfp. by apply list_elem_of_filter. }
  destruct Hdel as (j & Hj & Hv).
  destruct (deleted_has_keeper threshold hashes.*2 j Hv) as (i & Hij & Hvi & Hs).
  apply dict_keys_lookup in Hj as (hp & Hj).
  assert (Hi : ∃ q hq, hashes !! i = Some (q, hq)).
  { destruct (hashes !! i) as [[q hq]|] eqn:E; [eauto|].
    apply lookup_ge_None in E. apply lookup_lt_Some in Hj. lia. }
  destruct Hi as (q & hq & Hi).
  rewrite (similar_on_hashes _ _ _ _ _ _ _ _ Hi Hj) in Hs.
  destruct (similarity hq hp) as [s|] eqn:Hsim; [|done].
  exists i, j, q, hq, hp, s. split_and!; try done.
  - apply (kept_survives i); [|done]. apply dict_keys_lookup. eauto.
  - by apply Qle_bool_iff.
Qed.

End Completed.
(** ** [getImageHashes], in full *)

Lemma getImageHashes_loop_total st l : ∀ acc,
  (∀ p, p ∈ l → is_image p = true → is_Some (phash_bits st p)) →
  ∃ hashes,
    for_each l getImageHashes_step acc st = (Ok hashes, st)
    ∧ ∀ p, Py.dict_get hashes p
           = if bool_decide (p ∈ l ∧ is_image p = true)
             then hash_of_bits <$> phash_bits st p
             else Py.dict_get acc p.
Proof.
  induction l as [|x l IH]; intros acc Hok.
  { exists acc. split; [done|]. intros p.
    rewrite bool_decide_eq_false_2; [done|]. by intros [?%elem_of_nil _]. }
  simpl for_each.
  assert (Hstep : ∃ acc',
    getImageHashes_step acc x st = (Ok acc', st)
    ∧ ∀ p, Py.dict_get acc' p
           = if bool_decide (p = x ∧ is_image p = true)
             then hash_of_bits <$> phash_bits st p
             else Py.dict_get acc p).
  { unfold getImageHashes_step. fold (is_image x).
    destruct (is_image x) eqn:Himg.
    - destruct (Hok x ltac:(by left) Himg) as [bits Hbits].
      exists (Py.dict_set acc x (hash_of_bits bits)). split.
      + run_monad. unfold phash, phash_bits in *. cbn.
        destruct (disk st !! x) as [f|]; cbn in *; [|done].
        destruct (f_image f) as [img|]; cbn in *; [|done].
        by rewrite Hbits.
      + intros p. rewrite dict_get_set. case_decide as Hp.
        * subst p. rewrite bool_decide_eq_true_2 by done. by rewrite Hbits.
        * rewrite bool_decide_eq_false_2; [done|]. by intros [-> _].
    - exists acc. split; [done|]. intros p.
      rewrite bool_decide_eq_false_2; [done|]. intros [-> ?]. congruence. }
  destruct Hstep as (acc' & Hstep & Hget').
  destruct (IH acc') as (hashes & Hloop & Hget).
  { intros p Hp. apply Hok. by right. }
  exists hashes. split; [by rewrite (bind_ok _ _ _ _ _ Hstep)|].
  intros p. rewrite Hget, Hget'.
  destruct (decide (p ∈ l ∧ is_image p = true)) as [[Hin Himg]|Hnot].
  - rewrite !bool_decide_eq_true_2; [done| |done]. split; [by right|done].
  - rewrite (bool_decide_eq_false_2 _ Hnot).
    destruct (decide (p = x ∧ is_image p = true)) as [[-> Himg]|Hnx].
    + rewrite !bool_decide_eq_true_2; [done| |done]. split; [by left|done].
    + rewrite !bool_decide_eq_false_2; [done| |done].
      intros [[->|Hin]%elem_of_cons Himg]; tauto.
Qed.

Lemma getImageHashes_total st :
  (∀ p, p ∈ founded_paths st → is_image p = true → is_Some (phash_bits st p)) →
  ∃ hashes,
    getImageHashes st = (Ok hashes, st)
    ∧ ∀ p, Py.dict_get hashes p
           = if bool_decide (p ∈ founded_paths st ∧ is_image p = true)
             then hash_of_bits <$> phash_bits st p
             else None.
Proof.
  intros Hok.
  destruct (getImageHashes_loop_total st (founded_paths st) [] Hok)
    as (hashes & Hloop & Hget).
  exists hashes. split; [|done].
  unfold getImageHashes. cbv [bind get]. done.
Qed.

Lemma getImageHashes_hashable st hashes :
  (getImageHashes st).1 = Ok hashes →
  ∀ p, p ∈ founded_paths st → is_image p = true → is_Some (phash_bits st p).
Proof.
  intros Hh p Hp Himg. destruct (phash_bits st p) as [bits|] eqn:Hbits; [done|].
  destruct (getImageHashes_raises st p Hp Himg Hbits) as (e & Hraise).
  rewrite Hraise in Hh. done.
Qed.

Lemma getImageHashes_get st hashes :
  (getImageHashes st).1 = Ok hashes →
  ∀ p, Py.dict_get hashes p
       = if bool_decide (p ∈ founded_paths st ∧ is_image p = true)
         then hash_of_bits <$> phash_bits st p
         else None.
Proof.
  intros Hh.
  destruct (getImageHashes_total st (getImageHashes_hashable st hashes Hh))
    as (hashes' & Hrun & Hget).
  rewrite Hrun in Hh. simpl in Hh. by injection Hh as ->.
Qed.

Lemma phash_bits_local st st' p :
  disk st' !! p = disk st !! p → phash_bits st' p = phash_bits st p.
Proof. unfold phash_bits. by intros ->. Qed.

(** ** A second run of [removeDuplicateImages] *)

Lemma removeDuplicateImages_hashed threshold st st' :
  removeDuplicateImages threshold st = (Ok tt, st') →
  ∃ hashes, (getImageHashes st).1 = Ok hashes.
Proof.
  unfold removeDuplicateImages. cbv [bind].
  destruct (getImageHashes st) as [[hashes|e] st1]; [by eexists|done].
Qed.

Lemma second_run_finds_nothing threshold st st' hashes' :
  removeDuplicateImages threshold st = (Ok tt, st') →
  (getImageHashes st').1 = Ok hashes' →
  ∀ p, ¬ spec_deleted threshold hashes' p.
Proof.
  intros Hrun Hh' p (j & Hj & Hv).
  destruct (removeDuplicateImages_hashed _ _ _ Hrun) as (hashes & Hh).
  destruct (removeDuplicateImages_ok _ _ _ _ Hh Hrun) as (gone & Hgone & Hfp & Hdisk).
  assert (Hfacts' : NoDup (Py.dict_keys hashes')
    ∧ ∀ q, q ∈ Py.dict_keys hashes' → q ∈ founded_paths st' ∧ is_image q = true).
  { destruct (getImageHashes st') as [[h|e] s1] eqn:E; simpl in Hh'; [|done].
    injection Hh' as ->. destruct (getImageHashes_result _ _ _ E) as (? & _ & Hk).
    split; [done|]. intros q Hq. by destruct (Hk q Hq) as (? & ? & _). }
  destruct Hfacts' as (Hnd' & Hkeys').
  assert (Hsame : ∀ q, q ∈ Py.dict_keys hashes' →
            Py.dict_get hashes q = Py.dict_get hashes' q).
  { intros q Hq. destruct (Hkeys' q Hq) as (Hq' & Himg).
    rewrite (getImageHashes_get _ _ Hh), (getImageHashes_get _ _ Hh').
    assert (Hq0 : q ∈ founded_paths st ∧ q ∉ gone)
      by (by rewrite Hfp, list_elem_of_filter in Hq'; destruct Hq').
    destruct Hq0 as (Hq0 & Hng).
    rewrite !bool_decide_eq_true_2 by done.
    f_equal. symmetry. apply phash_bits_local.
    by rewrite Hdisk, bool_decide_eq_false_2. }
  destruct (deleted_has_keeper threshold hashes'.*2 j Hv) as (i & Hij & Hvi & Hs).
  apply dict_keys_lookup in Hj as (hp & Hj).
  assert (Hi : ∃ q hq, hashes' !! i = Some (q, hq)).
  { destruct (hashes' !! i) as [[q hq]|] eqn:E; [eauto|].
    apply lookup_ge_None in E. apply lookup_lt_Some in Hj. lia. }
  destruct Hi as (q & hq & Hi).
  rewrite (similar_on_hashes _ _ _ _ _ _ _ _ Hi Hj) in Hs.
  assert (Hkp : Py.dict_keys hashes' !! j = Some p) by (apply dict_keys_lookup; eauto).
  assert (Hkq : Py.dict_keys hashes' !! i = Some q) by (apply dict_keys_lookup; eauto).
  assert (Hpq : q ≠ p).
  { intros ->. pose proof (dict_keys_inj hashes' i j p Hnd' Hkq Hkp). lia. }
  pose proof (list_elem_of_lookup_2 _ _ _ Hkp) as Hp_in.
  pose proof (list_elem_of_lookup_2 _ _ _ Hkq) as Hq_in.
  destruct (survivors_apart threshold st st' hashes Hh Hrun q p hq hp)
    as (s & Hsim & Hlt); try done.
  - by apply Hkeys'.
  - by apply Hkeys'.
  - rewrite (Hsame q Hq_in). by eapply dict_get_lookup.
  - rewrite (Hsame p Hp_in). by eapply dict_get_lookup.
  - rewrite Hsim in Hs. apply Qle_bool_iff in Hs.
    by apply Qlt_not_le in Hlt.
Qed.

Lemma second_run_hashes threshold st st' :
  removeDuplicateImages threshold st = (Ok tt, st') →
  ∃ hashes', getImageHashes st' = (Ok hashes', st').
Proof.
  intros Hrun.
  destruct (removeDuplicateImages_hashed _ _ _ Hrun) as (hashes & Hh).
  destruct (removeDuplicateImages_ok _ _ _ _ Hh Hrun) as (gone & Hgone & Hfp & Hdisk).
  destruct (getImageHashes_total st') as (hashes' & Hrun' & _); [|by eexists].
  intros p Hp Himg. rewrite Hfp, list_elem_of_filter in Hp. destruct Hp as [Hng Hp].
  rewrite (phash_bits_local st st' p) by (by rewrite Hdisk, bool_decide_eq_false_2).
  by eapply getImageHashes_hashable.
Qed.
(** A record that is left has the file it had, and its fingerprint is in
    the dictionary of the run. *)
Lemma survivor_hash threshold st st' hashes p a :
  (getImageHashes st).1 = Ok hashes →
  removeDuplicateImages threshold st = (Ok tt, st') →
  p ∈ founded_paths st' → is_image p = true → phash_bits st' p = Some a →
  Py.dict_get hashes p = Some (hash_of_bits a).
Proof.
  intros Hh Hrun Hp Himg Ha.
  destruct (removeDuplicateImages_ok _ _ _ _ Hh Hrun) as (gone & _ & Hfp & Hdisk).
  rewrite Hfp, list_elem_of_filter in Hp. destruct Hp as [Hng Hp].
  rewrite (getImageHashes_get _ _ Hh), bool_decide_eq_true_2 by done.
  rewrite <- (phash_bits_local st st' p), Ha; [done|].
  by rewrite Hdisk, bool_decide_eq_false_2.
Qed.

(** X1.  After a completed run of [removeDuplicateImages], any two distinct
    image records that are left score strictly below the threshold: no pair
    of near-duplicates survives. *)
Theorem survivors_pairwise_dissimilar
    (threshold : Q) (st st' : State) (p q : string) (a b : Z) :
  removeDuplicateImages threshold st = (Ok tt, st') →
  p ∈ founded_paths st' → q ∈ founded_paths st' → p ≠ q →
  is_image p = true → is_image q = true →
  phash_bits st' p = Some a → phash_bits st' q = Some b →
  ∃ s, similarity (hash_of_bits a) (hash_of_bits b) = Ok s ∧ (s < threshold)%Q.
Proof.
  intros Hrun Hp Hq Hne Hip Hiq Ha Hb.
  destruct (removeDuplicateImages_hashed _ _ _ Hrun) as (hashes & Hh).
  apply (survivors_apart threshold st st' hashes Hh Hrun p q); try done.
  - by eapply survivor_hash.
  - by eapply survivor_hash.
Qed.

Lemma survivors_pairwise_dissimilar_witness :
  ∃ s, similarity (hash_of_bits 0) (hash_of_bits 63) = Ok s
       ∧ (s < default_threshold)%Q.
Proof.
  apply (survivors_pairwise_dissimilar default_threshold world_chain
           (removeDuplicateImages default_threshold world_chain).2
           "C:\in\A.jpg" "C:\in\C.jpg" 0 63).
  - vm_compute. reflexivity.
  - apply (bool_decide_unpack _). vm_compute. exact I.
  - apply (bool_decide_unpack _). vm_compute. exact I.
  - apply (bool_decide_unpack _). vm_compute. exact I.
  - vm_compute. reflexivity.
  - vm_compute. reflexivity.
  - vm_compute. reflexivity.
  - vm_compute. reflexivity.
Defined.

(** X2.  A record that a completed run of [removeDuplicateImages] drops is
    an image whose file is gone, and a different image record that is left
    scores at least the threshold against it: nothing is removed without a
    surviving near-duplicate. *)
Theorem dropped_has_surviving_twin
    (threshold : Q) (st st' : State) (p : string) :
  removeDuplicateImages threshold st = (Ok tt, st') →
  p ∈ founded_paths st → p ∉ founded_paths st' →
  is_image p = true
  ∧ disk st' !! p = None
  ∧ ∃ q a b s,
      q ∈ founded_paths st' ∧ q ≠ p
      ∧ phash_bits st' q = Some a ∧ phash_bits st p = Some b
      ∧ similarity (hash_of_bits a) (hash_of_bits b) = Ok s
      ∧ (threshold <= s)%Q.
Proof.
  intros Hrun Hp Hgone.
  destruct (removeDuplicateImages_hashed _ _ _ Hrun) as (hashes & Hh).
  destruct (removeDuplicateImages_ok _ _ _ _ Hh Hrun) as (gone & Hin & Hfp & Hdisk).
  destruct (hashes_facts st hashes Hh) as (Hnd & _ & Hkeys).
  destruct (dropped_twin threshold st st' hashes Hh Hrun p Hp Hgone)
    as (i & j & q & hq & hp & s & Hij & Hi & Hj & Hq & Hs & Hle).
  assert (Hkp : Py.dict_keys hashes !! j = Some p) by (apply dict_keys_lookup; eauto).
  assert (Hkq : Py.dict_keys hashes !! i = Some q) by (apply dict_keys_lookup; eauto).
  destruct (Hkeys p (list_elem_of_lookup_2 _ _ _ Hkp)) as (_ & Himg & _).
  destruct (Hkeys q (list_elem_of_lookup_2 _ _ _ Hkq)) as (Hq0 & Himgq & _).
  assert (Hpg : p ∈ gone).
  { destruct (decide (p ∈ gone)) as [?|Hn]; [done|].
    destruct Hgone. rewrite Hfp. by apply list_elem_of_filter. }
  assert (Hqg : q ∉ gone).
  { rewrite Hfp, list_elem_of_filter in Hq. by destruct Hq. }
  split_and!; [done|by rewrite Hdisk, bool_decide_eq_true_2|].
  pose proof (dict_get_lookup hashes i q hq Hnd Hi) as Hgq.
  pose proof (dict_get_lookup hashes j p hp Hnd Hj) as Hgp.
  rewrite (getImageHashes_get _ _ Hh), bool_decide_eq_true_2 in Hgq by done.
  rewrite (getImageHashes_get _ _ Hh), bool_decide_eq_true_2 in Hgp by done.
  destruct (phash_bits st q) as [a|] eqn:Ha; [|done].
  destruct (phash_bits st p) as [b|] eqn:Hb; [|done].
  simpl in Hgq, Hgp. simplify_eq.
  exists q, a, b, s. split_and!; try done.
  - intros ->. done.
  - rewrite <- Ha. apply phash_bits_local.
    by rewrite Hdisk, bool_decide_eq_false_2.
Qed.

Lemma dropped_has_surviving_twin_witness :
  let st' := (removeDuplicateImages default_threshold world_chain).2 in
  is_image "C:\in\B.jpg" = true
  ∧ disk st' !! "C:\in\B.jpg" = None
  ∧ ∃ q a b s,
      q ∈ founded_paths st' ∧ q ≠ "C:\in\B.jpg"
      ∧ phash_bits st' q = Some a ∧ phash_bits world_chain "C:\in\B.jpg" = Some b
      ∧ similarity (hash_of_bits a) (hash_of_bits b) = Ok s
      ∧ (default_threshold <= s)%Q.
Proof.
  apply (dropped_has_surviving_twin default_threshold world_chain).
  - vm_compute. reflexivity.
  - apply (bool_decide_unpack _). vm_compute. exact I.
  - apply (bool_decide_unpack _). vm_compute. exact I.
Defined.

Lemma filter_all {A} (P : A → Prop) `{!∀ x, Decision (P x)} (l : list A) :
  (∀ x, x ∈ l → P x) → filter P l = l.
Proof.
  induction l as [|x l IH]; intros Hall; [done|].
  rewrite filter_cons_True by (apply Hall; by left).
  f_equal. apply IH. intros y Hy. apply Hall. by right.
Qed.

Lemma nothing_to_delete threshold st st' hashes :
  (getImageHashes st).1 = Ok hashes →
  removeDuplicateImages threshold st = (Ok tt, st') →
  (∀ p, ¬ spec_deleted threshold hashes p) →
  founded_paths st' = founded_paths st ∧ disk st' = disk st.
Proof.
  intros Hh Hrun Hnone.
  destruct (removeDuplicateImages_ok _ _ _ _ Hh Hrun) as (gone & Hin & Hfp & Hdisk).
  assert (Hempty : ∀ p, p ∉ gone) by (intros p ?%Hin; by eapply Hnone).
  split.
  - rewrite Hfp. apply filter_all. intros p _. apply Hempty.
  - apply map_eq. intros p. rewrite Hdisk.
    by rewrite bool_decide_eq_false_2 by apply Hempty.
Qed.

(** X3.  [removeDuplicateImages] run a second time, right after a completed
    run, returns and removes nothing: the records and the disk stay as the
    first run left them. *)
Theorem second_run_removes_nothing (threshold : Q) (st st' : State) :
  removeDuplicateImages threshold st = (Ok tt, st') →
  ∃ st'',
    removeDuplicateImages threshold st' = (Ok tt, st'')
    ∧ founded_paths st'' = founded_paths st'
    ∧ disk st'' = disk st'.
Proof.
  intros Hrun.
  destruct (second_run_hashes _ _ _ Hrun) as (hashes' & Hh').
  assert (Hh : (getImageHashes st').1 = Ok hashes') by (by rewrite Hh').
  pose proof (second_run_finds_nothing _ _ _ _ Hrun Hh) as Hnone.
  destruct (removeDuplicateImages_returns threshold st' hashes' Hh)
    as (st'' & Hrun'').
  { intros p Hp. by destruct (Hnone p). }
  exists st''. split; [done|].
  by apply (nothing_to_delete threshold st' st'' hashes').
Qed.

Lemma second_run_removes_nothing_witness :
  ∃ st'',
    removeDuplicateImages default_threshold
      (removeDuplicateImages default_threshold world_chain).2 = (Ok tt, st'')
    ∧ founded_paths st''
      = founded_paths (removeDuplicateImages default_threshold world_chain).2
    ∧ disk st'' = disk (removeDuplicateImages default_threshold world_chain).2.
Proof.
  apply (second_run_removes_nothing default_threshold world_chain).
  vm_compute. reflexivity.
Defined.
Lemma similarity_phash_score (a b : Z) :
  similarity (hash_of_bits a) (hash_of_bits b)
  = Ok (score (hamming (flatten (hash_of_bits a)) (flatten (hash_of_bits b)))).
Proof. apply similarity_phash. Qed.

Lemma hamming_phash_le (a b : Z) :
  (hamming (flatten (hash_of_bits a)) (flatten (hash_of_bits b)) <= 64)%nat.
Proof. etrans; [apply hamming_le|]. done. Qed.

(** X4.  Between the fingerprints of two hashed images the score is
    defined, the same in both directions, and between 0 and 100; it is 100
    exactly when the Hamming distance is 0, as it is between a fingerprint
    and itself. *)
Theorem similarity_bounds (a b : Z) :
  ∃ s,
    similarity (hash_of_bits a) (hash_of_bits b) = Ok s
    ∧ similarity (hash_of_bits b) (hash_of_bits a) = Ok s
    ∧ (0 <= s)%Q ∧ (s <= 100)%Q
    ∧ ((s == 100)%Q ↔ hash_sub (hash_of_bits a) (hash_of_bits b) = Ok 0)
    ∧ ∃ s0, similarity (hash_of_bits a) (hash_of_bits a) = Ok s0 ∧ (s0 == 100)%Q.
Proof.
  eexists. split; [apply similarity_phash_score|].
  split; [by rewrite similarity_phash_sym, similarity_phash_score|].
  destruct (score_range _ (hamming_phash_le a b)) as [H0 H100].
  split; [done|]. split; [done|]. split.
  - unfold hash_sub. rewrite bool_decide_eq_true_2 by reflexivity. split.
    + by intros ->%score_full.
    + intros [= H]. apply (inj Z.of_nat _ 0%nat) in H. rewrite H. reflexivity.
  - eexists. split; [apply similarity_phash_score|].
    rewrite hamming_self. reflexivity.
Qed.

Lemma no_twin_above_100 threshold (hashes : list (string * ImageHash)) :
  (100 < threshold)%Q →
  Forall (λ kv, ∃ bits, kv.2 = hash_of_bits bits) hashes →
  ∀ p, ¬ spec_deleted threshold hashes p.
Proof.
  intros Hth Hshape p (j & Hj & Hv).
  destruct (deleted_has_keeper threshold hashes.*2 j Hv) as (i & Hij & _ & Hs).
  apply dict_keys_lookup in Hj as (hp & Hj).
  assert (Hi : ∃ q hq, hashes !! i = Some (q, hq)).
  { destruct (hashes !! i) as [[q hq]|] eqn:E; [eauto|].
    apply lookup_ge_None in E. apply lookup_lt_Some in Hj. lia. }
  destruct Hi as (q & hq & Hi).
  rewrite (similar_on_hashes _ _ _ _ _ _ _ _ Hi Hj) in Hs.
  rewrite Forall_lookup in Hshape.
  destruct (Hshape i _ Hi) as (a & Ha). destruct (Hshape j _ Hj) as (b & Hb).
  simpl in Ha, Hb. subst hq hp. rewrite similarity_phash_score in Hs.
  apply Qle_bool_iff in Hs.
  destruct (score_range _ (hamming_phash_le a b)) as [_ H100].
  apply (Qlt_not_le _ _ Hth). by eapply Qle_trans.
Qed.

(** X5.  With a threshold above 100 [removeDuplicateImages] removes
    nothing, whatever the images: the records and the disk are left as they
    were, and the stage returns whenever hashing does. *)
Theorem threshold_above_100_removes_nothing (threshold : Q) (st : State) :
  (100 < threshold)%Q →
  let r := removeDuplicateImages threshold st in
  founded_paths r.2 = founded_paths st
  ∧ disk r.2 = disk st
  ∧ (∀ hashes, (getImageHashes st).1 = Ok hashes → r.1 = Ok tt).
Proof.
  intros Hth. cbv zeta.
  destruct (getImageHashes st) as [[hashes|e] st1] eqn:Hrun.
  - assert (Hh : (getImageHashes st).1 = Ok hashes) by (by rewrite Hrun).
    destruct (getImageHashes_result _ _ _ Hrun) as (_ & Hshape & _).
    pose proof (no_twin_above_100 threshold hashes Hth Hshape) as Hnone.
    destruct (removeDuplicateImages_returns threshold st hashes Hh) as (st' & Hrun').
    { intros p Hp. by destruct (Hnone p). }
    rewrite Hrun'. simpl.
    destruct (nothing_to_delete threshold st st' hashes Hh Hrun' Hnone) as [-> ->].
    split_and!; try done.
  - pose proof (getImageHashes_reads st) as Hreads. rewrite Hrun in Hreads.
    simpl in Hreads. subst st1.
    unfold removeDuplicateImages. cbv [bind]. rewrite Hrun. simpl.
    split_and!; try done.
Qed.

Lemma threshold_above_100_removes_nothing_witness :
  let r := removeDuplicateImages 101%Q world_twins in
  founded_paths r.2 = founded_paths world_twins
  ∧ disk r.2 = disk world_twins
  ∧ (∀ hashes, (getImageHashes world_twins).1 = Ok hashes → r.1 = Ok tt).
Proof.
  apply (threshold_above_100_removes_nothing 101%Q world_twins).
  reflexivity.
Defined.

(** X6.  With a threshold of at most 100, two distinct image records
    whose files have the same fingerprint are never both left by a
    completed run of [removeDuplicateImages]. *)
Theorem identical_fingerprints_not_both_kept
    (threshold : Q) (st st' : State) (p q : string) (a : Z) :
  removeDuplicateImages threshold st = (Ok tt, st') →
  (threshold <= 100)%Q →
  p ≠ q → is_image p = true → is_image q = true →
  phash_bits st p = Some a → phash_bits st q = Some a →
  ¬ (p ∈ founded_paths st' ∧ q ∈ founded_paths st').
Proof.
  intros Hrun Hth Hne Hip Hiq Ha Hb [Hp Hq].
  destruct (removeDuplicateImages_hashed _ _ _ Hrun) as (hashes & Hh).
  assert (Hget : ∀ x, x ∈ founded_paths st' → is_image x = true →
            phash_bits st x = Some a →
            Py.dict_get hashes x = Some (hash_of_bits a)).
  { intros x Hx Hix Hbits.
    apply (survivor_iff threshold st st' hashes Hh Hrun) in Hx as [Hx _].
    by rewrite (getImageHashes_get _ _ Hh), bool_decide_eq_true_2, Hbits. }
  destruct (survivors_apart threshold st st' hashes Hh Hrun p q
              (hash_of_bits a) (hash_of_bits a)) as (s & Hs & Hlt); try done.
  - by apply Hget.
  - by apply Hget.
  - rewrite similarity_phash_score, hamming_self in Hs. injection Hs as <-.
    apply (Qlt_not_le _ _ Hlt). by rewrite score_zero.
Qed.

Lemma identical_fingerprints_not_both_kept_witness :
  let st' := (removeDuplicateImages default_threshold world_twins).2 in
  ¬ ("C:\in\a.jpg" ∈ founded_paths st' ∧ "C:\in\b.jpg" ∈ founded_paths st').
Proof.
  apply (identical_fingerprints_not_both_kept default_threshold world_twins
           (removeDuplicateImages default_threshold world_twins).2
           "C:\in\a.jpg" "C:\in\b.jpg" 5).
  - vm_compute. reflexivity.
  - vm_compute. discriminate.
  - apply (bool_decide_unpack _). vm_compute. exact I.
  - vm_compute. reflexivity.
  - vm_compute. reflexivity.
  - vm_compute. reflexivity.
  - vm_compute. reflexivity.
Defined.
(** X7.  [removeDuplicateImages] touches nothing but image records: in
    every outcome, a path that is not an image record of [founded_paths]
    (a video record, or any other file) keeps its file as it was, and stays
    in [founded_paths] if it was there. *)
Theorem deduplication_touches_only_image_records
    (threshold : Q) (st : State) (q : string) :
  ¬ (q ∈ founded_paths st ∧ is_image q = true) →
  let r := removeDuplicateImages threshold st in
  disk r.2 !! q = disk st !! q
  ∧ (q ∈ founded_paths st → q ∈ founded_paths r.2).
Proof.
  intros Hq. pose proof (getImageHashes_reads st) as Hreads.
  cbv zeta. unfold removeDuplicateImages. cbv [bind modify print].
  destruct (getImageHashes st) as [[hashes|e] st1] eqn:Hrun; simpl in Hreads;
    subst st1; [|done].
  destruct (getImageHashes_result _ _ _ Hrun) as (_ & _ & Hin).
  assert (Hnot : ∀ j, (1 <= j)%nat → Py.dict_keys hashes !! j ≠ Some q).
  { intros j _ Hj. apply list_elem_of_lookup_2 in Hj.
    destruct (Hin q Hj) as (? & ? & _). tauto. }
  destruct (scan_duplicates_untouched hashes threshold q Hnot st) as [Hd Hm].
  pose proof (scan_duplicates_founded_paths hashes threshold st) as Hfp.
  destruct (scan_duplicates hashes threshold st) as [[marks|e] st2];
    simpl in Hd, Hm, Hfp |- *.
  - split; [done|]. intros Hmem. rewrite Hfp. apply list_elem_of_filter.
    split; [|done]. by apply Hm.
  - split; [done|]. by rewrite Hfp.
Qed.

Lemma deduplication_touches_only_image_records_witness :
  let r := removeDuplicateImages default_threshold world_twins in
  disk r.2 !! "C:\in\v.mp4" = disk world_twins !! "C:\in\v.mp4"
  ∧ ("C:\in\v.mp4" ∈ founded_paths world_twins → "C:\in\v.mp4" ∈ founded_paths r.2).
Proof.
  apply (deduplication_touches_only_image_records default_threshold world_twins).
  intros [_ H]. vm_compute in H. discriminate.
Defined.

(** X8.  When every image record of [founded_paths] can be opened and
    decoded, [getImageHashes] returns without changing anything; its
    dictionary has each key once, and holds exactly the image records of
    [founded_paths], each with the fingerprint of its file. *)
Theorem getImageHashes_spec (st : State) :
  (∀ p, p ∈ founded_paths st → is_image p = true → is_Some (phash_bits st p)) →
  ∃ hashes,
    getImageHashes st = (Ok hashes, st)
    ∧ NoDup (Py.dict_keys hashes)
    ∧ ∀ p, Py.dict_get hashes p
           = if bool_decide (p ∈ founded_paths st ∧ is_image p = true)
             then hash_of_bits <$> phash_bits st p
             else None.
Proof.
  intros Hok. destruct (getImageHashes_total st Hok) as (hashes & Hrun & Hget).
  exists hashes. split_and!; [done| |done].
  by destruct (getImageHashes_result _ _ _ Hrun) as (? & _).
Qed.

Lemma getImageHashes_spec_witness :
  ∃ hashes,
    getImageHashes world_twins = (Ok hashes, world_twins)
    ∧ NoDup (Py.dict_keys hashes)
    ∧ ∀ p, Py.dict_get hashes p
           = if bool_decide (p ∈ founded_paths world_twins ∧ is_image p = true)
             then hash_of_bits <$> phash_bits world_twins p
             else None.
Proof.
  apply (getImageHashes_spec world_twins).
  intros p Hp Himg. cbn in Hp.
  apply elem_of_cons in Hp as [->|Hp]; [vm_compute; eauto|].
  apply elem_of_cons in Hp as [->|Hp]; [vm_compute in Himg; discriminate|].
  apply elem_of_cons in Hp as [->|Hp]; [vm_compute; eauto|].
  by apply elem_of_nil in Hp.
Defined.
(** ** [rfind], slices and [splitext] *)

Lemma string_length_app a b :
  String.length (a +:+ b) = (String.length a + String.length b)%nat.
Proof. induction a as [|c a IH]; simpl; [done|]. by rewrite IH. Qed.

Lemma rfind_from_app c a : ∀ b i last,
  Py.rfind_from c (a +:+ b) i last
  = Py.rfind_from c b (i + Z.of_nat (String.length a)) (Py.rfind_from c a i last).
Proof.
  induction a as [|x a IH]; intros b i last; simpl.
  - by rewrite Z.add_0_r.
  - rewrite IH. f_equal. lia.
Qed.

Lemma rfind_from_free c s : ∀ i last,
  char_free c s = true → Py.rfind_from c s i last = last.
Proof.
  induction s as [|x s IH]; intros i last; simpl; [done|].
  intros [Hx Hs]%andb_true_iff. rewrite IH by done.
  by destruct (Ascii.eqb x c).
Qed.

Lemma rfind_from_found c s : ∀ i last,
  char_free c s = false →
  i <= Py.rfind_from c s i last < i + Z.of_nat (String.length s).
Proof.
  induction s as [|x s IH]; intros i last; simpl; [done|].
  destruct (Ascii.eqb x c) eqn:Hx; simpl.
  - intros _. destruct (char_free c s) eqn:Hs.
    + rewrite rfind_from_free by done. lia.
    + specialize (IH (i + 1) i eq_refl). lia.
  - intros Hs. specialize (IH (i + 1) last Hs). lia.
Qed.

Lemma rfind_free c s : char_free c s = true → Py.rfind c s = -1.
Proof. apply rfind_from_free. Qed.

Lemma rfind_found c s :
  char_free c s = false → 0 <= Py.rfind c s < Z.of_nat (String.length s).
Proof. intros H. apply (rfind_from_found c s 0 (-1) H). Qed.

Lemma rfind_range c s : -1 <= Py.rfind c s < Z.of_nat (String.length s) ∨ s = "".
Proof.
  destruct (char_free c s) eqn:H.
  - rewrite rfind_free by done. destruct s; [by right|left; simpl; lia].
  - left. pose proof (rfind_found c s H). lia.
Qed.

Lemma rfind_lt c s : Py.rfind c s < Z.of_nat (String.length s) ∨ s = "".
Proof. destruct (rfind_range c s); [left; lia|by right]. Qed.

Lemma rfind_from_shift c s n : ∀ i last1 last2,
  char_free c s = false →
  Py.rfind_from c s (i + n) last1 = n + Py.rfind_from c s i last2.
Proof.
  induction s as [|x s IH]; intros i last1 last2; simpl; [done|].
  destruct (Ascii.eqb x c) eqn:Hx; simpl.
  - intros _. destruct (char_free c s) eqn:Hs.
    + rewrite !rfind_from_free by done. lia.
    + replace (i + n + 1) with (i + 1 + n) by lia. by apply IH.
  - intros Hs. replace (i + n + 1) with (i + 1 + n) by lia. by apply IH.
Qed.

Lemma rfind_app c a b :
  Py.rfind c (a +:+ b)
  = if char_free c b then Py.rfind c a
    else Z.of_nat (String.length a) + Py.rfind c b.
Proof.
  unfold Py.rfind. rewrite rfind_from_app. simpl.
  destruct (char_free c b) eqn:Hb.
  - by rewrite rfind_from_free.
  - by apply (rfind_from_shift c b (Z.of_nat (String.length a)) 0).
Qed.

Lemma rfind_head c s : char_free c s = true → Py.rfind c (String c s) = 0.
Proof.
  intros H. unfold Py.rfind. simpl. rewrite Ascii.eqb_refl.
  by rewrite rfind_from_free.
Qed.

Lemma char_free_app c a b :
  char_free c (a +:+ b) = char_free c a && char_free c b.
Proof.
  induction a as [|x a IH]; simpl; [done|]. rewrite IH. by rewrite andb_assoc.
Qed.

Lemma sep_free_chars s :
  sep_free s = char_free "\" s && char_free "/" s.
Proof.
  induction s as [|x s IH]; simpl; [done|]. rewrite IH.
  destruct (Ascii.eqb x "\"), (Ascii.eqb x "/"), (char_free "\" s),
    (char_free "/" s); done.
Qed.

(** *** Slices *)

Lemma slice_to_app a b : Py.slice_to (String.length a) (a +:+ b) = a.
Proof. induction a as [|x a IH]; simpl; [by destruct b|]. by rewrite IH. Qed.

Lemma slice_from_app a b : Py.slice_from (String.length a) (a +:+ b) = b.
Proof. induction a as [|x a IH]; simpl; [by destruct b|]. done. Qed.

Lemma slice_join n s : Py.slice_to n s +:+ Py.slice_from n s = s.
Proof.
  revert s. induction n as [|n IH]; intros [|x s]; simpl; try done.
  rewrite append_String. f_equal. apply IH.
Qed.

Lemma slice_to_length n s :
  (n <= String.length s)%nat → String.length (Py.slice_to n s) = n.
Proof.
  revert s. induction n as [|n IH]; intros [|x s]; simpl; try done; try lia.
  intros H. rewrite IH; [done|lia].
Qed.

Lemma get_app_l k a b :
  (k < String.length a)%nat → String.get k (a +:+ b) = String.get k a.
Proof.
  revert k. induction a as [|x a IH]; intros k; simpl; [lia|].
  destruct k as [|k]; [done|]. intros H. apply IH. lia.
Qed.

Lemma get_app_r k a b :
  String.get (String.length a + k) (a +:+ b) = String.get k b.
Proof. induction a as [|x a IH]; simpl; done. Qed.

(** The scan reads the characters from [start] on, [steps] of them. *)
Lemma splitext_scan_ext p p' start start' steps :
  (∀ k, (k < steps)%nat → String.get (start + k) p = String.get (start' + k) p') →
  Py.splitext_scan p start steps = Py.splitext_scan p' start' steps.
Proof.
  revert start start'. induction steps as [|n IH]; intros start start' H; simpl;
    [done|].
  pose proof (H 0%nat ltac:(lia)) as H0. rewrite !Nat.add_0_r in H0.
  rewrite H0. destruct (String.get start' p') as [c|]; [|done].
  destruct (Ascii.eqb_spec c "."%char) as [->|Hc].
  - apply IH. intros k Hk. specialize (H (S k) ltac:(lia)).
    by rewrite !Nat.add_succ_r in H.
  - destruct c as [[] [] [] [] [] [] [] []]; try done.
Qed.
(** *** The last separator *)

Local Abbreviation sepIndex p := (Z.max (Py.rfind "\"%char p) (Py.rfind "/"%char p)).

Lemma sep_free_split s :
  sep_free s = true → char_free "\" s = true ∧ char_free "/" s = true.
Proof. rewrite sep_free_chars. by intros [? ?]%andb_true_iff. Qed.

Lemma sepIndex_app a b : sep_free b = true → sepIndex (a +:+ b) = sepIndex a.
Proof. intros [H1 H2]%sep_free_split. by rewrite !rfind_app, H1, H2. Qed.

Lemma sepIndex_free s : sep_free s = true → sepIndex s = -1.
Proof. intros [H1 H2]%sep_free_split. by rewrite !rfind_free. Qed.

Lemma ends_with_sep_last a :
  Py.ends_with_sep a = true →
  ∃ a' c, a = a' +:+ String c "" ∧ (c = "\"%char ∨ c = "/"%char).
Proof.
  induction a as [|x a IH]; simpl; [done|].
  destruct a as [|y a].
  - intros H. exists "", x. split; [done|].
    apply orb_true_iff in H as [H|H]; apply Ascii.eqb_eq in H; auto.
  - intros (a' & c & E & Hc)%IH. exists (String x a'), c. split; [|done].
    by rewrite append_String, <- E.
Qed.

Lemma rfind_last c a : Py.rfind c (a +:+ String c "") = Z.of_nat (String.length a).
Proof.
  rewrite rfind_app. simpl. rewrite Ascii.eqb_refl. simpl.
  rewrite rfind_head by done. lia.
Qed.

Lemma rfind_last_other c x a :
  x ≠ c → Py.rfind c (a +:+ String x "") < Z.of_nat (String.length a).
Proof.
  intros Hx. rewrite rfind_app. simpl.
  destruct (Ascii.eqb_spec x c) as [?|_]; [done|]. simpl.
  destruct (rfind_lt c a) as [?| ->]; [done|]. by compute.
Qed.

(** The separator index of a directory prefix: empty, or ending with a
    separator. *)
Lemma sepIndex_prefix prefix :
  prefix = "" ∨ Py.ends_with_sep prefix = true →
  sepIndex prefix = Z.of_nat (String.length prefix) - 1
  ∧ Py.rfind "." prefix < Z.of_nat (String.length prefix) - 1 ∨ prefix = "".
Proof.
  intros [->|(a & c & -> & Hc)%ends_with_sep_last]; [by right|]. left.
  rewrite string_length_app. simpl.
  replace (Z.of_nat (String.length a + 1) - 1) with (Z.of_nat (String.length a))
    by lia.
  split.
  - destruct Hc as [-> | ->].
    + rewrite rfind_last.
      pose proof (rfind_last_other "/" "\" a ltac:(done)). lia.
    + rewrite rfind_last.
      pose proof (rfind_last_other "\" "/" a ltac:(done)). lia.
  - apply rfind_last_other. by destruct Hc as [-> | ->].
Qed.

Lemma slice_to_app_plus a b n :
  Py.slice_to (String.length a + n) (a +:+ b) = a +:+ Py.slice_to n b.
Proof.
  induction a as [|x a IH]; simpl; [done|]. by rewrite IH.
Qed.

Lemma slice_from_app_plus a b n :
  Py.slice_from (String.length a + n) (a +:+ b) = Py.slice_from n b.
Proof. induction a as [|x a IH]; simpl; done. Qed.

(** [splitext] of a file name behind a directory prefix. *)
Lemma splitext_behind_prefix prefix file :
  prefix = "" ∨ Py.ends_with_sep prefix = true →
  sep_free file = true →
  Py.splitext (prefix +:+ file)
  = (prefix +:+ (Py.splitext file).1, (Py.splitext file).2).
Proof.
  intros Hprefix Hfile. unfold Py.splitext.
  rewrite (sepIndex_app prefix file Hfile), (sepIndex_free file Hfile).
  rewrite (rfind_app "." prefix file).
  set (L := String.length prefix).
  assert (HsL : sepIndex prefix = Z.of_nat L - 1
                ∧ (Py.rfind "." prefix < Z.of_nat L - 1 ∨ prefix = "")).
  { destruct (sepIndex_prefix prefix Hprefix) as [[? ?]| ->]; [by auto|].
    split; [done|by right]. }
  destruct HsL as [HsL Hdot]. rewrite HsL.
  destruct (char_free "." file) eqn:Hfree.
  - rewrite (rfind_free "." file Hfree). simpl.
    assert (Hcond : (Z.of_nat L - 1 <? Py.rfind "." prefix) = false).
    { apply Z.ltb_ge. destruct Hdot as [?| ->]; [lia|]. by compute. }
    by rewrite Hcond.
  - pose proof (rfind_found "." file Hfree) as Hd.
    set (d := Py.rfind "." file) in *.
    rewrite (proj2 (Z.ltb_lt _ _)) by lia.
    rewrite (proj2 (Z.ltb_lt (-1) d)) by lia. simpl.
    replace (Z.to_nat (Z.of_nat L - 1 + 1)) with (L + 0)%nat by lia.
    replace (Z.to_nat (Z.of_nat L + d - (Z.of_nat L - 1 + 1))) with (Z.to_nat d)
      by lia.
    replace (Z.to_nat (-1 + 1)) with 0%nat by lia.
    replace (Z.to_nat (d - (-1 + 1))) with (Z.to_nat d) by lia.
    rewrite (splitext_scan_ext (prefix +:+ file) file (L + 0) 0 (Z.to_nat d)).
    2:{ intros k _. rewrite Nat.add_0_r. apply get_app_r. }
    destruct (Py.splitext_scan file 0 (Z.to_nat d)); [|done].
    replace (Z.to_nat (Z.of_nat L + d)) with (L + Z.to_nat d)%nat by lia.
    unfold L. by rewrite slice_to_app_plus, slice_from_app_plus.
Qed.

Lemma path_join_prefix root file :
  ∃ prefix,
    Py.path_join root file = prefix +:+ file
    ∧ (prefix = "" ∨ Py.ends_with_sep prefix = true).
Proof.
  unfold Py.path_join. destruct root as [|x root]; [exists ""; auto|].
  destruct (Py.ends_with_sep (String x root)) eqn:E.
  - exists (String x root). auto.
  - exists (String x root +:+ "\"). split; [by rewrite append_assoc|].
    right. by rewrite ends_with_sep_app.
Qed.

(** The extension of a joined path is the extension of the file name. *)
Lemma ext_of_join root file :
  sep_free file = true →
  ext_of (Py.path_join root file) = Py.lower (Py.splitext file).2.
Proof.
  intros Hfile. destruct (path_join_prefix root file) as (prefix & -> & Hp).
  unfold ext_of. by rewrite splitext_behind_prefix.
Qed.

(** The two parts of [splitext] make the path again. *)
Lemma splitext_join p : (Py.splitext p).1 +:+ (Py.splitext p).2 = p.
Proof.
  unfold Py.splitext. destruct (_ && _); simpl.
  - apply slice_join.
  - apply append_nil_r.
Qed.

Lemma rfind_ge c s : -1 <= Py.rfind c s.
Proof.
  destruct (char_free c s) eqn:H.
  - by rewrite rfind_free.
  - pose proof (rfind_found c s H). lia.
Qed.

(** A path with an extension, taken apart. *)
Lemma splitext_parts p :
  (Py.splitext p).2 ≠ "" →
  let n := Z.to_nat (Py.rfind "." p) in
  Py.splitext p = (Py.slice_to n p, Py.slice_from n p)
  ∧ sepIndex p < Py.rfind "." p < Z.of_nat (String.length p)
  ∧ Py.splitext_scan p (Z.to_nat (sepIndex p + 1))
      (Z.to_nat (Py.rfind "." p - (sepIndex p + 1))) = true.
Proof.
  unfold Py.splitext.
  destruct (sepIndex p <? Py.rfind "." p) eqn:Hlt; simpl; [|done].
  destruct (Py.splitext_scan _ _ _) eqn:Hscan; simpl; [|done].
  intros _. apply Z.ltb_lt in Hlt. split_and!; try done.
  destruct (rfind_lt "." p) as [?| ->]; [done|]. by compute in Hlt.
Qed.

Lemma char_free_found_at c a b :
  char_free c b = false → Z.of_nat (String.length a) <= Py.rfind c (a +:+ b).
Proof.
  intros H. rewrite rfind_app, H. pose proof (rfind_found c b H). lia.
Qed.

(** Replacing the extension: a path with an extension, its stem, and a new
    extension made of a dot and characters that are neither dots nor
    separators. *)
Lemma splitext_restem p e' :
  (Py.splitext p).2 ≠ "" →
  char_free "." e' = true → sep_free e' = true →
  Py.splitext ((Py.splitext p).1 +:+ String "." e') = ((Py.splitext p).1, String "." e').
Proof.
  intros Hext Hdot Hsep.
  destruct (splitext_parts p Hext) as (Hsplit & [Hsd Hdl] & Hscan).
  pose proof (rfind_ge "\" p). pose proof (rfind_ge "/" p).
  set (d := Py.rfind "." p) in *. set (n := Z.to_nat d) in *.
  assert (Hn : Z.of_nat n = d) by lia.
  rewrite Hsplit. simpl.
  set (stem := Py.slice_to n p). set (ext := Py.slice_from n p).
  assert (Hp : p = stem +:+ ext) by (symmetry; apply slice_join).
  assert (Hlen : String.length stem = n) by (apply slice_to_length; lia).
  assert (Hfree : ∀ c, Py.rfind c p < d → char_free c ext = true).
  { intros c Hc. destruct (char_free c ext) eqn:E; [done|].
    pose proof (char_free_found_at c stem ext E) as Hge.
    rewrite <- Hp, Hlen in Hge. lia. }
  assert (Hsp : sepIndex stem = sepIndex p).
  { pose proof (rfind_app "\" stem ext) as E1.
    pose proof (rfind_app "/" stem ext) as E2.
    rewrite <- Hp in E1, E2.
    rewrite (Hfree "\"%char) in E1 by lia. rewrite (Hfree "/"%char) in E2 by lia.
    by rewrite E1, E2. }
  unfold Py.splitext.
  rewrite (sepIndex_app stem (String "." e')) by done. rewrite Hsp.
  rewrite (rfind_app "." stem (String "." e')). simpl.
  rewrite (rfind_head "." e' Hdot), Hlen, Hn, Z.add_0_r.
  rewrite (proj2 (Z.ltb_lt _ _) Hsd). simpl.
  rewrite (splitext_scan_ext _ p _ (Z.to_nat (sepIndex p + 1)) _).
  2:{ intros k Hk.
      pose proof (get_app_l (Z.to_nat (sepIndex p + 1) + k) stem ext) as E.
      rewrite <- Hp in E. rewrite E by (rewrite Hlen; lia).
      apply get_app_l. rewrite Hlen. lia. }
  rewrite Hscan. fold n. rewrite <- Hlen.
  by rewrite slice_to_app, slice_from_app.
Qed.

Lemma lower_nonempty s : Py.lower s = "" → s = "".
Proof. by destruct s. Qed.

Lemma convertible_has_ext p :
  convertible_image p ∨ convertible_video p → (Py.splitext p).2 ≠ "".
Proof.
  unfold convertible_image, convertible_video, ext_of.
  intros H E. rewrite E in H. simpl in H. set_solver.
Qed.

(** The kind of a converted path. *)
Lemma converted_png p :
  convertible_image p →
  ext_of (stem p +:+ ".png") = ".png" ∧ stem (stem p +:+ ".png") = stem p.
Proof.
  intros Hp. unfold ext_of, stem.
  rewrite (splitext_restem p "png") by (by auto using convertible_has_ext).
  done.
Qed.

Lemma converted_mp4 p :
  convertible_video p →
  ext_of (stem p +:+ ".mp4") = ".mp4" ∧ stem (stem p +:+ ".mp4") = stem p.
Proof.
  intros Hp. unfold ext_of, stem.
  rewrite (splitext_restem p "mp4") by (by auto using convertible_has_ext).
  done.
Qed.
(** ** [convertTypes]: what a conversion does to the disk *)

Lemma converted_name_image p :
  convertible_image p → converted_name p = Some (stem p +:+ ".png").
Proof. intros H. unfold converted_name. by rewrite bool_decide_eq_true_2. Qed.

Lemma convertible_kinds_apart p : convertible_image p → ¬ convertible_video p.
Proof.
  unfold convertible_image, convertible_video. intros H H'.
  repeat (apply elem_of_cons in H as [H|H];
          [rewrite H in H'; apply (bool_decide_pack _) in H'; by vm_compute in H'|]).
  by apply elem_of_nil in H.
Qed.

Lemma converted_name_video p :
  convertible_video p → converted_name p = Some (stem p +:+ ".mp4").
Proof.
  intros H. unfold converted_name.
  rewrite bool_decide_eq_false_2
    by (intros H'; by apply (convertible_kinds_apart p)).
  by rewrite bool_decide_eq_true_2.
Qed.

Lemma convert_image_effect p st r st' :
  convert_image p st = (Ok r, st') →
  ∃ f out,
    disk st !! p = Some f ∧ f_png f = Some out
    ∧ r = (stem p +:+ ".png", true)
    ∧ st' = set_disk (delete p (<[stem p +:+ ".png" := out]> (disk st))) st.
Proof.
  unfold convert_image. run_monad. cbn.
  destruct (disk st !! p) as [f|] eqn:Hf; cbn; [|done].
  destruct (f_image f); cbn; [|done]. rewrite Hf. cbn.
  destruct (f_png f) as [out|] eqn:Hout; cbn; [|done].
  rewrite lookup_insert. case_decide as E; cbn.
  - destruct (f_removable out); cbn; [|done].
    intros [= <- <-]. by exists f, out.
  - rewrite Hf. cbn. destruct (f_removable f); cbn; [|done].
    intros [= <- <-]. by exists f, out.
Qed.
Ltac frame_solve :=
  unfold conversion_frame; simpl; split_and!; [done| | |];
  intros;
  rewrite ?lookup_delete_eq, ?lookup_delete_ne, ?lookup_insert_ne by done;
  try done; auto;
  repeat (rewrite lookup_insert; destruct (decide _));
  rewrite ?lookup_delete_ne by done;
  eauto.

Lemma convert_image_frame p st :
  conversion_frame p (stem p +:+ ".png") st (convert_image p st).2.
Proof.
  unfold convert_image. run_monad. cbn.
  repeat (case_match; simplify_eq/=); frame_solve.
Qed.

Lemma convert_video_frame p st :
  conversion_frame p (stem p +:+ ".mp4") st (convert_video p st).2.
Proof.
  unfold convert_video, run_ffmpeg. run_monad. cbn.
  repeat (case_match; simplify_eq/=); frame_solve.
Qed.

Lemma frame_refl p np st : conversion_frame p np st st.
Proof. split_and!; auto. Qed.

Lemma frame_add_msg p np st st1 m :
  conversion_frame p np st st1 → conversion_frame p np st (add_msg m st1).
Proof. by intros (? & ? & ? & ?). Qed.

Lemma convert_video_converted p st new st' :
  convert_video p st = (Ok (new, true), st') →
  new = stem p +:+ ".mp4"
  ∧ (new ≠ p → is_Some (disk st' !! new) ∧ disk st' !! p = None).
Proof.
  unfold convert_video, run_ffmpeg. run_monad. cbn.
  repeat (case_match; simplify_eq/=); try done.
  all: intros [= <- <-]; split; [done|]; intros Hne; simpl.
  all: rewrite lookup_delete_eq, lookup_delete_ne by done.
  all: split; [|done].
  all: match goal with H : _ && bool_decide _ = true |- _ =>
         apply andb_true_iff in H as [_ H]; by apply bool_decide_eq_true_1 in H end.
Qed.

Lemma convert_image_converted p st new c st' :
  convert_image p st = (Ok (new, c), st') →
  new = stem p +:+ ".png" ∧ c = true
  ∧ (new ≠ p → is_Some (disk st' !! new) ∧ disk st' !! p = None).
Proof.
  intros (f & out & Hf & Hout & [= -> ->] & ->)%convert_image_effect.
  split_and!; [done|done|]. intros Hne. simpl.
  rewrite lookup_delete_eq, lookup_delete_ne, lookup_insert_eq by done. eauto.
Qed.

(** One record, whatever happens to it. *)
Lemma convert_one_frame p st :
  conversion_frame p (default p (converted_name p)) st (convert_one p st).2.
Proof.
  unfold convert_one, try_except, converted_name, convertible_image,
    convertible_video.
  destruct (bool_decide (ext_of p ∈ [".heic"; ".webp"])) eqn:Himg.
  - assert (Hinner : ∀ st0, conversion_frame p (stem p +:+ ".png") st0
              (match convert_image p st0 with
               | (Ok a, st') => (Ok a, st')
               | (Raise e, st') =>
                   (print (MsgFailedConvert p e) ;; ret (p, false)) st'
               end).2).
    { intros st0. pose proof (convert_image_frame p st0) as Hf.
      destruct (convert_image p st0) as [[r|e] st1]; [done|].
      run_monad. simpl. by apply frame_add_msg. }
    simpl. destruct (bool_decide (ext_of p = ".heic")); [|apply Hinner].
    run_monad. cbn. destruct (heif_decoder st); cbn.
    + apply Hinner.
    + apply frame_add_msg, frame_refl.
  - destruct (bool_decide (ext_of p ∈ [".avi"; ".mkv"; ".mov"; ".webm"])) eqn:Hvid.
    + simpl. pose proof (convert_video_frame p st) as Hf.
      destruct (convert_video p st) as [[r|e] st1]; [done|].
      run_monad. simpl. by apply frame_add_msg.
    + simpl. apply frame_refl.
Qed.

Lemma convert_one_converted p st new st' :
  convert_one p st = (Ok (new, true), st') →
  converted_name p = Some new
  ∧ (new ≠ p → is_Some (disk st' !! new) ∧ disk st' !! p = None).
Proof.
  unfold convert_one, try_except, converted_name, convertible_image,
    convertible_video.
  destruct (bool_decide (ext_of p ∈ [".heic"; ".webp"])) eqn:Himg.
  - assert (Hinner : ∀ st0,
      match convert_image p st0 with
      | (Ok a, st1) => (Ok a, st1)
      | (Raise e, st1) => (print (MsgFailedConvert p e) ;; ret (p, false)) st1
      end = (Ok (new, true), st') →
      Some (stem p +:+ ".png") = Some new
      ∧ (new ≠ p → is_Some (disk st' !! new) ∧ disk st' !! p = None)).
    { intros st0. destruct (convert_image p st0) as [[[n c]|e] st1] eqn:Hrun.
      - intros [= -> -> ->].
        by destruct (convert_image_converted _ _ _ _ _ Hrun) as (-> & _ & ?).
      - run_monad. by intros [= ]. }
    simpl. destruct (bool_decide (ext_of p = ".heic")); [|apply Hinner].
    run_monad. cbn. destruct (heif_decoder st); cbn; [apply Hinner|done].
  - destruct (bool_decide (ext_of p ∈ [".avi"; ".mkv"; ".mov"; ".webm"])) eqn:Hvid.
    + simpl. destruct (convert_video p st) as [[[n c]|e] st1] eqn:Hrun.
      * intros [= -> -> ->].
        by destruct (convert_video_converted _ _ _ _ Hrun) as (-> & ?).
      * run_monad. by intros [= ].
    + simpl. run_monad. by intros [= ].
Qed.
(** The converted name of a record: a different path, of the same kind,
    that is not convertible itself. *)
Lemma converted_name_fresh p new :
  converted_name p = Some new →
  new ≠ p
  ∧ is_image new = is_image p ∧ is_video new = is_video p
  ∧ converted_name new = None.
Proof.
  unfold converted_name. case_bool_decide as Himg.
  - intros [= <-]. destruct (converted_png p Himg) as [Hext _].
    assert (Hp : is_image p = true ∧ is_video p = false).
    { unfold convertible_image in Himg. unfold is_image, is_video.
      repeat (apply elem_of_cons in Himg as [->|Himg]; [by vm_compute|]).
      by apply elem_of_nil in Himg. }
    destruct Hp as [Hi Hv]. rewrite Hi, Hv.
    unfold is_image, is_video, convertible_image, convertible_video.
    rewrite Hext. split_and!; try by vm_compute.
    intros E. rewrite E in Hext. unfold convertible_image in Himg.
    rewrite Hext in Himg. by apply (bool_decide_pack _) in Himg.
  - case_bool_decide as Hvid; [|done].
    intros [= <-]. destruct (converted_mp4 p Hvid) as [Hext _].
    assert (Hp : is_image p = false ∧ is_video p = true).
    { unfold convertible_video in Hvid. unfold is_image, is_video.
      repeat (apply elem_of_cons in Hvid as [->|Hvid]; [by vm_compute|]).
      by apply elem_of_nil in Hvid. }
    destruct Hp as [Hi Hv]. rewrite Hi, Hv.
    unfold is_image, is_video, convertible_image, convertible_video.
    rewrite Hext. split_and!; try by vm_compute.
    intros E. rewrite E in Hext. unfold convertible_video in Hvid.
    rewrite Hext in Hvid. by apply (bool_decide_pack _) in Hvid.
Qed.

(** A record that is not convertible is skipped. *)
Lemma convert_one_skip p st :
  converted_name p = None → convert_one p st = (Ok (p, false), st).
Proof.
  unfold converted_name, convertible_image, convertible_video, convert_one,
    try_except.
  case_bool_decide; [done|]. case_bool_decide; [done|]. done.
Qed.

Lemma changed_cons p new l news :
  changed (p :: l) (new :: news)
  = ((if decide (p ≠ new) then 1 else 0) + changed l news)%nat.
Proof.
  unfold changed. simpl. rewrite filter_cons. simpl.
  by destruct (decide (p ≠ new)).
Qed.

(** One record, in full. *)
Lemma convert_one_step p st :
  ∃ new c st1,
    convert_one p st = (Ok (new, c), st1)
    ∧ (new = p ∨ converted_name p = Some new)
    ∧ (c = true ↔ new ≠ p)
    ∧ founded_paths st1 = founded_paths st
    ∧ (∀ x, converted_name x = None →
            is_Some (disk st !! x) → is_Some (disk st1 !! x))
    ∧ (∀ x, is_Some (converted_name x) →
            disk st !! x = None → disk st1 !! x = None)
    ∧ (∀ x, x ≠ p → converted_name p ≠ Some x → disk st1 !! x = disk st !! x)
    ∧ (new ≠ p → disk st1 !! p = None ∧ is_Some (disk st1 !! new)).
Proof.
  destruct (converted_name p) as [np|] eqn:Hname.
  2:{ exists p, false, st. rewrite (convert_one_skip p st Hname).
      split_and!; try done.
      all: try (by left); try (split; [done|by intros []]); try (by intros []). }
  destruct (converted_name_fresh p np Hname) as (Hne & _ & _ & Hnp).
  destruct (convert_one_returns p st) as (new & c & st1 & Hrun & Hin & Hsame).
  pose proof (convert_one_frame p st) as Hframe.
  rewrite Hrun, Hname in Hframe. destruct Hframe as (Ffp & Fother & Fsome & Fsrc).
  simpl in *.
  exists new, c, st1. split; [done|].
  assert (Hnew : c = true → new = np ∧ is_Some (disk st1 !! np)
                            ∧ disk st1 !! p = None).
  { intros ->. destruct (convert_one_converted _ _ _ _ Hrun) as (E & Hd).
    rewrite Hname in E. injection E as <-. by destruct (Hd Hne). }
  split_and!.
  - destruct c; [right; by destruct Hnew as [-> _]|left; by apply Hsame].
  - split.
    + intros ->. by destruct Hnew as (-> & _).
    + intros Hn. destruct c; [done|]. by destruct Hn; apply Hsame.
  - done.
  - intros x Hx Hsome. apply Fsome; [|done]. intros ->. congruence.
  - intros x [y Hx] Hnone. destruct (decide (x = p)) as [->|Hxp].
    + destruct (Fsrc Hne) as [?|E]; [done|]. by rewrite E.
    + rewrite Fother; [done|done|]. intros ->. congruence.
  - intros x Hxp Hxn. apply Fother; [done|]. intros ->. done.
  - intros Hn. destruct c.
    + destruct Hnew as (-> & ? & ?); done.
    + by destruct Hn; apply Hsame.
Qed.

Lemma convertTypes_loop_effect l : ∀ acc st,
  ∃ news n st',
    for_each l convertTypes_step acc st = (Ok (acc.1 ++ news, n), st')
    ∧ Forall2 (λ p new, new = p ∨ converted_name p = Some new) l news
    ∧ n = (acc.2 + changed l news)%nat
    ∧ founded_paths st' = founded_paths st
    ∧ (∀ x, converted_name x = None →
            is_Some (disk st !! x) → is_Some (disk st' !! x))
    ∧ (∀ x, is_Some (converted_name x) →
            disk st !! x = None → disk st' !! x = None)
    ∧ (∀ x, (∀ q, q ∈ l → x ≠ q ∧ converted_name q ≠ Some x) →
            disk st' !! x = disk st !! x)
    ∧ (∀ i p new, l !! i = Some p → news !! i = Some new → new ≠ p →
                  disk st' !! p = None ∧ is_Some (disk st' !! new)).
Proof.
  induction l as [|p l IH]; intros acc st.
  { exists [], acc.2, st. rewrite app_nil_r.
    split_and!; try done.
    all: try (by destruct acc); try constructor; try (unfold changed; simpl; lia). }
  destruct (convert_one_step p st)
    as (new & c & st1 & Hone & Hcand & Hc & Hfp1 & Hkeep1 & Hgone1 & Hother1 & Hconv1).
  assert (Hstep : convertTypes_step acc p st
    = (Ok (acc.1 ++ [new], if c then S acc.2 else acc.2), st1)).
  { unfold convertTypes_step. by rewrite (bind_ok _ _ _ _ _ Hone). }
  destruct (IH (acc.1 ++ [new], if c then S acc.2 else acc.2) st1)
    as (news & n & st' & Hrun & Hall & Hn & Hfp & Hkeep & Hgone & Hother & Hconv).
  simpl in Hrun, Hn.
  exists (new :: news), n, st'. split_and!.
  - simpl. rewrite (bind_ok _ _ _ _ _ Hstep), Hrun. by rewrite <- app_assoc.
  - by constructor.
  - rewrite changed_cons, Hn.
    destruct (decide (p ≠ new)) as [Hd|Hd]; destruct c; try lia.
    + assert (false = true) by (apply Hc; congruence). done.
    + apply dec_stable in Hd. by destruct (proj1 Hc eq_refl).
  - by rewrite Hfp.
  - intros x Hx Hsome. by apply Hkeep, Hkeep1.
  - intros x Hx Hnone. by apply Hgone, Hgone1.
  - intros x Hx. rewrite Hother.
    + destruct (Hx p ltac:(by left)) as [? ?]. by apply Hother1.
    + intros q Hq. apply Hx. by right.
  - intros [|i] p' new'; simpl.
    + intros [= <-] [= <-] Hne.
      destruct (Hconv1 Hne) as [Hp Hnew]. split.
      * apply Hgone; [|done]. destruct Hcand as [?|E]; [done|]. by rewrite E.
      * apply Hkeep; [|done]. destruct Hcand as [?|E]; [done|].
        by destruct (converted_name_fresh _ _ E) as (_ & _ & _ & ?).
    + apply Hconv.
Qed.
Lemma convertTypes_effect st :
  ∃ st',
    convertTypes st = (Ok tt, st')
    ∧ Forall2 (λ p new, new = p ∨ converted_name p = Some new)
        (founded_paths st) (founded_paths st')
    ∧ last (stdout st')
      = Some (MsgConverted (changed (founded_paths st) (founded_paths st')))
    ∧ (∀ x, (∀ q, q ∈ founded_paths st → x ≠ q ∧ converted_name q ≠ Some x) →
            disk st' !! x = disk st !! x)
    ∧ (∀ i p new, founded_paths st !! i = Some p →
                  founded_paths st' !! i = Some new → new ≠ p →
                  disk st' !! p = None ∧ is_Some (disk st' !! new)).
Proof.
  destruct (convertTypes_loop_effect (founded_paths st) ([], O) st)
    as (news & n & st1 & Hrun & Hall & Hn & Hfp & _ & _ & Hother & Hconv).
  simpl in Hrun, Hn.
  eexists. split.
  { unfold convertTypes, convertTypes_loop. cbv [bind get modify print].
    rewrite Hrun. reflexivity. }
  simpl. split_and!; try done.
  by rewrite last_snoc, Hn.
Qed.

(** X9.  [convertTypes] never raises and keeps one record per record, in
    order: each path is left as it was or replaced by its converted name
    (the stem with [.png] for [.heic] and [.webp], with [.mp4] for [.avi],
    [.mkv], [.mov] and [.webm]), and an image stays an image, a video a
    video. *)
Theorem convertTypes_keeps_kinds (st : State) :
  ∃ st',
    convertTypes st = (Ok tt, st')
    ∧ Forall2 (λ p new,
                 (new = p ∨ converted_name p = Some new)
                 ∧ is_image new = is_image p ∧ is_video new = is_video p)
        (founded_paths st) (founded_paths st').
Proof.
  destruct (convertTypes_effect st) as (st' & Hrun & Hall & _).
  exists st'. split; [done|].
  eapply Forall2_impl; [exact Hall|]. intros p new [->|Hname]; [by auto|].
  destruct (converted_name_fresh p new Hname) as (_ & ? & ? & _). auto.
Qed.

(** X10.  The number [convertTypes] prints last is the number of records
    whose path it changed. *)
Theorem convertTypes_reports_changed_records (st : State) :
  ∃ st',
    convertTypes st = (Ok tt, st')
    ∧ last (stdout st')
      = Some (MsgConverted (changed (founded_paths st) (founded_paths st'))).
Proof.
  destruct (convertTypes_effect st) as (st' & Hrun & _ & Hlast & _). eauto.
Qed.

(** X11.  A record whose path [convertTypes] changed has been converted:
    the new path is its converted name, the file at the old path is gone
    and there is a file at the new path when the stage ends. *)
Theorem converted_records_replaced
    (st st' : State) (i : nat) (p new : string) :
  convertTypes st = (Ok tt, st') →
  founded_paths st !! i = Some p →
  founded_paths st' !! i = Some new →
  new ≠ p →
  converted_name p = Some new
  ∧ disk st' !! p = None
  ∧ is_Some (disk st' !! new).
Proof.
  intros Hrun Hp Hnew Hne.
  destruct (convertTypes_effect st) as (st1 & Hrun1 & Hall & _ & _ & Hconv).
  rewrite Hrun in Hrun1. injection Hrun1 as <-.
  split; [|by eapply Hconv].
  destruct (Forall2_lookup_lr _ _ _ _ _ _ Hall Hp Hnew) as [?|?]; done.
Qed.

Lemma converted_records_replaced_witness :
  converted_name "C:\in\b.mov" = Some "C:\in\b.mp4"
  ∧ disk (convertTypes world_mixed).2 !! "C:\in\b.mov" = None
  ∧ is_Some (disk (convertTypes world_mixed).2 !! "C:\in\b.mp4").
Proof.
  apply (converted_records_replaced world_mixed (convertTypes world_mixed).2 1).
  - vm_compute. reflexivity.
  - reflexivity.
  - vm_compute. reflexivity.
  - apply (bool_decide_unpack _). vm_compute. exact I.
Defined.

Lemma convertTypes_loop_skip l : ∀ acc st,
  (∀ p, p ∈ l → converted_name p = None) →
  for_each l convertTypes_step acc st = (Ok (acc.1 ++ l, acc.2), st).
Proof.
  induction l as [|p l IH]; intros acc st Hl; simpl.
  { rewrite app_nil_r. by destruct acc. }
  unfold bind, convertTypes_step at 1, bind.
  rewrite (convert_one_skip p st) by (apply Hl; by left). cbv [ret].
  rewrite IH by (intros q Hq; apply Hl; by right). simpl.
  by rewrite <- app_assoc.
Qed.

(** X12.  When no record has a convertible extension, [convertTypes]
    changes nothing: it prints that 0 files were converted and leaves the
    records and the disk as they were. *)
Theorem nothing_to_convert (st : State) :
  (∀ p, p ∈ founded_paths st → converted_name p = None) →
  convertTypes st = (Ok tt, add_msg (MsgConverted 0) st).
Proof.
  intros Hnone. unfold convertTypes, convertTypes_loop.
  cbv [bind get modify print].
  rewrite (convertTypes_loop_skip _ _ _ Hnone). simpl. by destruct st.
Qed.

Lemma nothing_to_convert_witness :
  convertTypes world_chain = (Ok tt, add_msg (MsgConverted 0) world_chain).
Proof.
  apply (nothing_to_convert world_chain).
  intros p Hp. cbn in Hp.
  repeat (apply elem_of_cons in Hp as [->|Hp]; [by vm_compute|]).
  by apply elem_of_nil in Hp.
Defined.
(** ** [convertTypes]: a conversion that fails *)

(** A record that fails to convert is a convertible one. *)
Lemma conversion_fails_convertible st p :
  conversion_fails st p → is_Some (converted_name p).
Proof.
  intros [Hext _|Himg _|Himg _|f e Hv _ _|f rc err Hv _ _ _|Hv _|f Hv _ _ _].
  1: assert (Himg : convertible_image p)
       by (unfold convertible_image; rewrite Hext; set_solver).
  1-3: by rewrite (converted_name_image p Himg).
  all: by rewrite (converted_name_video p Hv).
Qed.

(** No record is converted to a convertible path. *)
Lemma converted_name_not_convertible p q :
  is_Some (converted_name p) → converted_name q ≠ Some p.
Proof.
  intros [np Hp] Hq. destruct (converted_name_fresh q p Hq) as (_ & _ & _ & E).
  congruence.
Qed.

(** A conversion that stops at an exception has not touched the source. *)
Lemma convert_image_raises_keeps p st e st1 :
  stem p +:+ ".png" ≠ p →
  convert_image p st = (Raise e, st1) → disk st1 !! p = disk st !! p.
Proof.
  intros Hne. unfold convert_image. run_monad. cbn.
  repeat (case_match; simplify_eq/=); try done.
  all: intros [= <- <-]; simpl; by rewrite ?lookup_insert_ne by done.
Qed.

(** Unless ffmpeg succeeded, the source of a video is as it was. *)
Lemma convert_video_keeps p st :
  stem p +:+ ".mp4" ≠ p →
  match convert_video p st with
  | (Ok (_, true), _) => True
  | (_, st1) => disk st1 !! p = disk st !! p
  end.
Proof.
  intros Hne. unfold convert_video, run_ffmpeg. run_monad. cbn.
  repeat (case_match; simplify_eq/=); try done.
  all: simpl; by rewrite ?lookup_insert_ne by done.
Qed.

(** A record that keeps its path keeps its file. *)
Lemma convert_one_kept p st st1 :
  convert_one p st = (Ok (p, false), st1) → disk st1 !! p = disk st !! p.
Proof.
  destruct (converted_name p) as [np|] eqn:Hname.
  2:{ rewrite (convert_one_skip p st Hname). by intros [= <-]. }
  destruct (converted_name_fresh p np Hname) as (Hne & _).
  revert Hname. unfold convert_one, try_except, converted_name,
    convertible_image, convertible_video.
  destruct (bool_decide (ext_of p ∈ [".heic"; ".webp"])) eqn:Himg.
  - intros [= <-].
    assert (Hinner : ∀ st0,
      match convert_image p st0 with
      | (Ok a, st2) => (Ok a, st2)
      | (Raise e, st2) => (print (MsgFailedConvert p e) ;; ret (p, false)) st2
      end = (Ok (p, false), st1) →
      disk st1 !! p = disk st0 !! p).
    { intros st0. destruct (convert_image p st0) as [[[n c]|e] st2] eqn:Hrun.
      - intros [= -> -> ->].
        by destruct (convert_image_converted _ _ _ _ _ Hrun) as (_ & ? & _).
      - run_monad. intros [= <-]. simpl.
        by apply (convert_image_raises_keeps p st0 e). }
    simpl. destruct (bool_decide (ext_of p = ".heic")); [|apply Hinner].
    run_monad. cbn. destruct (heif_decoder st); cbn; [apply Hinner|].
    by intros [= <-].
  - destruct (bool_decide (ext_of p ∈ [".avi"; ".mkv"; ".mov"; ".webm"])) eqn:Hvid;
      [|done].
    intros [= <-]. simpl. pose proof (convert_video_keeps p st Hne) as Hkeep.
    destruct (convert_video p st) as [[[n c]|e] st2].
    + intros [= -> -> ->]. done.
    + run_monad. by intros [= <-].
Qed.

(** C7.  For every record of [founded_paths], if its conversion fails in
    the state the loop has reached when it gets to the record (missing HEIC
    decoder, image that PIL cannot read or write, ffmpeg time-out, error or
    missing output), then [convertTypes] still returns and the record is in
    the new [founded_paths], at the same position, with its original path.
    Its file is unmodified: when the path is not listed again after the
    record, the file is at the end of the stage what it was when the loop
    reached the record, and when the path is listed once only, what it was
    before the stage. *)
Theorem normalize_pass_through (st : State) (l1 l2 : list string) (p : string) :
  founded_paths st = l1 ++ p :: l2 →
  conversion_fails (convertTypes_loop l1 st).2 p →
  ∃ st',
    convertTypes st = (Ok tt, st')
    ∧ founded_paths st' !! length l1 = Some p
    ∧ length (founded_paths st') = length (founded_paths st)
    ∧ (p ∉ l2 → disk st' !! p = disk (convertTypes_loop l1 st).2 !! p)
    ∧ (p ∉ l1 → p ∉ l2 → disk st' !! p = disk st !! p).
Proof.
  intros Hfp Hfail.
  destruct (convertTypes_loop_effect l1 ([], O) st)
    as (news1 & n1 & st1 & Hrun1 & Hall1 & _ & _ & _ & _ & Hdisk1 & _).
  unfold convertTypes_loop in *. rewrite Hrun1 in Hfail |- *. simpl in Hfail.
  pose proof (conversion_fails_convertible _ _ Hfail) as Hconv.
  destruct (convert_one_pass_through p st1 Hfail) as (st2 & Hone).
  pose proof (convert_one_kept _ _ _ Hone) as Hkeep.
  destruct (convertTypes_loop_effect l2 (news1 ++ [p], n1) st2)
    as (news2 & n2 & st3 & Hrun2 & Hall2 & _ & _ & _ & _ & Hdisk2 & _).
  assert (Hlater : p ∉ l2 → disk st3 !! p = disk st1 !! p).
  { intros Hp. rewrite Hdisk2, Hkeep; [done|]. intros q Hq. split.
    - intros ->. done.
    - by apply converted_name_not_convertible. }
  eexists. split_and!.
  - unfold convertTypes, convertTypes_loop. cbv [bind get].
    rewrite Hfp, for_each_app, Hrun1. simpl for_each. unfold bind at 1.
    unfold convertTypes_step at 1. rewrite (bind_ok _ _ _ _ _ Hone).
    cbv [ret]. simpl. rewrite Hrun2. reflexivity.
  - simpl. apply Forall2_length in Hall1. rewrite Hall1, <- app_assoc.
    by rewrite lookup_app_r, Nat.sub_diag.
  - simpl. apply Forall2_length in Hall1, Hall2.
    rewrite Hfp, !length_app. simpl. lia.
  - simpl. exact Hlater.
  - simpl. intros Hp1 Hp2. rewrite (Hlater Hp2). apply Hdisk1. intros q Hq. split.
    + intros ->. done.
    + by apply converted_name_not_convertible.
Qed.

Lemma normalize_pass_through_witness :
  ∃ st',
    convertTypes world_timeout = (Ok tt, st')
    ∧ founded_paths st' !! length ["C:\in\a.webp"] = Some "C:\in\clip.avi"
    ∧ length (founded_paths st') = length (founded_paths world_timeout)
    ∧ disk st' !! "C:\in\clip.avi" = disk world_timeout !! "C:\in\clip.avi".
Proof.
  destruct (normalize_pass_through world_timeout ["C:\in\a.webp"] []
              "C:\in\clip.avi") as (st' & Hrun & Hfp & Hlen & _ & Hdisk).
  - reflexivity.
  - apply (transcoder_raises _ _
             (clip march_2023 (FfmpegRaises TimeoutExpired) None) TimeoutExpired).
    + apply (bool_decide_unpack _). vm_compute. exact I.
    + vm_compute. reflexivity.
    + reflexivity.
  - exists st'. split_and!; try done. apply Hdisk.
    + apply (bool_decide_unpack _). vm_compute. exact I.
    + apply not_elem_of_nil.
Defined.

(** Why the path must not be listed again.  On [world_listed_twice] the
    second record fails to convert because the first one has converted and
    removed the file; on [world_same_output] the first record fails and
    keeps its path, and the file is removed when the same path converts
    later, the output of another record being there by then. *)
Example convertTypes_on_world_listed_twice :
  let r := convertTypes world_listed_twice in
  r.1 = Ok tt
  ∧ founded_paths r.2 = ["C:\in\a.png"; "C:\in\a.webp"]
  ∧ disk r.2 !! "C:\in\a.webp" = None.
Proof. vm_compute. done. Qed.

Example convertTypes_on_world_same_output :
  let r := convertTypes world_same_output in
  conversion_fails world_same_output "C:\in\a.avi"
  ∧ r.1 = Ok tt
  ∧ founded_paths r.2 = ["C:\in\a.avi"; "C:\in\a.mp4"; "C:\in\a.mp4"]
  ∧ disk r.2 !! "C:\in\a.avi" = None.
Proof.
  split; [|by vm_compute].
  apply (transcoder_no_output _ _ (clip march_2023 (FfmpegExit 0 "") None)).
  - apply (bool_decide_unpack _). vm_compute. exact I.
  - vm_compute. reflexivity.
  - reflexivity.
  - vm_compute. reflexivity.
Qed.

(** ** [removeLargeFiles], on any list *)

Section SizeFilterAny.
Variables max_image_bytes max_video_bytes : Z.

Local Abbreviation step := (removeLargeFiles_step max_image_bytes max_video_bytes).

(** One iteration never raises; it can only drop the record and delete its
    file. *)
Lemma size_step_shrinks removed q st :
  ∃ removed' st',
    step removed q st = (Ok removed', st')
    ∧ founded_paths st' `sublist_of` founded_paths st
    ∧ disk st' ⊆ disk st
    ∧ made_dirs st' = made_dirs st ∧ file_dates st' = file_dates st
    ∧ heif_decoder st' = heif_decoder st.
Proof.
  destruct (rejected_by_size max_image_bytes max_video_bytes st q) eqn:Hrej;
    [destruct (deletable st q) eqn:Hdel|].
  - destruct (Py.list_remove q (founded_paths st)) as [l'|] eqn:Hl.
    + rewrite (step_delete _ _ removed q st l' Hrej Hdel Hl).
      do 2 eexists. split; [done|]. simpl. split_and!; try done.
      * by eapply list_remove_sublist.
      * apply delete_subseteq.
    + rewrite (step_delete_unlisted _ _ removed q st Hrej Hdel Hl).
      do 2 eexists. split; [done|]. simpl. split_and!; try done.
      apply delete_subseteq.
  - rewrite (step_fail _ _ removed q st Hrej Hdel).
    do 2 eexists. split; [done|]. simpl. by split_and!.
  - rewrite (step_keep _ _ removed q st Hrej).
    do 2 eexists. split; [done|]. by split_and!.
Qed.

Lemma size_loop_shrinks l : ∀ removed st,
  ∃ removed' st',
    for_each l step removed st = (Ok removed', st')
    ∧ founded_paths st' `sublist_of` founded_paths st
    ∧ disk st' ⊆ disk st
    ∧ made_dirs st' = made_dirs st ∧ file_dates st' = file_dates st
    ∧ heif_decoder st' = heif_decoder st.
Proof.
  induction l as [|q l IH]; intros removed st.
  { do 2 eexists. split; [done|]. by split_and!. }
  destruct (size_step_shrinks removed q st)
    as (removed1 & st1 & Hstep & Hfp1 & Hd1 & Hm1 & Hf1 & Hh1).
  destruct (IH removed1 st1) as (removed' & st' & Hrun & Hfp & Hd & Hm & Hf & Hh).
  exists removed', st'. split_and!.
  - simpl. by rewrite (bind_ok _ _ _ _ _ Hstep).
  - by etrans.
  - by etrans.
  - by rewrite Hm.
  - by rewrite Hf.
  - by rewrite Hh.
Qed.

End SizeFilterAny.

(** X13.  [removeLargeFiles] never raises, whatever the records and the
    disk: it returns, the records left are a sub-list of the records it
    found, in order, every file left on disk is a file that was there,
    unchanged, and no directory is created. *)
Theorem size_filter_never_raises
    (max_image_bytes max_video_bytes : Z) (st : State) :
  ∃ st',
    removeLargeFiles max_image_bytes max_video_bytes st = (Ok tt, st')
    ∧ founded_paths st' `sublist_of` founded_paths st
    ∧ disk st' ⊆ disk st
    ∧ made_dirs st' = made_dirs st.
Proof.
  destruct (size_loop_shrinks max_image_bytes max_video_bytes
              (founded_paths st) [] st)
    as (removed & st1 & Hrun & Hfp & Hd & Hm & _).
  eexists. split.
  { unfold removeLargeFiles. cbv [bind get print modify]. rewrite Hrun.
    reflexivity. }
  simpl. by split_and!.
Qed.

Lemma filter_negb_length {A} (f : A → bool) (l : list A) :
  (length (filter (λ x, f x) l) + length (filter (λ x, negb (f x)) l))%nat
  = length l.
Proof.
  induction l as [|x l IH]; [done|].
  destruct (f x) eqn:E.
  - rewrite filter_cons_True by (by_verdict E).
    rewrite filter_cons_False by (by_verdict E). simpl. lia.
  - rewrite filter_cons_False by (by_verdict E).
    rewrite filter_cons_True by (by_verdict E). simpl. lia.
Qed.

(** X14.  On records without a repeated path, the number
    [removeLargeFiles] prints last is the number of records it dropped, and
    a record is dropped exactly when the stage deleted its file. *)
Theorem size_filter_reports_dropped_records
    (max_image_bytes max_video_bytes : Z) (st : State) :
  NoDup (founded_paths st) →
  ∃ st',
    removeLargeFiles max_image_bytes max_video_bytes st = (Ok tt, st')
    ∧ last (stdout st')
      = Some (MsgLargeRemoved
                (length (founded_paths st) - length (founded_paths st')))
    ∧ ∀ p, p ∈ founded_paths st →
           (p ∉ founded_paths st')
           ↔ is_Some (disk st !! p) ∧ disk st' !! p = None.
Proof.
  intros Hnd.
  destruct (removeLargeFiles_loop max_image_bytes max_video_bytes
              (founded_paths st) [] [] st eq_refl Hnd)
    as (st1 & Hrun & Hfp & Hdisk & _).
  simpl in Hrun, Hfp.
  eexists. split.
  { unfold removeLargeFiles. cbv [bind get print modify]. rewrite Hrun.
    reflexivity. }
  simpl. split.
  - rewrite last_snoc. do 2 f_equal. rewrite Hfp.
    pose proof (filter_negb_length
      (removed_by_size max_image_bytes max_video_bytes st) (founded_paths st)).
    lia.
  - intros p Hp. rewrite Hfp, Hdisk, list_elem_of_filter.
    rewrite (bool_decide_eq_true_2 _ Hp). simpl.
    destruct (removed_by_size max_image_bytes max_video_bytes st p) eqn:Hrm; simpl.
    + split; [|tauto]. intros _. split; [|done].
      unfold removed_by_size, deletable in Hrm.
      apply andb_true_iff in Hrm as [_ Hrm].
      by destruct (disk st !! p).
    + split; [tauto|]. intros [[f Hf] Hn]. congruence.
Qed.

Lemma size_filter_reports_dropped_records_witness :
  ∃ st',
    removeLargeFiles default_max_image_bytes default_max_video_bytes world_sizes
      = (Ok tt, st')
    ∧ last (stdout st')
      = Some (MsgLargeRemoved
                (length (founded_paths world_sizes) - length (founded_paths st')))
    ∧ ∀ p, p ∈ founded_paths world_sizes →
           (p ∉ founded_paths st')
           ↔ is_Some (disk world_sizes !! p) ∧ disk st' !! p = None.
Proof.
  apply (size_filter_reports_dropped_records default_max_image_bytes
           default_max_video_bytes world_sizes).
  apply (bool_decide_unpack _). vm_compute. exact I.
Defined.
(** ** [checkQuality], record by record *)

Section QualityFilter.
Variables min_image_size min_video_size : Z * Z.

Local Abbreviation qstep := (checkQuality_step min_image_size min_video_size).
Local Abbreviation low := (low_quality min_image_size min_video_size).
Local Abbreviation dropped := (removed_by_quality min_image_size min_video_size).

Lemma quality_test_reads p st :
  (quality_test min_image_size min_video_size p st).2 = st.
Proof.
  unfold quality_test, run_ffprobe, low_quality_video. run_monad. cbn.
  repeat (case_match; simplify_eq/=); done.
Qed.

Lemma quality_test_run p st :
  quality_test min_image_size min_video_size p st = (low st p, st).
Proof.
  unfold low_quality. rewrite <- (quality_test_reads p st) at 3.
  by destruct (quality_test _ _ p st).
Qed.

Lemma checkQuality_step_test removed p st :
  qstep removed p st
  = match low st p with
    | Ok true =>
        (os_remove p ;; founded_paths_remove p ;; ret (removed ++ [p])) st
    | Ok false => (Ok removed, st)
    | Raise e => (Raise e, st)
    end.
Proof.
  change (qstep removed p st)
    with (bind (quality_test min_image_size min_video_size p)
            (λ should_remove : bool,
               if should_remove
               then os_remove p ;; founded_paths_remove p ;; ret (removed ++ [p])
               else ret removed) st).
  unfold bind at 1. rewrite quality_test_run.
  by destruct (low st p) as [[]|].
Qed.

Lemma low_quality_local st st' p :
  disk st' !! p = disk st !! p → low st' p = low st p.
Proof.
  intros H. unfold low_quality, quality_test, run_ffprobe, low_quality_video.
  run_monad. repeat (destruct (bool_decide _)); cbn; rewrite ?H; try done.
  all: repeat (case_match; simplify_eq/=); done.
Qed.

Lemma dropped_local st st' p :
  disk st' !! p = disk st !! p → dropped st' p = dropped st p.
Proof.
  intros H. unfold removed_by_quality, deletable.
  by rewrite (low_quality_local st st' p H), H.
Qed.

Lemma quality_step_keep removed p st :
  low st p = Ok false → qstep removed p st = (Ok removed, st).
Proof. intros H. by rewrite checkQuality_step_test, H. Qed.

Lemma quality_step_delete removed p st l' :
  low st p = Ok true → deletable st p = true →
  Py.list_remove p (founded_paths st) = Some l' →
  qstep removed p st
  = (Ok (removed ++ [p]), set_founded_paths l' (set_disk (delete p (disk st)) st)).
Proof.
  intros H Hd Hl. rewrite checkQuality_step_test, H.
  unfold bind at 1. rewrite (os_remove_succeeds _ _ Hd).
  run_monad. simpl. by rewrite Hl.
Qed.

(** The loop over the part [l] of the snapshot still to be visited; [pre]
    is what was visited and kept. *)
Lemma checkQuality_loop l : ∀ pre removed st,
  founded_paths st = pre ++ l → NoDup (pre ++ l) →
  (∀ p, p ∈ l → ∃ b, low st p = Ok b ∧ (b = true → deletable st p = true)) →
  ∃ st',
    for_each l qstep removed st
      = (Ok (removed ++ filter (λ p, dropped st p) l), st')
    ∧ founded_paths st' = pre ++ filter (λ p, negb (dropped st p)) l
    ∧ (∀ q, disk st' !! q
            = if bool_decide (q ∈ l) && dropped st q then None
              else disk st !! q)
    ∧ stdout st' = stdout st.
Proof.
  induction l as [|p l IH]; intros pre removed st Hfp Hnd Hok.
  { exists st. simpl. rewrite !app_nil_r. rewrite app_nil_r in Hfp.
    by split_and!. }
  assert (Hp : (p ∉ pre) ∧ (p ∉ l)).
  { apply NoDup_app in Hnd as (_ & Hpre & Hl). apply NoDup_cons in Hl as [Hl _].
    split; [|done]. intros Hin. apply (Hpre p Hin). by left. }
  destruct Hp as [Hp_pre Hp_l].
  assert (Hother : ∀ q, q ∈ l → q ≠ p) by (intros q Hq ->; done).
  destruct (Hok p ltac:(by left)) as (b & Hlow & Hdel).
  simpl for_each. destruct b.
  - specialize (Hdel eq_refl).
    rewrite (bind_ok _ _ _ _ _
      (quality_step_delete removed p st (pre ++ l) Hlow Hdel
         ltac:(rewrite Hfp; by apply list_remove_fresh_prefix))).
    set (st1 := set_founded_paths (pre ++ l) (set_disk (delete p (disk st)) st)).
    assert (Hdisk1 : ∀ q, q ≠ p → disk st1 !! q = disk st !! q).
    { intros q Hq. simpl. by rewrite lookup_delete_ne. }
    destruct (IH pre (removed ++ [p]) st1) as (st' & Hrun & Hfp' & Hdisk' & Hout').
    { done. }
    { apply NoDup_app in Hnd as (H1 & H2 & H3). apply NoDup_app. split_and!; [done| |].
      - intros x Hx Hxl. apply (H2 x Hx). by right.
      - by apply NoDup_cons in H3 as [_ H3]. }
    { intros q Hq. destruct (Hok q ltac:(by right)) as (b & Hb & Hbd).
      exists b. rewrite (low_quality_local st st1 q (Hdisk1 q (Hother q Hq))).
      split; [done|]. intros Hbt. unfold deletable.
      rewrite (Hdisk1 q (Hother q Hq)). by apply Hbd. }
    assert (Hrm : dropped st p = true)
      by (unfold removed_by_quality; by rewrite Hlow).
    exists st'. split_and!.
    + rewrite Hrun. do 2 f_equal.
      rewrite filter_cons_True by (by_verdict Hrm).
      rewrite <- app_assoc. simpl. do 2 f_equal.
      apply filter_ext_elem. intros q Hq.
      by rewrite (dropped_local st st1 q (Hdisk1 q (Hother q Hq))).
    + rewrite Hfp'. f_equal.
      rewrite filter_cons_False by (by_verdict Hrm).
      apply filter_ext_elem. intros q Hq.
      by rewrite (dropped_local st st1 q (Hdisk1 q (Hother q Hq))).
    + intros q. rewrite Hdisk'. destruct (decide (q = p)) as [->|Hq].
      * rewrite (bool_decide_eq_false_2 _ Hp_l). simpl.
        rewrite lookup_delete_eq.
        rewrite bool_decide_eq_true_2 by (by left). by rewrite Hrm.
      * rewrite (dropped_local st st1 q (Hdisk1 q Hq)).
        rewrite (Hdisk1 q Hq).
        replace (bool_decide (q ∈ p :: l)) with (bool_decide (q ∈ l)); [done|].
        apply bool_decide_ext. rewrite elem_of_cons. naive_solver.
    + by rewrite Hout'.
  - rewrite (bind_ok _ _ _ _ _ (quality_step_keep removed p st Hlow)).
    destruct (IH (pre ++ [p]) removed st) as (st' & Hrun & Hfp' & Hdisk' & Hout').
    { by rewrite Hfp, <- app_assoc. }
    { by rewrite <- app_assoc. }
    { intros q Hq. apply Hok. by right. }
    assert (Hrm : dropped st p = false)
      by (unfold removed_by_quality; by rewrite Hlow).
    exists st'. split_and!.
    + rewrite Hrun. do 2 f_equal. by rewrite filter_cons_False by (by_verdict Hrm).
    + rewrite Hfp', <- app_assoc. f_equal.
      by rewrite filter_cons_True by (by_verdict Hrm).
    + intros q. rewrite Hdisk'. destruct (decide (q = p)) as [->|Hq].
      * rewrite Hrm. by rewrite !andb_false_r.
      * replace (bool_decide (q ∈ p :: l)) with (bool_decide (q ∈ l)); [done|].
        apply bool_decide_ext. rewrite elem_of_cons. naive_solver.
    + done.
Qed.

(** The whole stage, when no test raises and every rejected file can be
    deleted. *)
Lemma checkQuality_run st :
  NoDup (founded_paths st) →
  (∀ p, p ∈ founded_paths st →
        ∃ b, low st p = Ok b ∧ (b = true → deletable st p = true)) →
  ∃ st',
    checkQuality min_image_size min_video_size st = (Ok tt, st')
    ∧ founded_paths st' = filter (λ p, negb (dropped st p)) (founded_paths st)
    ∧ (∀ q, disk st' !! q
            = if bool_decide (q ∈ founded_paths st) && dropped st q
              then None else disk st !! q)
    ∧ stdout st'
      = stdout st
        ++ [MsgLowQualityRemoved
              (length (founded_paths st) - length (founded_paths st'))].
Proof.
  intros Hnd Hok.
  destruct (checkQuality_loop (founded_paths st) [] [] st eq_refl Hnd Hok)
    as (st1 & Hrun & Hfp & Hdisk & Hout).
  simpl in Hrun, Hfp.
  eexists. split.
  { unfold checkQuality. cbv [bind get print modify]. rewrite Hrun. reflexivity. }
  simpl. split_and!; try done.
  rewrite Hout, Hfp. do 3 f_equal.
  pose proof (filter_negb_length (dropped st) (founded_paths st)). lia.
Qed.

End QualityFilter.
Lemma low_quality_image a b st p f img :
  is_image p = true → disk st !! p = Some f → f_image f = Some img →
  low_quality a b st p
  = Ok (((img_size img).1 <? a.1) || ((img_size img).2 <? a.2)).
Proof.
  intros Hi Hf Himg. unfold low_quality, quality_test. fold (is_image p).
  rewrite Hi. run_monad. cbn. rewrite Hf. cbn. rewrite Himg. cbn.
  by destruct (img_size img).
Qed.

Lemma is_video_not_image p : is_video p = true → is_image p = false.
Proof.
  unfold is_video, is_image. intros H%bool_decide_eq_true_1.
  apply bool_decide_eq_false_2. intros H'. by apply (exts_disjoint _ H').
Qed.

Lemma low_quality_video_of a b st p :
  is_video p = true →
  (∃ e, low_quality a b st p = Raise e)
  ∨ low_quality a b st p
    = Ok match probed_stream st p with
         | Some (Some s) =>
             (default 0 (width s) <? b.1) || (default 0 (height s) <? b.2)
         | _ => true
         end.
Proof.
  intros Hv. unfold low_quality, quality_test, probed_stream.
  fold (is_image p) (is_video p). rewrite (is_video_not_image p Hv), Hv.
  unfold run_ffprobe, low_quality_video. run_monad. cbn.
  destruct (disk st !! p) as [f|]; cbn; [|by right].
  destruct (f_probe f) as [e|rc out]; cbn; [left; by eexists|].
  destruct (Z.eqb_spec rc 0) as [->|Hrc]; cbn.
  - destruct out as [streams|]; cbn; [|left; by eexists].
    right. by destruct (List.find _ streams).
  - right. destruct rc; try done.
Qed.

(** X15.  On records without a repeated path, when no test raises and
    every rejected file can be deleted, [checkQuality] returns, prints the
    number of records it dropped, and for every record:
    - an image at least as wide and as high as the minimum is kept, its
      file untouched; an image narrower or lower is dropped and deleted;
    - a video is dropped and deleted when ffprobe does not exit with 0,
      when it reports no video stream, and when the first video stream is
      narrower or lower than the minimum (a missing dimension counts as 0);
      otherwise it is kept, its file untouched. *)
Theorem quality_filter_boundary
    (min_image_size min_video_size : Z * Z) (st : State) :
  NoDup (founded_paths st) →
  (∀ p, p ∈ founded_paths st →
        ∃ b, low_quality min_image_size min_video_size st p = Ok b
             ∧ (b = true → deletable st p = true)) →
  ∃ st',
    checkQuality min_image_size min_video_size st = (Ok tt, st')
    ∧ last (stdout st')
      = Some (MsgLowQualityRemoved
                (length (founded_paths st) - length (founded_paths st')))
    ∧ ∀ p, p ∈ founded_paths st →
        let kept := p ∈ founded_paths st' ∧ disk st' !! p = disk st !! p in
        let gone := (p ∉ founded_paths st') ∧ disk st' !! p = None in
        (∀ f img, is_image p = true → disk st !! p = Some f →
                  f_image f = Some img →
                  if ((img_size img).1 <? min_image_size.1)
                     || ((img_size img).2 <? min_image_size.2)
                  then gone else kept)
        ∧ (is_video p = true →
           match probed_stream st p with
           | Some (Some s) =>
               if (default 0 (width s) <? min_video_size.1)
                  || (default 0 (height s) <? min_video_size.2)
               then gone else kept
           | _ => gone
           end).
Proof.
  intros Hnd Hok.
  destruct (checkQuality_run min_image_size min_video_size st Hnd Hok)
    as (st' & Hrun & Hfp & Hdisk & Hout).
  exists st'. split; [done|]. split; [by rewrite Hout, last_snoc|].
  intros p Hp. cbv zeta.
  destruct (Hok p Hp) as (b & Hlow & Hdel).
  assert (Hverdict :
    if b then (p ∉ founded_paths st') ∧ disk st' !! p = None
    else p ∈ founded_paths st' ∧ disk st' !! p = disk st !! p).
  { assert (Hd : removed_by_quality min_image_size min_video_size st p = b).
    { unfold removed_by_quality. rewrite Hlow. destruct b; [by apply Hdel|done]. }
    destruct b; rewrite Hfp, Hdisk, list_elem_of_filter, Hd;
      rewrite (bool_decide_eq_true_2 _ Hp); simpl; (split; [tauto|done]). }
  split.
  - intros f img Hi Hf Himg.
    rewrite (low_quality_image _ _ _ _ _ _ Hi Hf Himg) in Hlow.
    injection Hlow as ->. done.
  - intros Hv.
    destruct (low_quality_video_of min_image_size min_video_size st p Hv)
      as [[e He]|Hq]; [congruence|].
    rewrite Hq in Hlow. injection Hlow as <-.
    by destruct (probed_stream st p) as [[s|]|].
Qed.

Lemma quality_filter_boundary_witness :
  ∃ st',
    checkQuality default_min_size default_min_size world_quality = (Ok tt, st')
    ∧ last (stdout st')
      = Some (MsgLowQualityRemoved
                (length (founded_paths world_quality) - length (founded_paths st')))
    ∧ ∀ p, p ∈ founded_paths world_quality →
        let kept := p ∈ founded_paths st'
                    ∧ disk st' !! p = disk world_quality !! p in
        let gone := (p ∉ founded_paths st') ∧ disk st' !! p = None in
        (∀ f img, is_image p = true → disk world_quality !! p = Some f →
                  f_image f = Some img →
                  if ((img_size img).1 <? default_min_size.1)
                     || ((img_size img).2 <? default_min_size.2)
                  then gone else kept)
        ∧ (is_video p = true →
           match probed_stream world_quality p with
           | Some (Some s) =>
               if (default 0 (width s) <? default_min_size.1)
                  || (default 0 (height s) <? default_min_size.2)
               then gone else kept
           | _ => gone
           end).
Proof.
  apply (quality_filter_boundary default_min_size default_min_size world_quality).
  - apply (bool_decide_unpack _). vm_compute. exact I.
  - intros p Hp. cbn in Hp.
    repeat (apply elem_of_cons in Hp as [->|Hp];
            [eexists; split; [vm_compute; reflexivity|by vm_compute]|]).
    by apply elem_of_nil in Hp.
Defined.

Example checkQuality_on_world_quality :
  let r := checkQuality default_min_size default_min_size world_quality in
  r.1 = Ok tt
  ∧ founded_paths r.2 = ["C:\in\big.jpg"; "C:\in\edge.jpg"; "C:\in\v.mp4"]
  ∧ stdout r.2 = [MsgLowQualityRemoved 2].
Proof. vm_compute. done. Qed.
(** ** [checkQuality]: when it raises *)

Section QualityStops.
Variables min_image_size min_video_size : Z * Z.
Variable p : string.

Local Abbreviation qstep := (checkQuality_step min_image_size min_video_size).
Local Abbreviation low := (low_quality min_image_size min_video_size).

(** The test of [p] raises, or rejects a file that cannot be deleted. *)
Local Abbreviation stuck st :=
  ((∃ e, low st p = Raise e) ∨ (low st p = Ok true ∧ deletable st p = false)).

Lemma quality_step_other removed q st :
  q ≠ p →
  let r := qstep removed q st in
  disk r.2 !! p = disk st !! p ∧ (p ∈ founded_paths st → p ∈ founded_paths r.2).
Proof.
  intros Hq. cbv zeta.
  destruct (qstep removed q st) as [r st1] eqn:Hstep. simpl.
  rewrite checkQuality_step_test in Hstep.
  destruct (low st q) as [[]|e]; [|by simplify_eq|by simplify_eq].
  unfold bind at 1 in Hstep. destruct (deletable st q) eqn:Hd.
  - rewrite (os_remove_succeeds _ _ Hd) in Hstep. revert Hstep. run_monad. simpl.
    destruct (Py.list_remove q (founded_paths st)) as [l'|] eqn:Hl; simpl;
      intros [= <- <-]; simpl; rewrite lookup_delete_ne by done.
    + split; [done|]. intros Hp.
      apply (list_remove_other q p _ l' Hl); [congruence|done].
    + done.
  - rewrite (os_remove_fails _ _ Hd) in Hstep. by simplify_eq.
Qed.

Lemma quality_step_stuck removed st :
  stuck st → ∃ e, qstep removed p st = (Raise e, st).
Proof.
  intros [[e He]|[Hlow Hd]]; rewrite checkQuality_step_test.
  - rewrite He. by eexists.
  - rewrite Hlow. unfold bind at 1. rewrite (os_remove_fails _ _ Hd). by eexists.
Qed.

Lemma quality_loop_stops l : ∀ removed st,
  p ∈ l → p ∈ founded_paths st → stuck st →
  ∃ e st',
    for_each l qstep removed st = (Raise e, st')
    ∧ disk st' !! p = disk st !! p ∧ p ∈ founded_paths st'.
Proof.
  induction l as [|q l IH]; intros removed st Hl Hp Hstuck.
  { by apply elem_of_nil in Hl. }
  simpl for_each. destruct (decide (q = p)) as [->|Hq].
  { destruct (quality_step_stuck removed st Hstuck) as (e & Hstep).
    exists e, st. by rewrite (bind_raise _ _ _ _ _ Hstep). }
  apply elem_of_cons in Hl as [?|Hl]; [done|].
  destruct (quality_step_other removed q st Hq) as [Hd1 Hp1].
  destruct (qstep removed q st) as [[removed1|e] st1] eqn:Hstep; simpl in *.
  - rewrite (bind_ok _ _ _ _ _ Hstep).
    destruct (IH removed1 st1 Hl (Hp1 Hp)) as (e & st' & Hrun & Hd & Hin).
    { unfold deletable.
      rewrite (low_quality_local _ _ st st1 p Hd1), Hd1. exact Hstuck. }
    exists e, st'. split_and!; [done|by rewrite Hd|done].
  - rewrite (bind_raise _ _ _ _ _ Hstep). exists e, st1. auto.
Qed.

End QualityStops.

(** X16.  [checkQuality] has no handler: when the test of a record raises
    (an image that cannot be opened, ffprobe timing out, output that is not
    JSON), or rejects a file that cannot be deleted, the stage raises; the
    record is still in [founded_paths] and its file is as it was. *)
Theorem quality_check_stops
    (min_image_size min_video_size : Z * Z) (st : State) (p : string) :
  p ∈ founded_paths st →
  (∃ e, low_quality min_image_size min_video_size st p = Raise e)
  ∨ (low_quality min_image_size min_video_size st p = Ok true
     ∧ deletable st p = false) →
  ∃ e st',
    checkQuality min_image_size min_video_size st = (Raise e, st')
    ∧ disk st' !! p = disk st !! p
    ∧ p ∈ founded_paths st'.
Proof.
  intros Hp Hstuck.
  destruct (quality_loop_stops min_image_size min_video_size p
              (founded_paths st) [] st Hp Hp Hstuck)
    as (e & st' & Hrun & Hd & Hin).
  exists e, st'. split; [|done].
  unfold checkQuality. cbv [bind get]. by rewrite Hrun.
Qed.

Lemma quality_check_stops_witness :
  ∃ e st',
    checkQuality default_min_size default_min_size world_broken = (Raise e, st')
    ∧ disk st' !! "C:\in\broken.jpg" = disk world_broken !! "C:\in\broken.jpg"
    ∧ "C:\in\broken.jpg" ∈ founded_paths st'.
Proof.
  apply (quality_check_stops default_min_size default_min_size world_broken).
  - apply (bool_decide_unpack _). vm_compute. exact I.
  - left. eexists. vm_compute. reflexivity.
Defined.
(** ** Records are media files *)

Lemma media_valid p :
  is_image p = true ∨ is_video p = true ↔ ext_of p ∈ valid_exts.
Proof.
  unfold is_image, is_video, valid_exts.
  rewrite !bool_decide_eq_true, elem_of_union. done.
Qed.

Lemma collect_loop_frame walk : ∀ st,
  disk (for_each walk collect_dir tt st).2 = disk st
  ∧ stdout (for_each walk collect_dir tt st).2 = stdout st.
Proof.
  intros st.
  apply (for_each_invariant (λ s, disk s = disk st ∧ stdout s = stdout st));
    [|done].
  intros [] [root files] s _ Hs. simpl.
  apply (for_each_invariant (λ s, disk s = disk st ∧ stdout s = stdout st));
    [|done].
  intros [] file s' _ Hs'. unfold collect_file. by case_bool_decide.
Qed.

(** X17.  On a walk whose folders are not bare drives and whose file
    names have no separator and no colon, [collectFiles] never raises and
    touches no file.  It appends to [founded_paths], in the order of the
    walk, the full path of every file whose name has an accepted extension
    in any letter case, keeping what was there; every appended record is an
    image or a video, and the number it prints is the length of the list. *)
Theorem collectFiles_spec (walk : list (string * list string)) (st : State) :
  (∀ entry, entry ∈ walk → bare_drive entry.1 = false) →
  (∀ entry file, entry ∈ walk → file ∈ entry.2 →
     sep_free file = true ∧ char_free ":" file = true) →
  ∃ st' collected,
    collectFiles walk st = (Ok tt, st')
    ∧ founded_paths st' = founded_paths st ++ collected
    ∧ collected `sublist_of` walk_paths walk
    ∧ (∀ p, p ∈ collected
            ↔ p ∈ walk_paths walk ∧ (is_image p = true ∨ is_video p = true))
    ∧ disk st' = disk st
    ∧ stdout st' = stdout st ++ [MsgCollected (length (founded_paths st'))].
Proof.
  intros _ Hplain.
  assert (Hnames : ∀ entry file,
            entry ∈ walk → file ∈ entry.2 → sep_free file = true)
    by (intros entry file He Hf; by destruct (Hplain entry file He Hf)).
  destruct (collectFiles_paths walk st) as (st' & Hrun & Hfp).
  eexists st', _. split; [done|]. split; [exact Hfp|].
  assert (Hmem : ∀ p,
    p ∈ (walk ≫= λ entry,
           Py.path_join entry.1
             <$> filter (λ file, Py.lower (Py.splitext file).2 ∈ valid_exts)
                   entry.2)
    ↔ p ∈ walk_paths walk ∧ (is_image p = true ∨ is_video p = true)).
  { intros p. unfold walk_paths. rewrite !list_elem_of_bind. split.
    - intros (entry & Hp & Hentry).
      apply list_elem_of_fmap in Hp as (file & -> & Hfile).
      apply list_elem_of_filter in Hfile as [Hext Hfile]. split.
      + exists entry. split; [|done]. apply list_elem_of_fmap. eauto.
      + apply media_valid. by rewrite ext_of_join by eauto.
    - intros [(entry & Hp & Hentry) Hmedia].
      apply list_elem_of_fmap in Hp as (file & -> & Hfile).
      exists entry. split; [|done]. apply list_elem_of_fmap.
      exists file. split; [done|]. apply list_elem_of_filter. split; [|done].
      apply media_valid in Hmedia. by rewrite ext_of_join in Hmedia by eauto. }
  split_and!.
  - apply bind_sublist_pointwise. intros [root files]. simpl.
    apply fmap_sublist, sublist_filter.
  - exact Hmem.
  - revert Hrun. unfold collectFiles. cbv [bind get print modify].
    pose proof (collect_loop_frame walk st) as [Hd _].
    destruct (for_each walk collect_dir tt st) as [[[]|e] st1]; [|done].
    intros [= <-]. done.
  - revert Hrun. unfold collectFiles. cbv [bind get print modify].
    pose proof (collect_loop_frame walk st) as [_ Ho].
    destruct (for_each walk collect_dir tt st) as [[[]|e] st1]; [|done].
    intros [= <-]. simpl in *. by rewrite Ho.
Qed.

Lemma collectFiles_spec_witness :
  ∃ st' collected,
    collectFiles walk_example (world [] []) = (Ok tt, st')
    ∧ founded_paths st' = founded_paths (world [] []) ++ collected
    ∧ collected `sublist_of` walk_paths walk_example
    ∧ (∀ p, p ∈ collected
            ↔ p ∈ walk_paths walk_example
              ∧ (is_image p = true ∨ is_video p = true))
    ∧ disk st' = disk (world [] [])
    ∧ stdout st'
      = stdout (world [] []) ++ [MsgCollected (length (founded_paths st'))].
Proof.
  apply (collectFiles_spec walk_example (world [] [])).
  - intros entry Hentry. cbn in Hentry.
    repeat (apply elem_of_cons in Hentry as [->|Hentry]; [reflexivity|]).
    by apply elem_of_nil in Hentry.
  - intros entry file Hentry Hfile. cbn in Hentry.
    repeat (apply elem_of_cons in Hentry as [->|Hentry];
            [cbn in Hfile;
             repeat (apply elem_of_cons in Hfile as [->|Hfile];
                     [split; reflexivity|]);
             by apply elem_of_nil in Hfile|]).
    by apply elem_of_nil in Hentry.
Defined.
(** ** [organizeMemories]: the search for a free name *)

Lemma append_inj_r a b c : a +:+ c = b +:+ c → a = b.
Proof.
  intros H.
  assert (Hlen : String.length a = String.length b).
  { apply (f_equal String.length) in H. rewrite !string_length_app in H. lia. }
  revert b H Hlen. induction a as [|x a IH]; intros [|y b]; simpl; try done.
  rewrite !append_String. intros [= -> H] [= Hlen]. f_equal. by apply IH.
Qed.

Lemma path_join_inj a b b' : Py.path_join a b = Py.path_join a b' → b = b'.
Proof.
  unfold Py.path_join. destruct a as [|x a]; [done|].
  destruct (Py.ends_with_sep (String x a)).
  - by intros ?%(inj (String.append _)).
  - intros H%(inj (String.append _)). by apply (inj (String.append "\")) in H.
Qed.

Lemma numbered_target_inj target_dir filename k k' :
  numbered_target target_dir filename k = numbered_target target_dir filename k' →
  k = k'.
Proof.
  unfold numbered_target. intros H%path_join_inj.
  apply (inj (String.append _)) in H. apply (inj (String.append "_")) in H.
  apply append_inj_r in H. by apply str_inj.
Qed.

Lemma find_target_step fuel target_dir filename target_path counter st :
  find_target fuel target_dir filename target_path counter st
  = if bool_decide (is_Some (disk st !! target_path)) then
      match fuel with
      | O => (Ok None, st)
      | S fuel' =>
          find_target fuel' target_dir filename
            (numbered_target target_dir filename counter) (counter + 1) st
      end
    else (Ok (Some target_path), st).
Proof.
  destruct fuel; simpl; run_monad; cbn; case_bool_decide; try done.
  unfold numbered_target. by destruct (Py.splitext filename).
Qed.

(** The search reads the disk only, and what it returns is the first free
    path among the given one and the numbered ones. *)
Lemma find_target_spec target_dir filename st fuel : ∀ target_path counter,
  ∃ r,
    find_target fuel target_dir filename target_path counter st = (Ok r, st)
    ∧ ∀ found, r = Some found →
        disk st !! found = None
        ∧ (found = target_path
           ∨ is_Some (disk st !! target_path)
             ∧ ∃ k, counter <= k
                    ∧ found = numbered_target target_dir filename k
                    ∧ ∀ j, counter <= j < k →
                        is_Some (disk st !! numbered_target target_dir filename j)).
Proof.
  induction fuel as [|fuel IH]; intros target_path counter;
    rewrite find_target_step; case_bool_decide as Hpresent.
  - eexists. split; [done|]. done.
  - eexists. split; [done|]. intros found [= <-]. split; [|by left].
    by apply eq_None_not_Some.
  - destruct (IH (numbered_target target_dir filename counter) (counter + 1))
      as (r & Hrun & Hfound).
    exists r. split; [done|]. intros found Hr.
    destruct (Hfound found Hr) as (Hfree & Hwhich). split; [done|].
    right. split; [done|].
    destruct Hwhich as [->|(Hfirst & k & Hk & -> & Hbelow)].
    + exists counter. split_and!; [lia|done|]. intros j Hj. lia.
    + exists k. split_and!; [lia|done|]. intros j Hj.
      destruct (decide (j = counter)) as [->|Hne]; [done|]. apply Hbelow. lia.
  - eexists. split; [done|]. intros found [= <-]. split; [|by left].
    by apply eq_None_not_Some.
Qed.

(** Fewer files on disk than fuel: a name is found. *)
Lemma some_name_free target_dir filename (d : gmap string File) counter :
  ∃ k, counter <= k <= counter + Z.of_nat (size d)
       ∧ d !! numbered_target target_dir filename k = None.
Proof.
  set (names := numbered_target target_dir filename
                  <$> seqZ counter (Z.of_nat (size d) + 1)).
  destruct (decide (Exists (λ n, d !! n = None) names)) as [Hex|Hall].
  - apply Exists_exists in Hex as (n & Hn & Hfree).
    apply list_elem_of_fmap in Hn as (k & -> & Hk).
    apply elem_of_seqZ in Hk. exists k. split; [lia|done].
  - exfalso. apply not_Exists_Forall in Hall; [|intros n; apply _].
    assert (Hnd : NoDup names).
    { apply NoDup_fmap_2_strong; [|apply NoDup_seqZ].
      intros k k' _ _. apply numbered_target_inj. }
    assert (Hsub : list_to_set names ⊆ dom d).
    { intros n Hn%elem_of_list_to_set. rewrite Forall_forall in Hall.
      specialize (Hall n Hn). simpl in Hall. apply elem_of_dom.
      by apply not_eq_None_Some. }
    apply subseteq_size in Hsub.
    rewrite size_list_to_set, size_dom in Hsub by done.
    unfold names in Hsub. rewrite length_fmap, length_seqZ in Hsub. lia.
Qed.

Lemma find_target_enough target_dir filename st fuel : ∀ target_path counter k,
  counter <= k < counter + Z.of_nat fuel →
  disk st !! numbered_target target_dir filename k = None →
  ∃ found,
    find_target fuel target_dir filename target_path counter st
    = (Ok (Some found), st).
Proof.
  induction fuel as [|fuel IH]; intros target_path counter k Hk Hfree; [lia|].
  rewrite find_target_step. case_bool_decide as Hpresent; [|by eexists].
  destruct (decide (k = counter)) as [->|Hne].
  - rewrite find_target_step, bool_decide_eq_false_2; [by eexists|].
    rewrite Hfree. by intros [].
  - apply (IH _ (counter + 1) k); [lia|done].
Qed.

Lemma find_target_total target_dir filename st fuel target_path :
  (size (disk st) < fuel)%nat →
  ∃ found,
    find_target fuel target_dir filename target_path 1 st = (Ok (Some found), st).
Proof.
  intros Hfuel.
  destruct (some_name_free target_dir filename (disk st) 1) as (k & Hk & Hfree).
  apply (find_target_enough _ _ _ _ _ 1 k); [lia|done].
Qed.
(** ** [createFolders]: what it leaves alone, and [file_dates] *)

Lemma record_date_reads acc p st : (record_date acc p st).2 = st.
Proof.
  unfold record_date. run_monad. cbn. by destruct (disk st !! p).
Qed.

Lemma record_dates_reads l : ∀ acc st, (for_each l record_date acc st).2 = st.
Proof.
  induction l as [|p l IH]; intros acc st; simpl; [done|].
  unfold bind. pose proof (record_date_reads acc p st) as H.
  destruct (record_date acc p st) as [[acc'|e] st1]; simpl in H; subst st1;
    [apply IH|done].
Qed.

(** What a state keeps when only folders are made. *)
Local Abbreviation same_but_dirs st st' :=
  (founded_paths st' = founded_paths st ∧ disk st' = disk st
   ∧ file_dates st' = file_dates st ∧ stdout st' = stdout st).

Lemma make_year_dirs_frame pd vd mwf ys st :
  same_but_dirs st (for_each ys (make_year_dirs pd vd mwf) tt st).2.
Proof.
  apply (for_each_invariant (λ s, same_but_dirs st s)); [|done].
  intros [] y s _ Hs. unfold make_year_dirs. run_monad. cbn.
  destruct (mwf !! y) as [ms|]; cbn; [|done].
  match goal with |- context [for_each ?l ?body tt ?s0] =>
    pose proof (for_each_invariant (λ s, same_but_dirs st s) body l) as Hinner;
    specialize (Hinner ltac:(
      intros [] m s1 _ Hs1; unfold make_month_dirs; run_monad; cbn;
      destruct (Py.index months (m - 1)); cbn; done) tt s0 Hs);
    by destruct (for_each l body tt s0) as [[[]|e] s2]
  end.
Qed.

Lemma createFolders_frame project_dir st :
  let r := createFolders project_dir st in
  founded_paths r.2 = founded_paths st ∧ disk r.2 = disk st.
Proof.
  cbv zeta. unfold createFolders. cbv [bind os_makedirs modify get].
  match goal with |- context [for_each ?l record_date [] ?s0] =>
    pose proof (record_dates_reads l [] s0) as Hreads;
    destruct (for_each l record_date [] s0) as [[fd|e] s1]; simpl in Hreads;
    subst s1; [|done]
  end.
  destruct fd as [|item fd]; [by cbv [ret]; simpl|].
  destruct (group_dates (item :: fd)) as [years mwf].
  match goal with |- context [for_each ?l (make_year_dirs ?pd ?vd mwf) tt ?s0] =>
    pose proof (make_year_dirs_frame pd vd mwf l s0) as (F1 & F2 & _);
    destruct (for_each l (make_year_dirs pd vd mwf) tt s0) as [[[]|e] s2]
  end; simpl in *; rewrite ?F1, ?F2; done.
Qed.
Lemma dict_get_key {V} (d : list (string * V)) k :
  k ∈ Py.dict_keys d → is_Some (Py.dict_get d k).
Proof.
  induction d as [|[k0 v0] d IH]; simpl; [by intros ?%elem_of_nil|].
  destruct (String.eqb_spec k0 k) as [->|Hne]; [by eauto|].
  intros [?|?]%elem_of_cons; [done|by apply IH].
Qed.

(** [createFolders] on records whose files exist, with dates in the range
    of [datetime]: the state it returns. *)
Lemma createFolders_full project_dir st :
  (∀ p, p ∈ founded_paths st →
        ∃ f, disk st !! p = Some f ∧ valid_date (f_date f)) →
  ∃ st',
    createFolders project_dir st = (Ok tt, st')
    ∧ founded_paths st' = founded_paths st
    ∧ disk st' = disk st
    ∧ (founded_paths st = [] →
       file_dates st' = file_dates st ∧ stdout st' = stdout st
       ∧ made_dirs st'
         = made_dirs st ++ [photos_dir_of project_dir; videos_dir_of project_dir])
    ∧ (founded_paths st ≠ [] → stdout st' = stdout st ++ [MsgFoldersCreated])
    ∧ (∀ p f, p ∈ founded_paths st → disk st !! p = Some f →
              Py.dict_get (file_dates st') p = Some (f_date f)
              ∧ month_dir (photos_dir_of project_dir)
                  (year (f_date f)) (month (f_date f)) ∈ made_dirs st'
              ∧ month_dir (videos_dir_of project_dir)
                  (year (f_date f)) (month (f_date f)) ∈ made_dirs st').
Proof.
  intros Hfiles.
  set (st2 := add_dir (videos_dir_of project_dir)
                (add_dir (photos_dir_of project_dir) st)).
  destruct (record_dates_loop st2 (founded_paths st) [])
    as (fd & Hrun & Hfd & Hkeys).
  { intros p Hp. destruct (Hfiles p Hp) as (f & Hf & _). by exists f. }
  { constructor. }
  assert (Hkeys' : ∀ k, k ∈ Py.dict_keys fd ↔ k ∈ founded_paths st).
  { intros k. rewrite Hkeys. cbn. rewrite elem_of_nil. tauto. }
  assert (Hdate : ∀ p f, p ∈ founded_paths st → disk st !! p = Some f →
            Py.dict_get fd p = Some (f_date f)).
  { intros p f Hp Hf. destruct (dict_get_key fd p) as [d Hd]; [by apply Hkeys'|].
    destruct (dict_get_index fd p d Hd) as (j & Hj).
    rewrite Forall_lookup in Hfd. destruct (Hfd j _ Hj) as (f' & Hf' & Hd').
    simpl in Hf', Hd'. change (disk st2) with (disk st) in Hf'. congruence. }
  destruct (group_dates_spec fd) as (Hyears & Hdom & Hmonths).
  unfold createFolders. fold (photos_dir_of project_dir) (videos_dir_of project_dir).
  cbv [bind os_makedirs modify get]. fold st2.
  change (founded_paths st2) with (founded_paths st). rewrite Hrun.
  destruct fd as [|item fd'] eqn:Hfd_eq.
  { assert (Hempty : founded_paths st = []).
    { destruct (founded_paths st) as [|p l]; [done|].
      exfalso. apply (elem_of_nil p). apply Hkeys'. by left. }
    exists st2. split_and!; try done.
    - intros _. split_and!; try done. simpl. by rewrite <- app_assoc.
    - intros p f Hp. rewrite Hempty in Hp. by apply elem_of_nil in Hp. }
  assert (Hne : item :: fd' ≠ []) by done.
  rewrite <- Hfd_eq in *. clear Hfd_eq.
  destruct (group_dates fd) as [years mwf] eqn:Hgroup. cbn [fst snd] in *.
  assert (Hvalid : ∀ it, it ∈ fd → valid_date it.2 ∧ it.1 ∈ founded_paths st).
  { intros it Hit. rewrite Forall_forall in Hfd. destruct (Hfd it Hit) as (f & Hf & ->).
    assert (Hin : it.1 ∈ founded_paths st).
    { apply Hkeys'. apply list_elem_of_fmap. by exists it. }
    destruct (Hfiles _ Hin) as (f' & Hf' & Hv).
    change (disk st2) with (disk st) in Hf. rewrite Hf in Hf'.
    by injection Hf' as <-. }
  destruct (make_year_dirs_loop (photos_dir_of project_dir)
              (videos_dir_of project_dir) mwf (sorted years) st2)
    as (st3 & Hrun3 & Hdirs3).
  { apply Forall_forall. intros y Hy%elem_of_sorted. split; [by apply Hdom|].
    intros m (it & Hit & _ & <-)%Hmonths. by destruct (Hvalid it Hit) as [[_ ?] _]. }
  pose proof (make_year_dirs_frame (photos_dir_of project_dir)
                (videos_dir_of project_dir) mwf (sorted years) st2)
    as (F1 & F2 & F3 & F4).
  rewrite Hrun3 in F1, F2, F3, F4. simpl in F1, F2, F3, F4.
  eexists. split.
  { cbv [ret print modify]. rewrite Hrun3. reflexivity. }
  simpl. split_and!; try done.
  - intros Hempty. exfalso. destruct fd as [|it fd'']; [done|].
    apply (elem_of_nil it.1). rewrite <- Hempty. apply Hkeys'.
    apply list_elem_of_fmap. exists it. split; [done|by left].
  - intros _. by rewrite F4.
  - intros p f Hp Hf. split; [by apply Hdate|].
    assert (Hitem : ∃ it, it ∈ fd ∧ it.2 = f_date f).
    { destruct (dict_get_index fd p _ (Hdate p f Hp Hf)) as (j & Hj).
      exists (p, f_date f). split; [by eapply list_elem_of_lookup_2|done]. }
    destruct Hitem as (it & Hit & Hd).
    assert (Hy : year (f_date f) ∈ sorted years).
    { apply elem_of_sorted, Hyears. exists it. by rewrite Hd. }
    assert (Hm : month (f_date f)
                   ∈ sorted (default ∅ (mwf !! year (f_date f)))).
    { apply elem_of_sorted, Hmonths. exists it. by rewrite Hd. }
    assert (Hmain : ∀ root,
      root = photos_dir_of project_dir ∨ root = videos_dir_of project_dir →
      month_dir root (year (f_date f)) (month (f_date f)) ∈ made_dirs st3).
    { intros root Hroot. rewrite Hdirs3. apply elem_of_app. right.
      apply list_elem_of_bind. exists (year (f_date f)). split; [|done].
      cbn [app]. rewrite !elem_of_cons, list_elem_of_bind. right. right.
      exists (month (f_date f)). split; [|done].
      rewrite !elem_of_cons. unfold month_dir. destruct Hroot as [->| ->]; auto. }
    split; apply Hmain; auto.
Qed.
(** ** [organizeMemories], record by record *)

Lemma grows_refl st : grows st st.
Proof. unfold grows. split_and!; try done. lia. Qed.

(** The copy of a record into the folder [target_dir]. *)
Lemma copy_step fuel target_dir file_path moved_count st :
  let r := (target <- find_target fuel target_dir (os_path_basename file_path)
                        (Py.path_join target_dir (os_path_basename file_path)) 1 ;;
            match target with
            | Some target_path =>
                shutil_copy2 file_path target_path target_dir ;;
                ret (Some (S moved_count))
            | None => ret None
            end) st in
  grows st r.2
  ∧ ((size (disk st) < fuel)%nat → r.1 ≠ Ok None)
  ∧ (∀ f, disk st !! file_path = Some f → target_dir ∈ made_dirs st →
          (size (disk st) < fuel)%nat →
          ∃ target,
            r = (Ok (Some (S moved_count)), set_disk (<[target := f]> (disk st)) st)
            ∧ disk st !! target = None
            ∧ (target = Py.path_join target_dir (os_path_basename file_path)
               ∨ ∃ k, 1 <= k
                      ∧ target = numbered_target target_dir
                                   (os_path_basename file_path) k)).
Proof.
  intros r. unfold grows.
  destruct (find_target_spec target_dir (os_path_basename file_path) st fuel
              (Py.path_join target_dir (os_path_basename file_path)) 1)
    as (res & Hrun & Hfound).
  assert (Hr : r = match res with
                   | Some target_path =>
                       (shutil_copy2 file_path target_path target_dir ;;
                        ret (Some (S moved_count))) st
                   | None => (Ok None, st)
                   end).
  { unfold r, bind at 1. rewrite Hrun. by destruct res. }
  clearbody r. subst r. destruct res as [found|].
  - destruct (Hfound found eq_refl) as (Hfree & Hwhich).
    unfold shutil_copy2. run_monad. cbn.
    destruct (disk st !! file_path) as [f|] eqn:Hf; cbn.
    + case_bool_decide as Hdir; cbn.
      * split_and!; simpl; try done.
        all: try (by apply insert_subseteq).
        all: try (rewrite map_size_insert_None by done; lia).
        all: try (intros; discriminate).
        intros f' [= <-] _ _. exists found. split_and!; [done|done|].
        destruct Hwhich as [->|(_ & k & Hk & -> & _)]; [by left|right; eauto].
      * split_and!; simpl; try done; try lia; try (intros; discriminate).
    + split_and!; simpl; try done; try lia; try (intros; discriminate).
  - assert (Hnot : ¬ (size (disk st) < fuel)%nat).
    { intros Hfuel.
      destruct (find_target_total target_dir (os_path_basename file_path) st fuel
                  (Py.path_join target_dir (os_path_basename file_path)) Hfuel)
        as (found & Hrun'). congruence. }
    split_and!; simpl; try done; try lia.
Qed.
Lemma organize_one_spec fuel project_dir moved_count file_path st :
  let r := organize_one fuel project_dir moved_count file_path st in
  grows st r.2
  ∧ ((size (disk st) < fuel)%nat → r.1 ≠ Ok None)
  ∧ (∀ f d mname root,
       Py.dict_get (file_dates st) file_path = Some d →
       Py.index months (month d - 1) = Some mname →
       disk st !! file_path = Some f →
       (size (disk st) < fuel)%nat →
       is_image file_path = true ∧ root = photos_dir_of project_dir
       ∨ is_video file_path = true ∧ root = videos_dir_of project_dir →
       let target_dir := Py.path_join (Py.path_join root (Py.str (year d))) mname in
       target_dir ∈ made_dirs st →
       ∃ target,
         r = (Ok (Some (S moved_count)), set_disk (<[target := f]> (disk st)) st)
         ∧ disk st !! target = None
         ∧ (target = Py.path_join target_dir (os_path_basename file_path)
            ∨ ∃ k, 1 <= k
                   ∧ target = numbered_target target_dir
                                (os_path_basename file_path) k)).
Proof.
  intros r.
  assert (Hr : r = organize_one fuel project_dir moved_count file_path st)
    by reflexivity.
  clearbody r. unfold organize_one in Hr.
  unfold bind at 1 2 3, get, of_option in Hr. simpl in Hr.
  destruct (Py.dict_get (file_dates st) file_path) as [d|] eqn:Hd; simpl in Hr.
  2:{ subst r. split_and!; [apply grows_refl|done|done]. }
  destruct (Py.index months (month d - 1)) as [mname|] eqn:Hm; simpl in Hr.
  2:{ subst r. split_and!; [apply grows_refl|done|by intros; simplify_eq]. }
  fold (is_image file_path) (is_video file_path) in Hr.
  destruct (is_image file_path) eqn:Hi.
  - pose proof (copy_step fuel
      (Py.path_join (Py.path_join (photos_dir_of project_dir) (Py.str (year d))) mname)
      file_path moved_count st) as Hcopy.
    cbv zeta in Hcopy. rewrite <- Hr in Hcopy.
    destruct Hcopy as (Hg & Hfuel & Hcopy). split_and!; [done|done|].
    intros f d' mname' root Hd' Hm' Hf Hsize [[_ ->]|[Hv _]] target_dir Hdir.
    + assert (d' = d) as -> by congruence.
      assert (mname' = mname) as -> by congruence. by apply Hcopy.
    + by rewrite (is_video_not_image _ Hv) in Hi.
  - destruct (is_video file_path) eqn:Hv.
    + pose proof (copy_step fuel
        (Py.path_join (Py.path_join (videos_dir_of project_dir) (Py.str (year d))) mname)
        file_path moved_count st) as Hcopy.
      cbv zeta in Hcopy. rewrite <- Hr in Hcopy.
      destruct Hcopy as (Hg & Hfuel & Hcopy). split_and!; [done|done|].
      intros f d' mname' root Hd' Hm' Hf Hsize [[? _]|[_ ->]] target_dir Hdir; [done|].
      assert (d' = d) as -> by congruence.
      assert (mname' = mname) as -> by congruence. by apply Hcopy.
    + subst r. split_and!; [apply grows_refl|done|].
      intros f d' mname' root _ _ _ _ [[? _]|[? _]]; done.
Qed.
(** ** [organizeMemories]: the loop *)

Section Organize.
Context (fuel : nat) (project_dir : string).

Local Abbreviation ostep := (organize_step fuel project_dir).

Lemma organize_step_grows acc p st :
  let r := ostep acc p st in
  grows st r.2
  ∧ (is_Some acc → (size (disk st) < fuel)%nat → r.1 ≠ Ok None).
Proof.
  cbv zeta. destruct acc as [n|]; simpl.
  - destruct (organize_one_spec fuel project_dir n p st) as (Hg & Hf & _).
    split; [done|]. intros _. exact Hf.
  - split; [apply grows_refl|]. by intros [].
Qed.

(** In every outcome the loop keeps what was on disk, and it cannot run
    out of fuel when the fuel exceeds the files there can be. *)
Lemma organize_loop_grows l : ∀ acc st,
  let r := for_each l ostep acc st in
  disk st ⊆ disk r.2 ∧ founded_paths r.2 = founded_paths st
  ∧ made_dirs r.2 = made_dirs st ∧ file_dates r.2 = file_dates st
  ∧ stdout r.2 = stdout st
  ∧ (is_Some acc → (size (disk st) + length l <= fuel)%nat → r.1 ≠ Ok None).
Proof.
  induction l as [|p l IH]; intros acc st; cbv zeta.
  { simpl. split_and!; try done. intros [n ->] _. done. }
  simpl for_each. unfold bind.
  destruct (organize_step_grows acc p st) as ((Hd & Hfp & Hm & Hfd & Ho & Hs) & Hfuel).
  destruct (ostep acc p st) as [[acc1|e] st1] eqn:Hstep; simpl in *.
  - destruct (IH acc1 st1) as (Hd' & Hfp' & Hm' & Hfd' & Ho' & Hfuel').
    split_and!.
    + by etrans.
    + by rewrite Hfp'.
    + by rewrite Hm'.
    + by rewrite Hfd'.
    + by rewrite Ho'.
    + intros Hacc Hsize. apply Hfuel'; [|lia].
      destruct acc1 as [n|]; [done|]. exfalso. apply Hfuel; [done|lia|done].
  - by split_and!.
Qed.

(** The loop over records whose dates are recorded, whose folders are made
    and whose files are on disk: every record is copied. *)
Lemma organize_loop_copies st0 l : ∀ n st,
  disk st0 ⊆ disk st →
  (∀ p, p ∈ l →
        (is_image p = true ∨ is_video p = true)
        ∧ ∃ f, disk st0 !! p = Some f ∧ valid_date (f_date f)
               ∧ Py.dict_get (file_dates st) p = Some (f_date f)
               ∧ month_dir (kind_dir_of project_dir p)
                   (year (f_date f)) (month (f_date f)) ∈ made_dirs st) →
  (size (disk st) + length l <= fuel)%nat →
  ∃ st',
    for_each l ostep (Some n) st = (Ok (Some (n + length l)%nat), st')
    ∧ disk st ⊆ disk st'
    ∧ size (disk st') = (size (disk st) + length l)%nat
    ∧ ∀ p f, p ∈ l → disk st0 !! p = Some f →
        ∃ target,
          disk st' !! target = Some f ∧ disk st !! target = None
          ∧ copy_of project_dir p f target.
Proof.
  induction l as [|p l IH]; intros n st Hsub Hl Hfuel.
  { exists st. simpl. rewrite !Nat.add_0_r. split_and!; try done.
    by intros p f ?%elem_of_nil. }
  destruct (Hl p ltac:(by left)) as (Hkind & f & Hf & Hvalid & Hdate & Hdir).
  destruct (organize_one_spec fuel project_dir n p st) as (_ & _ & Hcopy).
  cbn [length] in Hfuel.
  destruct (Hcopy f (f_date f) (month_name (month (f_date f)))
              (kind_dir_of project_dir p) Hdate)
    as (target & Hone & Hfree & Hwhich).
  { apply month_name_index. by destruct Hvalid. }
  { by eapply lookup_weaken. }
  { lia. }
  { unfold kind_dir_of. destruct (is_image p) eqn:Hi; [by left|].
    right. by destruct Hkind. }
  { exact Hdir. }
  set (st1 := set_disk (<[target := f]> (disk st)) st) in *.
  assert (Hsub1 : disk st ⊆ disk st1) by (by apply insert_subseteq).
  assert (Hsize1 : size (disk st1) = S (size (disk st)))
    by (by apply map_size_insert_None).
  assert (Hdates1 : file_dates st1 = file_dates st) by done.
  assert (Hdirs1 : made_dirs st1 = made_dirs st) by done.
  assert (Hlook1 : disk st1 !! target = Some f) by apply lookup_insert_eq.
  clearbody st1.
  destruct (IH (S n) st1) as (st' & Hrun & Hsub' & Hsize' & Hcopies).
  { by etrans. }
  { intros q Hq. rewrite Hdates1, Hdirs1. by apply Hl; right. }
  { lia. }
  exists st'. split_and!.
  - simpl for_each. unfold bind. cbn [organize_step]. rewrite Hone, Hrun.
    cbn [length]. do 3 f_equal. lia.
  - by etrans.
  - cbn [length]. lia.
  - intros q g Hq Hg. apply elem_of_cons in Hq as [->|Hq].
    + assert (g = f) as -> by congruence.
      exists target. split_and!; [|done|done].
      by apply (lookup_weaken _ _ _ _ Hlook1 Hsub').
    + destruct (Hcopies q g Hq Hg) as (t & Ht & Hnone & Hcopy_of).
      exists t. split_and!; [done| |done].
      destruct (disk st !! t) as [x|] eqn:E; [|done].
      by rewrite (lookup_weaken _ _ _ _ E Hsub1) in Hnone.
Qed.

End Organize.
(** X18.  The search for a free name in [organizeMemories] ends when the
    fuel exceeds the number of files on disk, and it changes nothing.  It
    returns the first path that is not on disk among the path it is given
    and the numbered ones [name_1.ext], [name_2.ext], ...: every path tried
    before the one returned is on disk. *)
Theorem free_name_search
    (fuel : nat) (target_dir filename target_path : string) (st : State) :
  (size (disk st) < fuel)%nat →
  ∃ found,
    find_target fuel target_dir filename target_path 1 st = (Ok (Some found), st)
    ∧ disk st !! found = None
    ∧ (found = target_path
       ∨ is_Some (disk st !! target_path)
         ∧ ∃ k, 1 <= k
                ∧ found = numbered_target target_dir filename k
                ∧ ∀ j, 1 <= j < k →
                    is_Some (disk st !! numbered_target target_dir filename j)).
Proof.
  intros Hfuel.
  destruct (find_target_total target_dir filename st fuel target_path Hfuel)
    as (found & Hrun).
  destruct (find_target_spec target_dir filename st fuel target_path 1)
    as (r & Hrun' & Hfound).
  rewrite Hrun in Hrun'. injection Hrun' as <-.
  exists found. split; [done|]. by apply Hfound.
Qed.

Lemma free_name_search_witness :
  let st := (organizeMemories 10 "C:\proj"
               (createFolders "C:\proj" world_two_months).2).2 in
  let target_dir := "C:\proj\Memories\Photos\2023\March" in
  ∃ found,
    find_target 10 target_dir "a.jpg" "C:\proj\Memories\Photos\2023\March\a.jpg" 1 st
    = (Ok (Some found), st)
    ∧ disk st !! found = None
    ∧ (found = "C:\proj\Memories\Photos\2023\March\a.jpg"
       ∨ is_Some (disk st !! "C:\proj\Memories\Photos\2023\March\a.jpg")
         ∧ ∃ k, 1 <= k
                ∧ found = numbered_target target_dir "a.jpg" k
                ∧ ∀ j, 1 <= j < k →
                    is_Some (disk st !! numbered_target target_dir "a.jpg" j)).
Proof.
  apply (free_name_search 10 "C:\proj\Memories\Photos\2023\March" "a.jpg").
  vm_compute. lia.
Defined.

Example find_target_numbers_the_copy :
  let st := (organizeMemories 10 "C:\proj"
               (createFolders "C:\proj" world_two_months).2).2 in
  (find_target 10 "C:\proj\Memories\Photos\2023\March" "a.jpg"
     "C:\proj\Memories\Photos\2023\March\a.jpg" 1 st).1
  = Ok (Some "C:\proj\Memories\Photos\2023\March\a_1.jpg").
Proof. vm_compute. reflexivity. Qed.

(** X19.  [organizeMemories] copies and never moves: in every outcome,
    every file that was on disk is still there, unchanged; no existing file
    is overwritten; the records, the folders and [file_dates] are as they
    were.  With more fuel than files on disk and records together, the
    search for names never runs out. *)
Theorem organizeMemories_never_overwrites
    (fuel : nat) (project_dir : string) (st : State) :
  let r := organizeMemories fuel project_dir st in
  disk st ⊆ disk r.2
  ∧ founded_paths r.2 = founded_paths st
  ∧ made_dirs r.2 = made_dirs st
  ∧ file_dates r.2 = file_dates st
  ∧ ((size (disk st) + length (founded_paths st) <= fuel)%nat → r.1 ≠ Ok None).
Proof.
  cbv zeta. unfold organizeMemories. cbv [bind get].
  destruct (organize_loop_grows fuel project_dir (founded_paths st) (Some O) st)
    as (Hd & Hfp & Hm & Hfd & _ & Hfuel).
  split_and!; try done. intros Hsize. by apply Hfuel.
Qed.

(** X20.  After [createFolders], on records that are images or videos
    whose files exist with dates in the range of [datetime],
    [organizeMemories] returns and counts every record: each record has a
    copy with the content of its file in the month folder of its kind and
    date, under its own name or a numbered one, at a path where there was
    no file; every file that was on disk is still there, and the disk has
    one file more per record. *)
Theorem organize_after_createFolders
    (fuel : nat) (project_dir : string) (st : State) :
  (∀ p, p ∈ founded_paths st →
        ∃ f, disk st !! p = Some f ∧ valid_date (f_date f)) →
  (∀ p, p ∈ founded_paths st → is_image p = true ∨ is_video p = true) →
  (size (disk st) + length (founded_paths st) <= fuel)%nat →
  ∃ st1 st2,
    createFolders project_dir st = (Ok tt, st1)
    ∧ organizeMemories fuel project_dir st1
      = (Ok (Some (length (founded_paths st))), st2)
    ∧ disk st ⊆ disk st2
    ∧ size (disk st2) = (size (disk st) + length (founded_paths st))%nat
    ∧ ∀ p f, p ∈ founded_paths st → disk st !! p = Some f →
        ∃ target,
          disk st2 !! target = Some f ∧ disk st !! target = None
          ∧ copy_of project_dir p f target.
Proof.
  intros Hfiles Hmedia Hfuel.
  destruct (createFolders_full project_dir st Hfiles)
    as (st1 & Hrun1 & Hfp1 & Hdisk1 & _ & _ & Hdates).
  destruct (organize_loop_copies fuel project_dir st (founded_paths st) 0 st1)
    as (st2 & Hrun2 & Hsub & Hsize & Hcopies).
  { by rewrite Hdisk1. }
  { intros p Hp. split; [by apply Hmedia|].
    destruct (Hfiles p Hp) as (f & Hf & Hvalid).
    destruct (Hdates p f Hp Hf) as (Hdate & Hphotos & Hvideos).
    exists f. split_and!; try done.
    unfold kind_dir_of. by destruct (is_image p). }
  { by rewrite Hdisk1. }
  exists st1, st2. split; [done|]. rewrite Hdisk1 in Hsub, Hsize, Hcopies.
  split_and!; try done.
  unfold organizeMemories. cbv [bind get]. by rewrite Hfp1, Hrun2.
Qed.

Lemma organize_after_createFolders_witness :
  ∃ st1 st2,
    createFolders "C:\proj" world_two_months = (Ok tt, st1)
    ∧ organizeMemories 10 "C:\proj" st1
      = (Ok (Some (length (founded_paths world_two_months))), st2)
    ∧ disk world_two_months ⊆ disk st2
    ∧ size (disk st2)
      = (size (disk world_two_months) + length (founded_paths world_two_months))%nat
    ∧ ∀ p f, p ∈ founded_paths world_two_months →
        disk world_two_months !! p = Some f →
        ∃ target,
          disk st2 !! target = Some f ∧ disk world_two_months !! target = None
          ∧ copy_of "C:\proj" p f target.
Proof.
  apply (organize_after_createFolders 10 "C:\proj" world_two_months).
  - intros p Hp. cbn in Hp. rewrite !elem_of_cons, elem_of_nil in Hp.
    destruct Hp as [->|[->|[]]].
    + eexists. split; [vm_compute; reflexivity|]. vm_compute. intuition discriminate.
    + eexists. split; [vm_compute; reflexivity|]. vm_compute. intuition discriminate.
  - intros p Hp. cbn in Hp. rewrite !elem_of_cons, elem_of_nil in Hp.
    destruct Hp as [->|[->|[]]]; [left|right]; vm_compute; reflexivity.
  - vm_compute. lia.
Defined.

Example organizeMemories_on_world_two_months :
  let st1 := (createFolders "C:\proj" world_two_months).2 in
  let r := organizeMemories 10 "C:\proj" st1 in
  r.1 = Ok (Some 2%nat)
  ∧ disk r.2 !! "C:\proj\Memories\Photos\2023\March\a.jpg"
    = disk world_two_months !! "C:\in\a.jpg"
  ∧ disk r.2 !! "C:\proj\Memories\Videos\2024\January\clip.mp4"
    = disk world_two_months !! "C:\in\clip.mp4"
  ∧ (organizeMemories 10 "C:\proj" world_two_months).1 = Raise KeyError.
Proof. vm_compute. done. Qed.
(** X21.  On records whose files exist with dates in the range of
    [datetime], [createFolders] returns and touches no record and no file;
    [file_dates] then gives every record the modification date of its
    file.  With no record at all it makes the two kind folders only,
    leaves [file_dates] as it was and prints nothing; otherwise it prints
    that the folders were created. *)
Theorem createFolders_records_dates (project_dir : string) (st : State) :
  (∀ p, p ∈ founded_paths st →
        ∃ f, disk st !! p = Some f ∧ valid_date (f_date f)) →
  ∃ st',
    createFolders project_dir st = (Ok tt, st')
    ∧ founded_paths st' = founded_paths st
    ∧ disk st' = disk st
    ∧ (∀ p f, p ∈ founded_paths st → disk st !! p = Some f →
              Py.dict_get (file_dates st') p = Some (f_date f))
    ∧ (founded_paths st = [] →
       file_dates st' = file_dates st ∧ stdout st' = stdout st
       ∧ made_dirs st'
         = made_dirs st ++ [photos_dir_of project_dir; videos_dir_of project_dir])
    ∧ (founded_paths st ≠ [] → stdout st' = stdout st ++ [MsgFoldersCreated]).
Proof.
  intros Hfiles.
  destruct (createFolders_full project_dir st Hfiles)
    as (st' & Hrun & Hfp & Hdisk & Hempty & Hout & Hdates).
  exists st'. split_and!; try done.
  intros p f Hp Hf. by destruct (Hdates p f Hp Hf).
Qed.

Lemma createFolders_records_dates_witness :
  ∃ st',
    createFolders "C:\proj" world_two_months = (Ok tt, st')
    ∧ founded_paths st' = founded_paths world_two_months
    ∧ disk st' = disk world_two_months
    ∧ (∀ p f, p ∈ founded_paths world_two_months →
              disk world_two_months !! p = Some f →
              Py.dict_get (file_dates st') p = Some (f_date f))
    ∧ (founded_paths world_two_months = [] →
       file_dates st' = file_dates world_two_months
       ∧ stdout st' = stdout world_two_months
       ∧ made_dirs st'
         = made_dirs world_two_months
           ++ [photos_dir_of "C:\proj"; videos_dir_of "C:\proj"])
    ∧ (founded_paths world_two_months ≠ [] →
       stdout st' = stdout world_two_months ++ [MsgFoldersCreated]).
Proof.
  apply (createFolders_records_dates "C:\proj" world_two_months).
  intros p Hp. cbn in Hp. rewrite !elem_of_cons, elem_of_nil in Hp.
  destruct Hp as [->|[->|[]]].
  - eexists. split; [vm_compute; reflexivity|]. vm_compute. intuition discriminate.
  - eexists. split; [vm_compute; reflexivity|]. vm_compute. intuition discriminate.
Defined.

Lemma record_dates_raises st l : ∀ acc p,
  p ∈ l → disk st !! p = None →
  for_each l record_date acc st = (Raise FileNotFoundError, st).
Proof.
  induction l as [|q l IH]; intros acc p Hp Hnone.
  { by apply elem_of_nil in Hp. }
  simpl. unfold bind, record_date at 1. run_monad. cbn.
  destruct (disk st !! q) as [f|] eqn:Hq; cbn; [|done].
  apply elem_of_cons in Hp as [->|Hp]; [congruence|]. by eapply IH.
Qed.

(** X22.  [createFolders] reads the date of every record before it makes
    any year folder: when the file of a record is missing it raises
    [FileNotFoundError] after making the two kind folders only, and
    [file_dates] is left as it was. *)
Theorem createFolders_missing_file_raises
    (project_dir : string) (st : State) (p : string) :
  p ∈ founded_paths st → disk st !! p = None →
  createFolders project_dir st
  = (Raise FileNotFoundError,
     add_dir (videos_dir_of project_dir) (add_dir (photos_dir_of project_dir) st)).
Proof.
  intros Hp Hnone. unfold createFolders.
  fold (photos_dir_of project_dir) (videos_dir_of project_dir).
  cbv [bind os_makedirs modify get].
  set (st2 := add_dir (videos_dir_of project_dir)
                (add_dir (photos_dir_of project_dir) st)).
  change (founded_paths st2) with (founded_paths st).
  by rewrite (record_dates_raises st2 (founded_paths st) [] p Hp Hnone).
Qed.

Lemma createFolders_missing_file_raises_witness :
  createFolders "C:\proj" world_gone
  = (Raise FileNotFoundError,
     add_dir (videos_dir_of "C:\proj") (add_dir (photos_dir_of "C:\proj") world_gone)).
Proof.
  apply (createFolders_missing_file_raises "C:\proj" world_gone "C:\pics\gone.jpg").
  - apply (bool_decide_unpack _). vm_compute. exact I.
  - vm_compute. reflexivity.
Defined.

(** ** Records stay media files *)

(** X23.  Every stage keeps the records media files: when every record of
    [founded_paths] is an image or a video by its extension, the same holds
    after [removeLargeFiles], [convertTypes], [checkQuality],
    [removeDuplicateImages] and [createFolders], in every outcome. *)
Theorem records_stay_media
    (max_image_bytes max_video_bytes : Z) (min_image_size min_video_size : Z * Z)
    (threshold : Q) (project_dir : string) (st : State) :
  (∀ p, p ∈ founded_paths st → is_image p = true ∨ is_video p = true) →
  ∀ st',
    st' = (removeLargeFiles max_image_bytes max_video_bytes st).2
    ∨ st' = (convertTypes st).2
    ∨ st' = (checkQuality min_image_size min_video_size st).2
    ∨ st' = (removeDuplicateImages threshold st).2
    ∨ st' = (createFolders project_dir st).2 →
    ∀ p, p ∈ founded_paths st' → is_image p = true ∨ is_video p = true.
Proof.
  intros Hmedia st' Hstage p Hp.
  assert (Hsub : ∀ s, founded_paths s `sublist_of` founded_paths st →
            p ∈ founded_paths s → is_image p = true ∨ is_video p = true).
  { intros s Hs Hin. apply Hmedia. by eapply elem_of_sublist. }
  destruct Hstage as [->|[->|[->|[->| ->]]]].
  - destruct (size_loop_shrinks max_image_bytes max_video_bytes
                (founded_paths st) [] st) as (removed & s & Hrun & Hs & _).
    revert Hp. unfold removeLargeFiles. cbv [bind get print modify].
    rewrite Hrun. simpl. by apply Hsub.
  - destruct (convertTypes_effect st) as (s & Hrun & Hall & _).
    rewrite Hrun in Hp. simpl in Hp.
    apply list_elem_of_lookup in Hp as (i & Hi).
    destruct (Forall2_lookup_r _ _ _ _ _ Hall Hi) as (q & Hq & Hrel).
    pose proof (Hmedia q (list_elem_of_lookup_2 _ _ _ Hq)) as Hkind.
    destruct Hrel as [->|Hname]; [done|].
    destruct (converted_name_fresh q p Hname) as (_ & -> & -> & _). done.
  - apply (Hsub _ (checkQuality_sublist _ _ st) Hp).
  - apply (Hsub _ (removeDuplicateImages_sublist _ st) Hp).
  - destruct (createFolders_frame project_dir st) as [Hfp _].
    rewrite Hfp in Hp. by apply Hmedia.
Qed.

Lemma records_stay_media_witness :
  is_image "C:\in\b.mp4" = true ∨ is_video "C:\in\b.mp4" = true.
Proof.
  apply (records_stay_media default_max_image_bytes default_max_video_bytes
           default_min_size default_min_size default_threshold "C:\proj"
           world_mixed) with (st' := (convertTypes world_mixed).2).
  - intros p Hp. cbn in Hp. rewrite !elem_of_cons, elem_of_nil in Hp.
    destruct Hp as [->|[->|[->|[]]]]; [left|right|left]; vm_compute; reflexivity.
  - right. left. reflexivity.
  - apply (bool_decide_unpack _). vm_compute. exact I.
Defined.
(** ** Files that are not records *)

Lemma size_step_other max_image_bytes max_video_bytes removed q st x :
  q ≠ x →
  disk (removeLargeFiles_step max_image_bytes max_video_bytes removed q st).2 !! x
  = disk st !! x.
Proof.
  intros Hq.
  destruct (rejected_by_size max_image_bytes max_video_bytes st q) eqn:Hrej;
    [destruct (deletable st q) eqn:Hdel|].
  - destruct (Py.list_remove q (founded_paths st)) as [l'|] eqn:Hl.
    + rewrite (step_delete _ _ removed q st l' Hrej Hdel Hl). simpl.
      by rewrite lookup_delete_ne.
    + rewrite (step_delete_unlisted _ _ removed q st Hrej Hdel Hl). simpl.
      by rewrite lookup_delete_ne.
  - by rewrite (step_fail _ _ removed q st Hrej Hdel).
  - by rewrite (step_keep _ _ removed q st Hrej).
Qed.

(** X24.  No stage deletes or changes a file that is not a record.  A path
    that is not in [founded_paths] keeps its file through
    [removeLargeFiles], [checkQuality], [removeDuplicateImages] and
    [createFolders]; through [convertTypes] unless it is the converted name
    of a record; and [organizeMemories] changes no file that exists. *)
Theorem stages_touch_only_records
    (max_image_bytes max_video_bytes : Z) (min_image_size min_video_size : Z * Z)
    (threshold : Q) (project_dir : string) (fuel : nat) (st : State) (q : string) :
  q ∉ founded_paths st →
  disk (removeLargeFiles max_image_bytes max_video_bytes st).2 !! q = disk st !! q
  ∧ disk (checkQuality min_image_size min_video_size st).2 !! q = disk st !! q
  ∧ disk (removeDuplicateImages threshold st).2 !! q = disk st !! q
  ∧ disk (createFolders project_dir st).2 !! q = disk st !! q
  ∧ ((∀ p, p ∈ founded_paths st → converted_name p ≠ Some q) →
     disk (convertTypes st).2 !! q = disk st !! q)
  ∧ (is_Some (disk st !! q) →
     disk (organizeMemories fuel project_dir st).2 !! q = disk st !! q).
Proof.
  intros Hq. split_and!.
  - unfold removeLargeFiles. cbv [bind get print modify].
    pose proof (for_each_invariant (λ s, disk s !! q = disk st !! q)
      (removeLargeFiles_step max_image_bytes max_video_bytes) (founded_paths st))
      as Hinv.
    specialize (Hinv ltac:(intros acc x s Hx Hs; cbn beta in *;
      rewrite size_step_other by (by intros ->); exact Hs) [] st eq_refl).
    by destruct (for_each _ _ _ _) as [[removed|e] s].
  - unfold checkQuality. cbv [bind get print modify].
    pose proof (for_each_invariant (λ s, disk s !! q = disk st !! q)
      (checkQuality_step min_image_size min_video_size) (founded_paths st))
      as Hinv.
    specialize (Hinv ltac:(intros acc x s Hx Hs; cbn beta in *;
      destruct (quality_step_other min_image_size min_video_size q acc x s)
        as [-> _]; [by intros ->|exact Hs]) [] st eq_refl).
    by destruct (for_each _ _ _ _) as [[removed|e] s].
  - pose proof (getImageHashes_reads st) as Hreads.
    unfold removeDuplicateImages. cbv [bind modify print].
    destruct (getImageHashes st) as [[hashes|e] st1] eqn:Hrun; simpl in Hreads;
      subst st1; [|done].
    destruct (getImageHashes_result _ _ _ Hrun) as (_ & _ & Hin).
    assert (Hnot : ∀ j, (1 <= j)%nat → Py.dict_keys hashes !! j ≠ Some q).
    { intros j _ Hj. apply list_elem_of_lookup_2 in Hj.
      by destruct (Hin q Hj) as (? & _). }
    destruct (scan_duplicates_untouched hashes threshold q Hnot st) as [Hd _].
    by destruct (scan_duplicates hashes threshold st) as [[marks|e] st2].
  - by destruct (createFolders_frame project_dir st) as [_ ->].
  - intros Hname. destruct (convertTypes_effect st) as (s & -> & _ & _ & Hother & _).
    simpl. apply Hother. intros p Hp. split; [by intros ->|by apply Hname].
  - intros [f Hf].
    unfold organizeMemories. cbv [bind get].
    destruct (organize_loop_grows fuel project_dir (founded_paths st) (Some O) st)
      as (Hsub & _).
    rewrite Hf. by eapply lookup_weaken.
Qed.

Lemma stages_touch_only_records_witness :
  let q := "C:\in\notes.txt" in
  let st := world_bystander in
  disk (removeLargeFiles default_max_image_bytes default_max_video_bytes st).2 !! q
  = disk st !! q
  ∧ disk (checkQuality default_min_size default_min_size st).2 !! q = disk st !! q
  ∧ disk (removeDuplicateImages default_threshold st).2 !! q = disk st !! q
  ∧ disk (createFolders "C:\proj" st).2 !! q = disk st !! q
  ∧ ((∀ p, p ∈ founded_paths st → converted_name p ≠ Some q) →
     disk (convertTypes st).2 !! q = disk st !! q)
  ∧ (is_Some (disk st !! q) →
     disk (organizeMemories 10 "C:\proj" st).2 !! q = disk st !! q).
Proof.
  apply (stages_touch_only_records default_max_image_bytes default_max_video_bytes
           default_min_size default_min_size default_threshold "C:\proj" 10
           world_bystander "C:\in\notes.txt").
  apply (bool_decide_unpack _). vm_compute. exact I.
Defined.
(** ** Joining and taking apart *)

Lemma basename_behind prefix file :
  prefix = "" ∨ Py.ends_with_sep prefix = true →
  sep_free file = true →
  Py.slice_from (Z.to_nat (sepIndex (prefix +:+ file) + 1)) (prefix +:+ file)
  = file.
Proof.
  intros Hprefix Hfile. rewrite (sepIndex_app prefix file Hfile).
  destruct (sepIndex_prefix prefix Hprefix) as [[-> _]| ->].
  - replace (Z.to_nat (Z.of_nat (String.length prefix) - 1 + 1))
      with (String.length prefix) by lia.
    apply slice_from_app.
  - done.
Qed.

Lemma drop_drive_plain p :
  char_free ":" p = true → drop_drive p = p.
Proof.
  destruct p as [|a [|b p]]; try done. simpl.
  destruct (Ascii.eqb_spec b ":") as [->|Hb]; [by rewrite andb_false_r|].
  intros _. destruct b as [[] [] [] [] [] [] [] []]; try done.
Qed.

Lemma ends_with_sep_tail a b rest :
  Py.ends_with_sep (String a (String b rest)) = Py.ends_with_sep (String b rest).
Proof. done. Qed.

(** [os.path.basename] gives back the file name a path was joined from. *)
Lemma basename_join root file :
  sep_free file = true → char_free ":" file = true →
  os_path_basename (Py.path_join root file) = file.
Proof.
  intros Hsep Hcolon. destruct (path_join_prefix root file) as (prefix & -> & Hp).
  unfold os_path_basename.
  assert (Hcase : drop_drive (prefix +:+ file) = prefix +:+ file
                  ∨ ∃ a rest, prefix = String a (String ":" rest)
                              ∧ drop_drive (prefix +:+ file) = rest +:+ file).
  { destruct prefix as [|a [|b rest]].
    - left. by apply drop_drive_plain.
    - left. simpl. destruct file as [|c file]; [done|].
      simpl in Hcolon. apply andb_true_iff in Hcolon as [Hc _].
      destruct (Ascii.eqb_spec c ":") as [->|Hne]; [done|].
      destruct c as [[] [] [] [] [] [] [] []]; try done.
    - destruct (Ascii.eqb_spec b ":") as [->|Hne].
      + right. by exists a, rest.
      + left. simpl. destruct b as [[] [] [] [] [] [] [] []]; try done. }
  destruct Hcase as [-> | (a & rest & -> & ->)].
  - by apply basename_behind.
  - apply basename_behind; [|done].
    destruct Hp as [?|Hp]; [done|]. destruct rest as [|c rest]; [by left|].
    right. by rewrite !ends_with_sep_tail in Hp.
Qed.

(** X25.  A record made by joining a folder that is no UNC path and a
    file name without separator or colon gives the name back:
    [os.path.basename] of the record is the file name, under which
    [organizeMemories] copies it, and the extension of the record is the
    extension of the file name, so that the record is an image or a video
    exactly when the file name says so. *)
Theorem joined_path_round_trip (root file : string) :
  sep_free file = true → char_free ":" file = true → unc_root root = false →
  os_path_basename (Py.path_join root file) = file
  ∧ ext_of (Py.path_join root file) = ext_of file
  ∧ is_image (Py.path_join root file) = is_image file
  ∧ is_video (Py.path_join root file) = is_video file.
Proof.
  intros Hsep Hcolon _. split; [by apply basename_join|].
  assert (Hext : ext_of (Py.path_join root file) = ext_of file)
    by (by rewrite ext_of_join).
  unfold is_image, is_video. by rewrite Hext.
Qed.

Lemma joined_path_round_trip_witness :
  os_path_basename (Py.path_join "C:\pics\2020" "a.JPG") = "a.JPG"
  ∧ ext_of (Py.path_join "C:\pics\2020" "a.JPG") = ext_of "a.JPG"
  ∧ is_image (Py.path_join "C:\pics\2020" "a.JPG") = is_image "a.JPG"
  ∧ is_video (Py.path_join "C:\pics\2020" "a.JPG") = is_video "a.JPG".
Proof. by apply (joined_path_round_trip "C:\pics\2020" "a.JPG"). Defined.
(** ** The count [removeDuplicateImages] prints *)

Lemma filter_split_length {A} (P : A → Prop) `{!∀ x, Decision (P x)}
    (l : list A) :
  (length (filter P l) + length (filter (λ x, ¬ P x) l))%nat = length l.
Proof.
  induction l as [|x l IH]; [done|].
  destruct (decide (P x)).
  - rewrite filter_cons_True by done.
    rewrite (filter_cons_False (λ x, ¬ P x)) by tauto. simpl. lia.
  - rewrite filter_cons_False by done.
    rewrite (filter_cons_True (λ x, ¬ P x)) by done. simpl. lia.
Qed.

(** A set of elements of a duplicate-free list is as large as the part of
    the list it selects. *)
Lemma size_selected (X : gset string) (l : list string) :
  NoDup l → (∀ p, p ∈ X → p ∈ l) →
  size X = length (filter (λ p, p ∈ X) l).
Proof.
  intros Hnd Hsub.
  rewrite <- (size_list_to_set (C:=gset string) (filter (λ p, p ∈ X) l))
    by (by apply NoDup_filter).
  f_equal. apply set_eq. intros p.
  rewrite elem_of_list_to_set, list_elem_of_filter. naive_solver.
Qed.

(** X26.  On records without a repeated path, the number
    [removeDuplicateImages] prints is the number of records it dropped. *)
Theorem duplicates_report_dropped_records
    (threshold : Q) (st st' : State) :
  NoDup (founded_paths st) →
  removeDuplicateImages threshold st = (Ok tt, st') →
  last (stdout st')
  = Some (MsgDuplicatesRemoved
            (length (founded_paths st) - length (founded_paths st'))).
Proof.
  intros Hfnd. pose proof (getImageHashes_reads st) as Hreads.
  destruct (getImageHashes st) as [[hashes|e] st1] eqn:Hrun; simpl in Hreads;
    [|by unfold removeDuplicateImages; cbv [bind]; rewrite Hrun].
  subst st1.
  destruct (getImageHashes_result _ _ _ Hrun) as (Hnd & Hshape & Hkeys).
  pose proof (scan_duplicates_sim hashes threshold st Hnd Hshape) as Hsim.
  pose proof (scan_duplicates_founded_paths hashes threshold st) as Hfp.
  unfold removeDuplicateImages. cbv [bind modify print]. rewrite Hrun.
  destruct (scan_duplicates hashes threshold st) as [[marks|e] st2];
    simpl in Hfp; [|done].
  intros [= <-]. destruct Hsim as (_ & Hdel & _). simpl.
  rewrite last_snoc, Hfp. do 2 f_equal.
  pose proof (filter_split_length (λ p, p ∈ deleted marks) (founded_paths st)).
  rewrite (size_selected (deleted marks) (founded_paths st) Hfnd).
  - lia.
  - intros p (k & Hk & _)%Hdel. apply Hkeys. by eapply list_elem_of_lookup_2.
Qed.

Lemma duplicates_report_dropped_records_witness :
  last (stdout (removeDuplicateImages default_threshold world_twins).2)
  = Some (MsgDuplicatesRemoved
            (length (founded_paths world_twins)
             - length (founded_paths
                         (removeDuplicateImages default_threshold world_twins).2))).
Proof.
  apply (duplicates_report_dropped_records default_threshold world_twins).
  - apply (bool_decide_unpack _). vm_compute. exact I.
  - vm_compute. reflexivity.
Defined.
(** ** [organizeMemories] without a date *)

Lemma organize_one_undated fuel project_dir n p st :
  Py.dict_get (file_dates st) p = None →
  organize_one fuel project_dir n p st = (Raise KeyError, st).
Proof.
  intros Hd. unfold organize_one. unfold bind at 1 2, get, of_option.
  simpl. by rewrite Hd.
Qed.

Lemma organize_loop_undated fuel project_dir p l : ∀ n st,
  p ∈ l → Py.dict_get (file_dates st) p = None →
  (size (disk st) + length l <= fuel)%nat →
  ∃ e st', for_each l (organize_step fuel project_dir) (Some n) st = (Raise e, st')
           ∧ disk st ⊆ disk st' ∧ founded_paths st' = founded_paths st.
Proof.
  induction l as [|x l IH]; intros n st Hp Hd Hfuel; [by apply elem_of_nil in Hp|].
  cbn [length] in Hfuel. simpl for_each. unfold bind.
  destruct (Py.dict_get (file_dates st) x) as [d|] eqn:Hx.
  2:{ simpl. rewrite (organize_one_undated _ _ _ _ _ Hx). by exists KeyError, st. }
  assert (Hin : p ∈ l).
  { apply elem_of_cons in Hp. destruct Hp as [Heq|Hp]; [congruence|done]. }
  destruct (organize_step_grows fuel project_dir (Some n) x st)
    as ((Hdisk & Hfp & _ & Hfd & _ & Hs) & Hnone).
  change (organize_step fuel project_dir (Some n) x st)
    with (organize_one fuel project_dir n x st) in *.
  destruct (organize_one fuel project_dir n x st) as [[[n1|]|e] st1];
    simpl in *.
  - destruct (IH n1 st1 Hin) as (e & st' & Hrun & Hsub & Hfp');
      [by rewrite Hfd|lia|].
    exists e, st'. split_and!; [done|by etrans|congruence].
  - exfalso. apply Hnone; [by eexists|lia|done].
  - by exists e, st1.
Qed.

(** X27.  [organizeMemories] needs the date of every record: when a record
    has none, as before [createFolders] has run, it raises, having
    overwritten and deleted nothing and with the records as they were. *)
Theorem organizeMemories_needs_dates
    (fuel : nat) (project_dir : string) (st : State) (p : string) :
  p ∈ founded_paths st →
  Py.dict_get (file_dates st) p = None →
  (size (disk st) + length (founded_paths st) <= fuel)%nat →
  ∃ e st',
    organizeMemories fuel project_dir st = (Raise e, st')
    ∧ disk st ⊆ disk st'
    ∧ founded_paths st' = founded_paths st.
Proof.
  intros Hp Hd Hfuel. unfold organizeMemories. cbv [bind get].
  by apply organize_loop_undated with p.
Qed.

Lemma organizeMemories_needs_dates_witness :
  ∃ e st',
    organizeMemories 10 "C:\proj" world_two_months = (Raise e, st')
    ∧ disk world_two_months ⊆ disk st'
    ∧ founded_paths st' = founded_paths world_two_months.
Proof.
  apply (organizeMemories_needs_dates 10 "C:\proj" world_two_months
           (hd "" (founded_paths world_two_months))).
  - vm_compute. by left.
  - by vm_compute.
  - vm_compute. lia.
Defined.
